(** * agent-document-reviewer: the document analyzer

    A shallow embedding of [agent-document-reviewer/scripts/analyze_document.js]
    and the properties of its link traversal and scoring.

    Conventions of the embedding.
    - A JavaScript string is a Rocq [string]; one [ascii] stands for one
      UTF-16 code unit, so the model covers texts whose code units are
      below 256.
    - A JavaScript number that the script uses as a counter is a [Z]
      ([nat] for the two traversal limits and the depth, which [main]
      only ever sets to positive integers); the arithmetic the script does
      in floating point (the weighted score, the average, the 20% cut) is
      done on binary64 values.
    - [Set] objects are [gset string]; the file system the script reads is
      a finite map from absolute paths to nodes.
    - [fs] and [path] are Node's modules, not code of the repository: they
      are modelled in [NodePath] and [NodeFs] from Node's documentation
      (POSIX flavour).

    The development is about the script file as it stands.  The
    repository also carries a later copy of the script (the text that
    follows the skill description in [agent-document-reviewer/SKILL.md])
    with a [--root-dir] sandbox, an anchor-link penalty, a URI-scheme test
    and a filter of the skip lists; none of these is in
    [scripts/analyze_document.js]. *)

From Stdlib Require Import ZArith List String Ascii Bool Lia.
From Stdlib Require Import Floats.PrimFloat Floats.SpecFloat Floats.FloatOps.
From stdpp Require Import base gmap strings list.

(* 0.4, 0.3 and 0.2 denote the nearest binary64 values, as in JavaScript. *)
Set Warnings "-inexact-float".

Local Open Scope string_scope.
Local Open Scope Z_scope.

(** ** JavaScript strings *)

Module JsString.

(** [String.prototype.startsWith] *)
Fixpoint startsWith (s p : string) : bool :=
  match p, s with
  | EmptyString, _ => true
  | String _ _, EmptyString => false
  | String b p', String a s' => Ascii.eqb a b && startsWith s' p'
  end.

(** The characters of [\s] and of [trim]: TAB, LF, VT, FF, CR, SP, NBSP. *)
Definition isWhiteSpace (c : ascii) : bool :=
  let n := nat_of_ascii c in
  ((9 <=? n)%nat && (n <=? 13)%nat) || (n =? 32)%nat || (n =? 160)%nat.

(** LF and CR, the line terminators that [.] does not match. *)
Definition isLineTerminator (c : ascii) : bool :=
  let n := nat_of_ascii c in (n =? 10)%nat || (n =? 13)%nat.

(** The characters of [\w]: letters, digits and the underscore. *)
Definition isWordChar (c : ascii) : bool :=
  let n := nat_of_ascii c in
  ((48 <=? n)%nat && (n <=? 57)%nat) || ((65 <=? n)%nat && (n <=? 90)%nat)
  || ((97 <=? n)%nat && (n <=? 122)%nat) || (n =? 95)%nat.

Fixpoint dropWhile (p : ascii -> bool) (s : string) : string :=
  match s with
  | EmptyString => EmptyString
  | String c s' => if p c then dropWhile p s' else s
  end.

Fixpoint takeWhile (p : ascii -> bool) (s : string) : string :=
  match s with
  | EmptyString => EmptyString
  | String c s' => if p c then String c (takeWhile p s') else EmptyString
  end.

Fixpoint take (n : nat) (s : string) : string :=
  match n, s with
  | S n', String c s' => String c (take n' s')
  | _, _ => EmptyString
  end.

Definition rev (s : string) : string := String.rev s.

(** [String.prototype.trim] *)
Definition trim (s : string) : string :=
  rev (dropWhile isWhiteSpace (rev (dropWhile isWhiteSpace s))).

(** [s.split(sep)] for a one-character separator: never empty. *)
Fixpoint split (sep : ascii) (s : string) : list string :=
  match s with
  | EmptyString => [EmptyString]
  | String c s' =>
      if Ascii.eqb c sep then EmptyString :: split sep s'
      else match split sep s' with
           | h :: t => String c h :: t
           | [] => [String c EmptyString]
           end
  end.

(** [s.split(sep)[0]]: the text before the first separator. *)
Definition beforeFirst (sep : ascii) (s : string) : string :=
  match split sep s with
  | h :: _ => h
  | [] => EmptyString
  end.

(** [s.split(/\s+/)]: the pieces between maximal runs of white space;
    [prevWs] tells that the previous character was white space. *)
Fixpoint splitWhiteSpace (prevWs : bool) (s : string) : list string :=
  match s with
  | EmptyString => [EmptyString]
  | String c s' =>
      if isWhiteSpace c then
        if prevWs then splitWhiteSpace true s'
        else EmptyString :: splitWhiteSpace true s'
      else match splitWhiteSpace false s' with
           | h :: t => String c h :: t
           | [] => [String c EmptyString]
           end
  end.

(** [String.prototype.toLowerCase] on the letters A to Z. *)
Definition lowerChar (c : ascii) : ascii :=
  let n := nat_of_ascii c in
  if ((65 <=? n)%nat && (n <=? 90)%nat) then ascii_of_nat (n + 32) else c.

Fixpoint toLowerCase (s : string) : string :=
  match s with
  | EmptyString => EmptyString
  | String c s' => String (lowerChar c) (toLowerCase s')
  end.

End JsString.

(** ** The three regular expressions of the script

    Each pattern is matched the way the JavaScript engine does it: the
    leftmost match from each start position, greedy groups, and the next
    search resuming where the previous match ended.  For these patterns a
    greedy group is a maximal run of a character class that the following
    token excludes, so giving characters back never produces a match the
    maximal run does not. *)

Module Regex.
Import JsString.

Definition isNotChar (c : ascii) : ascii -> bool := fun x => negb (Ascii.eqb x c).
Definition isChar (c : ascii) : ascii -> bool := fun x => Ascii.eqb x c.

(** [/\[([^\]]+)\]\(([^)]+)\)/] tried just after an opening bracket:
    the label, the target and the number of characters consumed after
    the bracket. *)
Definition matchLinkAfterBracket (s : string) : option (string * string * nat) :=
  let label := takeWhile (isNotChar "]") s in
  match label, dropWhile (isNotChar "]") s with
  | String _ _, String _ (String "(" r) =>
      let url := takeWhile (isNotChar ")") r in
      match url, dropWhile (isNotChar ")") r with
      | String _ _, String _ _ =>
          Some (label, url, (String.length label + 2 + String.length url + 1)%nat)
      | _, _ => None
      end
  | _, _ => None
  end.

(** All matches of the link pattern with the [g] flag, as [exec] in a
    loop and [matchAll] both enumerate them; [skip] counts the
    characters of the current match still to pass over. *)
Fixpoint scanLinks (skip : nat) (s : string) : list (string * string) :=
  match s with
  | EmptyString => []
  | String c s' =>
      match skip with
      | S k => scanLinks k s'
      | O =>
          if Ascii.eqb c "[" then
            match matchLinkAfterBracket s' with
            | Some (label, url, n) => (label, url) :: scanLinks n s'
            | None => scanLinks 0 s'
            end
          else scanLinks 0 s'
      end
  end.

Definition linkMatches (s : string) : list (string * string) := scanLinks 0 s.

(** [s.match(/^(#+)\s+(.+)$/)]: the number of [#] and the title. *)
Definition headerMatch (s : string) : option (nat * string) :=
  let hashes := takeWhile (isChar "#") s in
  let r := dropWhile (isChar "#") s in
  let ws := takeWhile isWhiteSpace r in
  let title := dropWhile isWhiteSpace r in
  match hashes, ws with
  | String _ _, String _ _ =>
      match title with
      | String _ _ =>
          if forallb (fun c => negb (isLineTerminator c)) (list_ascii_of_string title)
          then Some (String.length hashes, title) else None
      | EmptyString =>
          (* the white space reaches the end: [\s+] gives its last
             character to [(.+)] *)
          match list_ascii_of_string (rev ws) with
          | c :: _ :: _ =>
              if isLineTerminator c then None
              else Some (String.length hashes, String c EmptyString)
          | _ => None
          end
      end
  | _, _ => None
  end.

(** [/\b\w+\s+\w+\s+\w+\b/] tried at the start of a word: the length of
    the match. *)
Definition matchPhraseAt (s : string) : option nat :=
  let w1 := takeWhile isWordChar s in
  let r1 := dropWhile isWordChar s in
  let s1 := takeWhile isWhiteSpace r1 in
  let r2 := dropWhile isWhiteSpace r1 in
  let w2 := takeWhile isWordChar r2 in
  let r3 := dropWhile isWordChar r2 in
  let s2 := takeWhile isWhiteSpace r3 in
  let r4 := dropWhile isWhiteSpace r3 in
  let w3 := takeWhile isWordChar r4 in
  match w1, s1, w2, s2, w3 with
  | String _ _, String _ _, String _ _, String _ _, String _ _ =>
      Some (String.length w1 + String.length s1 + String.length w2
            + String.length s2 + String.length w3)%nat
  | _, _, _, _, _ => None
  end.

(** All matches of the phrase pattern with the [g] flag; [prevWord]
    tells that the previous character is a word character, where [\b]
    does not hold before another one. *)
Fixpoint scanPhrases (skip : nat) (prevWord : bool) (s : string) : list string :=
  match s with
  | EmptyString => []
  | String c s' =>
      match skip with
      | S k => scanPhrases k (isWordChar c) s'
      | O =>
          if negb prevWord && isWordChar c then
            match matchPhraseAt s with
            | Some n => take n s :: scanPhrases (n - 1) true s'
            | None => scanPhrases 0 true s'
            end
          else scanPhrases 0 (isWordChar c) s'
      end
  end.

Definition phraseMatches (s : string) : list string := scanPhrases 0 false s.

End Regex.

(** ** Node's [path] module (POSIX)

    Modelled from Node's documentation: [resolve] joins its arguments
    from the right until one is absolute, falls back on the working
    directory, and normalizes; [dirname] and [basename] follow Node's
    scan from the end of the string. *)

Module NodePath.
Import JsString.

Definition isSlash (c : ascii) : bool := Ascii.eqb c "/".

Fixpoint normalizeSegments (acc : list string) (segs : list string) : list string :=
  match segs with
  | [] => List.rev acc
  | s :: t =>
      if String.eqb s "" || String.eqb s "." then normalizeSegments acc t
      else if String.eqb s ".." then normalizeSegments (List.tl acc) t
      else normalizeSegments (s :: acc) t
  end.

Fixpoint joinSegments (segs : list string) : string :=
  match segs with
  | [] => EmptyString
  | [s] => s
  | s :: t => s ++ "/" ++ joinSegments t
  end.

(** The arguments of [resolve], rightmost first, prepended until an
    absolute one is met. *)
Fixpoint gather (cwd : string) (rpaths : list string) : string :=
  match rpaths with
  | [] => cwd
  | p :: rest =>
      if String.eqb p "" then gather cwd rest
      else if startsWith p "/" then p
      else gather cwd rest ++ "/" ++ p
  end.

(** [path.resolve(...paths)] with [cwd] the absolute working directory. *)
Definition resolve (cwd : string) (paths : list string) : string :=
  "/" ++ joinSegments (normalizeSegments [] (split "/" (gather cwd (List.rev paths)))).

(** [path.dirname(p)] *)
Definition dirname (p : string) : string :=
  match p with
  | EmptyString => "."
  | String c0 tl =>
      let root := if isSlash c0 then "/" else "." in
      match dropWhile isSlash (rev tl) with
      | EmptyString => root
      | String _ _ as r1 =>
          match dropWhile (fun c => negb (isSlash c)) r1 with
          | EmptyString => root
          | String _ r3 =>
              if isSlash c0 && String.eqb r3 "" then "//"
              else String c0 (rev r3)
          end
      end
  end.

(** [path.basename(p)] *)
Definition basename (p : string) : string :=
  rev (takeWhile (fun c => negb (isSlash c)) (dropWhile isSlash (rev p))).

End NodePath.

(** ** Node's [fs] module, as far as the script uses it *)

Module NodeFs.

(** What a path names: a file with its text, a directory, or something
    else that exists and whose read throws (a file the process may not
    read, for instance). *)
Inductive node : Type :=
| File (content : string)
| Directory
| Unreadable.

(** The file system at the time of the run, keyed by absolute path, and
    the working directory of the process. *)
Record env : Type := { cwd : string; files : gmap string node }.

(** What a call does: it returns, or it throws.  [OutOfFuel] is the
    recursion bound of the model, never reached by [analyzeWithLinks]. *)
Inductive outcome (A : Type) : Type :=
| Returned (a : A)
| Threw (path : string)
| OutOfFuel.
Arguments Returned {A} a.
Arguments Threw {A} path.
Arguments OutOfFuel {A}.

(** [fs.existsSync(p)] *)
Definition existsSync (e : env) (p : string) : bool :=
  match files e !! p with Some _ => true | None => false end.

(** [fs.readFileSync(p, 'utf-8')]: throws on a directory, on a path
    that cannot be read and on a missing file. *)
Definition readFileSync (e : env) (p : string) : outcome string :=
  match files e !! p with
  | Some (File c) => Returned c
  | _ => Threw p
  end.

End NodeFs.

(** ** JavaScript numbers

    The script computes three quantities in floating point; they are
    computed here on binary64 values, so that a rounding the exact
    arithmetic would not show is kept. *)

Module JsNumber.

(** An integer as a number: the nearest binary64 value, a tie going to
    the even mantissa (exact up to 2^53, infinite from 2^1024 on). *)
Definition ofZ (z : Z) : float :=
  SF2Prim (binary_normalize prec emax z 0 false).

(** [Math.floor(x)], read off the exact value [m * 2^e] of a finite [x];
    a zero gives 0.  The script applies it to finite numbers only (the
    last case stands for NaN and the infinities). *)
Definition Math_floor (x : float) : Z :=
  match Prim2SF x with
  | S754_finite s m e =>
      let n := if s then Z.neg m else Z.pos m in
      if 0 <=? e then n * 2 ^ e else n / 2 ^ (- e)
  | _ => 0
  end.

(** [Math.round(x)]: the nearest integer, a tie going up, that is the
    floor of [x + 1/2] taken exactly on the value [m * 2^e]. *)
Definition Math_round (x : float) : Z :=
  match Prim2SF x with
  | S754_finite s m e =>
      let n := if s then Z.neg m else Z.pos m in
      if 0 <=? e then n * 2 ^ e else (2 * n + 2 ^ (- e)) / 2 ^ (1 - e)
  | _ => 0
  end.

End JsNumber.

(** ** The records of the script *)

Module Heading.
(** An element of [metrics.sections]. *)
Record t : Type := { depth : Z; title : string; lineNumber : Z }.
End Heading.

Module Metrics.
(** The object [analyzeDocument] returns. *)
Record t : Type := {
  totalLines : Z;
  nonEmptyLines : Z;
  wordCount : Z;
  sections : list Heading.t;
  maxDepth : Z;
  sectionCount : Z;
  internalLinks : Z;
  externalLinks : Z;
  totalLinks : Z;
  frontLoadedContent : Z;
  avgSectionLength : Z;
  redundancyIndicators : list (string * Z)
}.
End Metrics.

Module Scores.
Record t : Type := {
  lineCount : Z;
  structure : Z;
  progressiveDisclosure : Z;
  overall : Z
}.
End Scores.

(** The strings [evaluateMetrics] pushes on [feedback], one constructor
    per message, with the number the message interpolates. *)
Inductive Feedback : Type :=
| LengthExcellent
| LengthAcceptable
| LengthGettingLong
| LengthTooLong
| DeepNesting (depth : Z)
| GoodHeadingDepth
| ManySections (count : Z)
| HighSectionCount (count : Z)
| VeryShortSections
| GoodInternalLinks
| ShortEnoughWithoutLinks
| SomeInternalLinks
| NoInternalLinksAcceptable
| NoInternalLinksSplit
| PotentialRedundancy.

Module Evaluation.
Record t : Type := { scores : Scores.t; feedback : list Feedback }.
End Evaluation.

(** ** [analyzeDocument] *)

Module Document.
Import JsString Regex JsNumber.

Definition newline : ascii := ascii_of_nat 10.

(** [line.trim().length > 0] *)
Definition nonEmpty (line : string) : bool :=
  negb (String.eqb (trim line) "").

(** [url.startsWith('http://') || url.startsWith('https://')] *)
Definition isHttp (url : string) : bool :=
  startsWith url "http://" || startsWith url "https://".

(** The part of [metrics] that the [forEach] over the lines updates. *)
Record tally : Type := {
  sections : list Heading.t;
  maxDepth : Z;
  sectionCount : Z;
  internalLinks : Z;
  externalLinks : Z;
  totalLinks : Z
}.

Definition emptyTally : tally :=
  {| sections := []; maxDepth := 0; sectionCount := 0;
     internalLinks := 0; externalLinks := 0; totalLinks := 0 |}.

(** The section-header branch of the callback. *)
Definition countHeader (t : tally) (index : nat) (trimmed : string) : tally :=
  match headerMatch trimmed with
  | Some (d, title) =>
      let depth := Z.of_nat d in
      {| sections := (sections t ++
           [ {| Heading.depth := depth; Heading.title := title;
                Heading.lineNumber := Z.of_nat index + 1 |} ])%list;
         maxDepth := Z.max (maxDepth t) depth;
         sectionCount := sectionCount t + 1;
         internalLinks := internalLinks t;
         externalLinks := externalLinks t;
         totalLinks := totalLinks t |}
  | None => t
  end.

(** The body of [for (const match of linkMatches)]. *)
Definition countLink (t : tally) (m : string * string) : tally :=
  let url := snd m in
  {| sections := sections t; maxDepth := maxDepth t;
     sectionCount := sectionCount t;
     internalLinks := if isHttp url then internalLinks t else internalLinks t + 1;
     externalLinks := if isHttp url then externalLinks t + 1 else externalLinks t;
     totalLinks := totalLinks t + 1 |}.

(** The callback of [lines.forEach((line, index) => ...)]. *)
Definition visitLine (t : tally) (index : nat) (line : string) : tally :=
  let trimmed := trim line in
  fold_left countLink (linkMatches trimmed) (countHeader t index trimmed).

(** The matches the callback enumerates over the whole document: those
    of each trimmed line, in order. *)
Definition matchesByLine (lines : list string) : list (string * string) :=
  flat_map (fun line => linkMatches (trim line)) lines.

Fixpoint forEachLine (t : tally) (index : nat) (lines : list string) : tally :=
  match lines with
  | [] => t
  | line :: rest => forEachLine (visitLine t index line) (S index) rest
  end.

(** [phraseCount[normalized] = (phraseCount[normalized] || 0) + 1] on an
    object whose keys keep their insertion order. *)
Fixpoint bump (key : string) (counts : list (string * Z)) : list (string * Z) :=
  match counts with
  | [] => [(key, 1)]
  | (k, n) :: rest =>
      if String.eqb k key then (k, n + 1) :: rest else (k, n) :: bump key rest
  end.

(** [sort((a, b) => b[1] - a[1])], which is stable: an entry goes
    before the first one with a count that is not larger. *)
Fixpoint insertByCount (x : string * Z) (l : list (string * Z)) : list (string * Z) :=
  match l with
  | [] => [x]
  | y :: rest => if snd x <? snd y then y :: insertByCount x rest else x :: l
  end.

Definition sortByCount (l : list (string * Z)) : list (string * Z) :=
  fold_right insertByCount [] l.

Definition redundancy (content : string) : list (string * Z) :=
  let phrases := phraseMatches content in
  let phraseCount := fold_left (fun acc phrase => bump (toLowerCase phrase) acc) phrases [] in
  firstn 5 (sortByCount (List.filter (fun kv => 3 <=? snd kv) phraseCount)).

(** [analyzeDocument] after its [readFileSync]. *)
Definition metricsOf (content : string) : Metrics.t :=
  let lines := split newline content in
  let totalLines := Z.of_nat (length lines) in
  let t := forEachLine emptyTally 0 lines in
  let frontSection := Math_floor (PrimFloat.mul (ofZ totalLines) 0.2%float) in
  {| Metrics.totalLines := totalLines;
     Metrics.nonEmptyLines := Z.of_nat (length (List.filter nonEmpty lines));
     Metrics.wordCount :=
       Z.of_nat (length (List.filter (fun w => negb (String.eqb w ""))
                                     (splitWhiteSpace false content)));
     Metrics.sections := sections t;
     Metrics.maxDepth := maxDepth t;
     Metrics.sectionCount := sectionCount t;
     Metrics.internalLinks := internalLinks t;
     Metrics.externalLinks := externalLinks t;
     Metrics.totalLinks := totalLinks t;
     Metrics.frontLoadedContent :=
       Z.of_nat (length (List.filter nonEmpty (firstn (Z.to_nat frontSection) lines)));
     Metrics.avgSectionLength :=
       if 0 <? sectionCount t
       then Math_floor (PrimFloat.div (ofZ totalLines) (ofZ (sectionCount t)))
       else 0;
     Metrics.redundancyIndicators := redundancy content |}.

(** [analyzeDocument(filePath)] *)
Definition analyzeDocument (e : NodeFs.env) (filePath : string)
  : NodeFs.outcome Metrics.t :=
  match NodeFs.readFileSync e filePath with
  | NodeFs.Returned content => NodeFs.Returned (metricsOf content)
  | NodeFs.Threw p => NodeFs.Threw p
  | NodeFs.OutOfFuel => NodeFs.OutOfFuel
  end.

End Document.

(** ** [evaluateMetrics] *)

Module Evaluate.
Import JsNumber.

(** [scores.lineCount] and its message. *)
Definition lineCountScore (m : Metrics.t) : Z * list Feedback :=
  if Metrics.totalLines m <=? 200 then (10, [LengthExcellent])
  else if Metrics.totalLines m <=? 500 then (7, [LengthAcceptable])
  else if Metrics.totalLines m <=? 800 then (4, [LengthGettingLong])
  else (2, [LengthTooLong]).

(** [scores.structure] and its messages. *)
Definition structureScore (m : Metrics.t) : Z * list Feedback :=
  let '(s1, f1) :=
    if 4 <? Metrics.maxDepth m then (10 - 3, [DeepNesting (Metrics.maxDepth m)])
    else if Metrics.maxDepth m <=? 3 then (10, [GoodHeadingDepth])
    else (10, []) in
  let '(s2, f2) :=
    if 30 <? Metrics.sectionCount m then (s1 - 3, [ManySections (Metrics.sectionCount m)])
    else if 20 <? Metrics.sectionCount m then (s1 - 1, [HighSectionCount (Metrics.sectionCount m)])
    else (s1, []) in
  let '(s3, f3) :=
    if (0 <? Metrics.avgSectionLength m) && (Metrics.avgSectionLength m <? 15)
    then (s2 - 2, [VeryShortSections])
    else (s2, []) in
  (Z.max 0 s3, (f1 ++ f2 ++ f3)%list).

(** [metrics.totalLinks > 0 ? metrics.internalLinks / metrics.totalLinks : 0] *)
Definition linkRatio (m : Metrics.t) : float :=
  if 0 <? Metrics.totalLinks m
  then PrimFloat.div (ofZ (Metrics.internalLinks m)) (ofZ (Metrics.totalLinks m))
  else 0%float.

(** [metrics.internalLinks >= 3 && linkRatio >= 0.5] *)
Definition linksWellUsed (m : Metrics.t) : bool :=
  (3 <=? Metrics.internalLinks m) && PrimFloat.leb 0.5%float (linkRatio m).

(** [scores.progressiveDisclosure] and its message. *)
Definition progressiveDisclosureScore (m : Metrics.t) : Z * list Feedback :=
  if Metrics.totalLines m <=? 200 then
    (10, if 0 <? Metrics.internalLinks m then [GoodInternalLinks]
         else [ShortEnoughWithoutLinks])
  else if Metrics.totalLines m <=? 500 then
    if linksWellUsed m then (10, [GoodInternalLinks])
    else if 0 <? Metrics.internalLinks m then (7, [SomeInternalLinks])
    else (6, [NoInternalLinksAcceptable])
  else
    if linksWellUsed m then (10, [GoodInternalLinks])
    else if 0 <? Metrics.internalLinks m then (6, [SomeInternalLinks])
    else (3, [NoInternalLinksSplit]).

(** [Math.round(lineCount * 0.4 + structure * 0.3 + progressiveDisclosure * 0.3)] *)
Definition overallScore (lineCount structure progressiveDisclosure : Z) : Z :=
  Math_round
    (PrimFloat.add
       (PrimFloat.add (PrimFloat.mul (ofZ lineCount) 0.4%float)
                      (PrimFloat.mul (ofZ structure) 0.3%float))
       (PrimFloat.mul (ofZ progressiveDisclosure) 0.3%float)).

(** [evaluateMetrics(metrics)] *)
Definition evaluateMetrics (m : Metrics.t) : Evaluation.t :=
  let '(lineCount, f1) := lineCountScore m in
  let '(structure, f2) := structureScore m in
  let '(progressiveDisclosure, f3) := progressiveDisclosureScore m in
  let f4 :=
    match Metrics.redundancyIndicators m with
    | [] => []
    | _ :: _ => [PotentialRedundancy]
    end in
  {| Evaluation.scores :=
       {| Scores.lineCount := lineCount;
          Scores.structure := structure;
          Scores.progressiveDisclosure := progressiveDisclosure;
          Scores.overall := overallScore lineCount structure progressiveDisclosure |};
     Evaluation.feedback := (f1 ++ f2 ++ f3 ++ f4)%list |}.

End Evaluate.

(** ** The records of the link traversal *)

Module Options.
(** The options [main] passes to [analyzeWithLinks]; [visited],
    [analyzing] and [currentDepth] are threaded separately. *)
Record t : Type := { maxDepth : nat; maxCount : nat; format : string }.
End Options.

Module SummaryMetrics.
(** The metrics object of a file result under [--format summary]. *)
Record t : Type := {
  totalLines : Z;
  nonEmptyLines : Z;
  wordCount : Z;
  sectionCount : Z;
  maxDepth : Z;
  internalLinks : Z;
  externalLinks : Z;
  totalLinks : Z;
  frontLoadedContent : Z;
  avgSectionLength : Z;
  redundancyCount : Z
}.
End SummaryMetrics.

Inductive ReportedMetrics : Type :=
| Concise (m : SummaryMetrics.t)
| Complete (m : Metrics.t).

Module FileResult.
Record t : Type := {
  file : string;
  fullPath : string;
  depth : nat;
  metrics : ReportedMetrics;
  evaluation : Evaluation.t
}.
End FileResult.

Module Skipped.
Record t : Type := {
  circular : list string;
  maxDepth : list string;
  maxCount : list string
}.
End Skipped.

Module Summary.
Record t : Type := {
  totalAnalyzed : Z;
  averageScore : float;
  worstScore : Z;
  worstFile : option string
}.
End Summary.

Module Result.
Record t : Type := {
  analyzed : list FileResult.t;
  notFound : list string;
  skipped : Skipped.t;
  summary : Summary.t
}.
End Result.

Module TraversalState.
(** The two [Set]s every recursive call shares. *)
Record t : Type := { visited : gset string; analyzing : gset string }.

(** What a call made without [visited] and [analyzing] starts from. *)
Definition fresh : t := {| visited := ∅; analyzing := ∅ |}.
End TraversalState.

(** ** [extractInternalLinks] and [analyzeWithLinks] *)

Module Traversal.
Import JsString Regex JsNumber NodeFs.

(** [[...new Set(links)]]: the first occurrence of each path, in order. *)
Fixpoint unique (seen : list string) (l : list string) : list string :=
  match l with
  | [] => []
  | x :: rest =>
      if existsb (String.eqb x) seen then unique seen rest
      else x :: unique (x :: seen) rest
  end.

(** What one match of the link pattern adds to [links]. *)
Definition linkTarget (e : env) (filePath : string) (url : string) : list string :=
  if negb (startsWith url "http://") && negb (startsWith url "https://") then
    let cleanUrl := beforeFirst "#" url in
    if negb (String.eqb cleanUrl "")
    then [NodePath.resolve (cwd e) [NodePath.dirname filePath; cleanUrl]]
    else []
  else [].

(** [extractInternalLinks(filePath, content)] *)
Definition extractInternalLinks (e : env) (filePath content : string) : list string :=
  unique [] (flat_map (fun m => linkTarget e filePath (snd m)) (linkMatches content)).

Definition emptyResult : Result.t :=
  {| Result.analyzed := [];
     Result.notFound := [];
     Result.skipped :=
       {| Skipped.circular := []; Skipped.maxDepth := []; Skipped.maxCount := [] |};
     Result.summary :=
       {| Summary.totalAnalyzed := 0; Summary.averageScore := 0%float;
          Summary.worstScore := 10; Summary.worstFile := None |} |}.

(** [result.skipped.circular.push(p)] *)
Definition pushCircular (r : Result.t) (p : string) : Result.t :=
  {| Result.analyzed := Result.analyzed r;
     Result.notFound := Result.notFound r;
     Result.skipped :=
       {| Skipped.circular := (Skipped.circular (Result.skipped r) ++ [p])%list;
          Skipped.maxDepth := Skipped.maxDepth (Result.skipped r);
          Skipped.maxCount := Skipped.maxCount (Result.skipped r) |};
     Result.summary := Result.summary r |}.

(** [result.skipped.maxDepth.push(p)] *)
Definition pushMaxDepth (r : Result.t) (p : string) : Result.t :=
  {| Result.analyzed := Result.analyzed r;
     Result.notFound := Result.notFound r;
     Result.skipped :=
       {| Skipped.circular := Skipped.circular (Result.skipped r);
          Skipped.maxDepth := (Skipped.maxDepth (Result.skipped r) ++ [p])%list;
          Skipped.maxCount := Skipped.maxCount (Result.skipped r) |};
     Result.summary := Result.summary r |}.

(** [result.skipped.maxCount.push(p)] *)
Definition pushMaxCount (r : Result.t) (p : string) : Result.t :=
  {| Result.analyzed := Result.analyzed r;
     Result.notFound := Result.notFound r;
     Result.skipped :=
       {| Skipped.circular := Skipped.circular (Result.skipped r);
          Skipped.maxDepth := Skipped.maxDepth (Result.skipped r);
          Skipped.maxCount := (Skipped.maxCount (Result.skipped r) ++ [p])%list |};
     Result.summary := Result.summary r |}.

(** [result.notFound.push(p)] *)
Definition pushNotFound (r : Result.t) (p : string) : Result.t :=
  {| Result.analyzed := Result.analyzed r;
     Result.notFound := (Result.notFound r ++ [p])%list;
     Result.skipped := Result.skipped r;
     Result.summary := Result.summary r |}.

(** The metrics of a file result: the short object under
    [format === 'summary'], the whole of [metrics] otherwise. *)
Definition reportMetrics (format : string) (m : Metrics.t) : ReportedMetrics :=
  if String.eqb format "summary" then
    Concise
      {| SummaryMetrics.totalLines := Metrics.totalLines m;
         SummaryMetrics.nonEmptyLines := Metrics.nonEmptyLines m;
         SummaryMetrics.wordCount := Metrics.wordCount m;
         SummaryMetrics.sectionCount := Metrics.sectionCount m;
         SummaryMetrics.maxDepth := Metrics.maxDepth m;
         SummaryMetrics.internalLinks := Metrics.internalLinks m;
         SummaryMetrics.externalLinks := Metrics.externalLinks m;
         SummaryMetrics.totalLinks := Metrics.totalLinks m;
         SummaryMetrics.frontLoadedContent := Metrics.frontLoadedContent m;
         SummaryMetrics.avgSectionLength := Metrics.avgSectionLength m;
         SummaryMetrics.redundancyCount :=
           Z.of_nat (length (Metrics.redundancyIndicators m)) |}
  else Complete m.

Definition overallOf (f : FileResult.t) : Z :=
  Scores.overall (Evaluation.scores (FileResult.evaluation f)).

(** [result.analyzed.push(fileResult); result.summary.totalAnalyzed++]
    and the worst-score update that follows. *)
Definition recordFile (r : Result.t) (f : FileResult.t) : Result.t :=
  let score := overallOf f in
  let s := Result.summary r in
  let better := score <? Summary.worstScore s in
  {| Result.analyzed := (Result.analyzed r ++ [f])%list;
     Result.notFound := Result.notFound r;
     Result.skipped := Result.skipped r;
     Result.summary :=
       {| Summary.totalAnalyzed := Summary.totalAnalyzed s + 1;
          Summary.averageScore := Summary.averageScore s;
          Summary.worstScore := if better then score else Summary.worstScore s;
          Summary.worstFile :=
            if better then Some (FileResult.fullPath f) else Summary.worstFile s |} |}.

(** The "Merge results" block of the loop over the links. *)
Definition merge (r linked : Result.t) : Result.t :=
  let analyzed := (Result.analyzed r ++ Result.analyzed linked)%list in
  let s := Result.summary r in
  let better := Summary.worstScore (Result.summary linked) <? Summary.worstScore s in
  {| Result.analyzed := analyzed;
     Result.notFound := (Result.notFound r ++ Result.notFound linked)%list;
     Result.skipped :=
       {| Skipped.circular :=
            (Skipped.circular (Result.skipped r)
             ++ Skipped.circular (Result.skipped linked))%list;
          Skipped.maxDepth :=
            (Skipped.maxDepth (Result.skipped r)
             ++ Skipped.maxDepth (Result.skipped linked))%list;
          Skipped.maxCount :=
            (Skipped.maxCount (Result.skipped r)
             ++ Skipped.maxCount (Result.skipped linked))%list |};
     Result.summary :=
       {| Summary.totalAnalyzed := Z.of_nat (length analyzed);
          Summary.averageScore := Summary.averageScore s;
          Summary.worstScore :=
            if better then Summary.worstScore (Result.summary linked)
            else Summary.worstScore s;
          Summary.worstFile :=
            if better then Summary.worstFile (Result.summary linked)
            else Summary.worstFile s |} |}.

(** [Math.round(totalScore / result.analyzed.length * 10) / 10] *)
Definition average (analyzed : list FileResult.t) : float :=
  let totalScore := fold_left (fun sum item => sum + overallOf item) analyzed 0 in
  PrimFloat.div
    (ofZ (Math_round
            (PrimFloat.mul
               (PrimFloat.div (ofZ totalScore) (ofZ (Z.of_nat (length analyzed))))
               10%float)))
    10%float.

(** The "Calculate average score" block. *)
Definition withAverage (r : Result.t) : Result.t :=
  match Result.analyzed r with
  | [] => r
  | _ :: _ =>
      let s := Result.summary r in
      {| Result.analyzed := Result.analyzed r;
         Result.notFound := Result.notFound r;
         Result.skipped := Result.skipped r;
         Result.summary :=
           {| Summary.totalAnalyzed := Summary.totalAnalyzed s;
              Summary.averageScore := average (Result.analyzed r);
              Summary.worstScore := Summary.worstScore s;
              Summary.worstFile := Summary.worstFile s |} |}
  end.

Definition call : Type :=
  string -> TraversalState.t -> outcome (Result.t * TraversalState.t).

(** [for (const linkedPath of internalLinks)], with [recur] the
    recursive call at [currentDepth + 1]. *)
Fixpoint followLinks (recur : call) (o : Options.t) (links : list string)
    (r : Result.t) (st : TraversalState.t)
  : outcome (Result.t * TraversalState.t) :=
  match links with
  | [] => Returned (r, st)
  | linkedPath :: rest =>
      if (Options.maxCount o <=? size (TraversalState.visited st))%nat then
        followLinks recur o rest (pushMaxCount r linkedPath) st
      else
        match recur linkedPath st with
        | Returned (linkedResult, st') =>
            followLinks recur o rest (merge r linkedResult) st'
        | Threw p => Threw p
        | OutOfFuel => OutOfFuel
        end
  end.

(** The loop of the [else if (currentDepth === maxDepth)] branch. *)
Fixpoint recordUnfollowed (e : env) (visited : gset string) (links : list string)
    (r : Result.t) : Result.t :=
  match links with
  | [] => r
  | linkedPath :: rest =>
      if bool_decide (NodePath.resolve (cwd e) [linkedPath] ∈ visited)
      then recordUnfollowed e visited rest r
      else recordUnfollowed e visited rest (pushMaxDepth r linkedPath)
  end.

(** The body of [analyzeWithLinks]; [recur] is the function itself one
    level deeper, absent when the model's recursion bound is used up.
    An exception of [readFileSync] leaves the [try] through its [finally]
    and every caller up to [main]: the state it leaves is not observed. *)
Definition analyzeWithLinksBody (recur : option call) (e : env) (o : Options.t)
    (filePath : string) (currentDepth : nat) (st : TraversalState.t)
  : outcome (Result.t * TraversalState.t) :=
  let result := emptyResult in
  let normalizedPath := NodePath.resolve (cwd e) [filePath] in
  if bool_decide (normalizedPath ∈ TraversalState.visited st) then
    Returned (pushCircular result normalizedPath, st)
  else if bool_decide (normalizedPath ∈ TraversalState.analyzing st) then
    Returned (pushCircular result normalizedPath, st)
  else if (Options.maxCount o <=? size (TraversalState.visited st))%nat then
    Returned (pushMaxCount result normalizedPath, st)
  else if negb (existsSync e normalizedPath) then
    Returned (pushNotFound result normalizedPath, st)
  else
    let st1 :=
      {| TraversalState.visited := {[normalizedPath]} ∪ TraversalState.visited st;
         TraversalState.analyzing := {[normalizedPath]} ∪ TraversalState.analyzing st |} in
    match readFileSync e normalizedPath with
    | Threw p => Threw p
    | OutOfFuel => OutOfFuel
    | Returned content =>
    match Document.analyzeDocument e normalizedPath with
    | Threw p => Threw p
    | OutOfFuel => OutOfFuel
    | Returned metrics =>
        let evaluation := Evaluate.evaluateMetrics metrics in
        let fileResult :=
          {| FileResult.file := NodePath.basename normalizedPath;
             FileResult.fullPath := normalizedPath;
             FileResult.depth := currentDepth;
             FileResult.metrics := reportMetrics (Options.format o) metrics;
             FileResult.evaluation := evaluation |} in
        let result1 := recordFile result fileResult in
        let followed :=
          if (currentDepth <? Options.maxDepth o)%nat then
            match recur with
            | Some f =>
                followLinks f o (extractInternalLinks e normalizedPath content) result1 st1
            | None => OutOfFuel
            end
          else if (currentDepth =? Options.maxDepth o)%nat then
            Returned
              (recordUnfollowed e (TraversalState.visited st1)
                 (extractInternalLinks e normalizedPath content) result1, st1)
          else Returned (result1, st1) in
        match followed with
        | Returned (result2, st2) =>
            Returned
              (withAverage result2,
               {| TraversalState.visited := TraversalState.visited st2;
                  TraversalState.analyzing :=
                    TraversalState.analyzing st2 ∖ {[normalizedPath]} |})
        | Threw p => Threw p
        | OutOfFuel => OutOfFuel
        end
    end
    end.

(** The recursion of [analyzeWithLinks], bounded by [fuel] levels. *)
Fixpoint analyzeWithLinksFuel (fuel : nat) (e : env) (o : Options.t)
    (filePath : string) (currentDepth : nat) (st : TraversalState.t)
  : outcome (Result.t * TraversalState.t) :=
  analyzeWithLinksBody
    (match fuel with
     | O => None
     | S fuel' => Some (fun p s => analyzeWithLinksFuel fuel' e o p (S currentDepth) s)
     end)
    e o filePath currentDepth st.

(** [analyzeWithLinks(filePath, {maxDepth, maxCount, format, visited,
    analyzing, currentDepth})]: a call recurs only while
    [currentDepth < maxDepth], so [maxDepth - currentDepth] levels are
    all it can use. *)
Definition analyzeWithLinks (e : env) (o : Options.t)
    (filePath : string) (currentDepth : nat) (st : TraversalState.t)
  : outcome (Result.t * TraversalState.t) :=
  analyzeWithLinksFuel (Options.maxDepth o - currentDepth) e o filePath currentDepth st.

(** The call [main] makes under [--include-links]: no [visited], no
    [analyzing], [currentDepth] 0. *)
Definition run (e : env) (o : Options.t) (filePath : string) : outcome Result.t :=
  match analyzeWithLinks e o filePath 0 TraversalState.fresh with
  | Returned (r, _) => Returned r
  | Threw p => Threw p
  | OutOfFuel => OutOfFuel
  end.

End Traversal.

(** ** What the specification says, for comparison *)

Module Spec.
Import JsString.


(** The progressive-disclosure score by line-count tier, in the
    specification's words: 10 up to 200 lines; from 201 to 500 lines 10
    when the local references are at least 3 and at least half of all
    references, 7 when some exist, 6 when none does; above 500 lines
    10, 6 and 3. [wellUsed] is the outcome of the ratio test. *)
Definition tierScore (lines localLinks : Z) (wellUsed : bool) : Z :=
  if lines <=? 200 then 10
  else if wellUsed then 10
  else match (lines <=? 500), (0 <? localLinks) with
       | true, true => 7
       | true, false => 6
       | false, true => 6
       | false, false => 3
       end.

(** "The tier score minus 2, floored at 0". *)
Definition anchorPenalty (score : Z) : Z := Z.max 0 (score - 2).

(** A reference is anchor-only when its target begins with [#]. *)
Definition isAnchorOnly (url : string) : bool := startsWith url "#".

Definition isLetter (c : ascii) : bool :=
  let n := nat_of_ascii c in
  ((65 <=? n)%nat && (n <=? 90)%nat) || ((97 <=? n)%nat && (n <=? 122)%nat).

Definition isSchemeChar (c : ascii) : bool :=
  let n := nat_of_ascii c in
  isLetter c || ((48 <=? n)%nat && (n <=? 57)%nat)
  || (n =? 43)%nat || (n =? 45)%nat || (n =? 46)%nat.

(** A target "has a URI scheme": a letter, then letters, digits, [+],
    [.] or [-], then a colon. *)
Definition hasScheme (url : string) : bool :=
  match url with
  | String c rest =>
      isLetter c
      && match dropWhile isSchemeChar rest with
         | String ":" _ => true
         | _ => false
         end
  | EmptyString => false
  end.

(** "The minimum overall score" of the analyzed entries. *)
Fixpoint minimumScore (l : list FileResult.t) : option Z :=
  match l with
  | [] => None
  | f :: rest =>
      match minimumScore rest with
      | None => Some (Traversal.overallOf f)
      | Some m => Some (Z.min (Traversal.overallOf f) m)
      end
  end.

(** "The corresponding canonical path, ties broken by discovery order":
    the path of the first entry with the score [s]. *)
Fixpoint firstWithScore (s : Z) (l : list FileResult.t) : option string :=
  match l with
  | [] => None
  | f :: rest =>
      if Traversal.overallOf f =? s then Some (FileResult.fullPath f)
      else firstWithScore s rest
  end.

End Spec.

(** ** The traversal invariant *)

Module Invariant.
Import NodeFs.

(** What a call at depth [d] that starts with the visited set [V] may
    add: the entries [l] it appends to [analyzed] and the visited set
    [V'] it leaves. *)
Definition grows (e : env) (o : Options.t) (d : nat) (V : gset string)
    (l : list FileResult.t) (V' : gset string) : Prop :=
  V ⊆ V'
  /\ size V' = (size V + length l)%nat
  /\ (size V' <= Nat.max (size V) (Options.maxCount o))%nat
  /\ Forall (fun f =>
       (d <= FileResult.depth f)%nat
       /\ (FileResult.depth f <= Nat.max d (Options.maxDepth o))%nat
       /\ (exists c, files e !! FileResult.fullPath f = Some (File c))
       /\ FileResult.fullPath f ∈ V'
       /\ FileResult.fullPath f ∉ V) l.

(** The specification of a recursive call at depth [d]. *)
Definition callGrows (e : env) (o : Options.t) (d : nat) (recur : Traversal.call) : Prop :=
  forall p st r st',
    recur p st = Returned (r, st') ->
    grows e o d (TraversalState.visited st) (Result.analyzed r)
          (TraversalState.visited st').

(** The worst-score update of the script, entry by entry: a strictly
    smaller score replaces the pair held so far. *)
Definition trackStep (w : Z * option string) (f : FileResult.t) : Z * option string :=
  if Traversal.overallOf f <? fst w
  then (Traversal.overallOf f, Some (FileResult.fullPath f)) else w.

Definition track (w : Z * option string) (l : list FileResult.t) : Z * option string :=
  fold_left trackStep l w.

(** The summary of a result holds what the update gives over its
    entries, from the initial pair (10, null), and the number of entries. *)
Definition summaryTracks (r : Result.t) : Prop :=
  (Summary.worstScore (Result.summary r), Summary.worstFile (Result.summary r))
  = track (10, None) (Result.analyzed r)
  /\ Summary.totalAnalyzed (Result.summary r) = Z.of_nat (length (Result.analyzed r))
  /\ Forall (fun f => 0 <= Traversal.overallOf f <= 10) (Result.analyzed r).

End Invariant.

(** ** Concrete file systems *)

Module Examples.
Import NodeFs Document.

Definition nl : string := String newline "".

Definition defaults : Options.t :=
  {| Options.maxDepth := 1; Options.maxCount := 10; Options.format := "summary" |}.

(** [/r/a.md] links to a sibling, to a mail address, to an anchor and to
    a file above [/r]. *)
Definition escaping : env :=
  {| cwd := "/r";
     files := list_to_map
       [ ("/", Directory); ("/r", Directory); ("/etc", Directory);
         ("/r/a.md", File ("# A" ++ nl
            ++ "[x](x.md) [m](mailto:a@b.c) [top](#top) [up](../etc/passwd)"));
         ("/r/x.md", File "text");
         ("/etc/passwd", File "root:x:0:0") ] |}.

(** [/r/a.md] links to [x.md] and [y.md]; [x.md] links to [y.md] and
    back to [a.md]. *)
Definition diamond : env :=
  {| cwd := "/r";
     files := list_to_map
       [ ("/", Directory); ("/r", Directory);
         ("/r/a.md", File "[x](x.md) [y](y.md)");
         ("/r/x.md", File "[y](y.md) [a](a.md)");
         ("/r/y.md", File "text") ] |}.

(** A single short document. *)
Definition single : env :=
  {| cwd := "/r";
     files := list_to_map
       [ ("/", Directory); ("/r", Directory); ("/r/a.md", File "hello") ] |}.

(** Metrics of a 600-line document with [n] local links among 6. *)
Definition sixHundred (n : Z) : Metrics.t :=
  {| Metrics.totalLines := 600; Metrics.nonEmptyLines := 600;
     Metrics.wordCount := 1200; Metrics.sections := [];
     Metrics.maxDepth := 0; Metrics.sectionCount := 0;
     Metrics.internalLinks := n; Metrics.externalLinks := 6 - n;
     Metrics.totalLinks := 6; Metrics.frontLoadedContent := 120;
     Metrics.avgSectionLength := 0; Metrics.redundancyIndicators := [] |}.

End Examples.

From Stdlib Require Import Sorting.Sorted.

(** ** What a traversal accounts for *)

Module Accounting.
Import NodeFs.

Definition pathsOf (l : list FileResult.t) : list string :=
  map FileResult.fullPath l.

(** The state and the lists of a result, against the visited set [V0] the
    call started from and the set [A] of paths under analysis: the
    visited set is [V0] and the analyzed paths, [analyzing] is [A], a
    path reported as not found is not on disk, a path reported as
    circular is visited or under analysis, and [skipped.maxCount] is
    used only once the visited set has reached the maximum count. *)
Definition accountsFrom (e : env) (o : Options.t) (V0 A : gset string)
    (r : Result.t) (st : TraversalState.t) : Prop :=
  TraversalState.visited st = V0 ∪ list_to_set (pathsOf (Result.analyzed r))
  /\ TraversalState.analyzing st = A
  /\ Forall (fun p => files e !! p = None) (Result.notFound r)
  /\ Forall (fun p => p ∈ TraversalState.visited st ∪ A)
            (Skipped.circular (Result.skipped r))
  /\ (Skipped.maxCount (Result.skipped r) <> [] ->
      (Options.maxCount o <= size (TraversalState.visited st))%nat).

Definition accounts (e : env) (o : Options.t) (st : TraversalState.t)
    (r : Result.t) (st' : TraversalState.t) : Prop :=
  accountsFrom e o (TraversalState.visited st) (TraversalState.analyzing st) r st'.

(** [f] was reached from [g]: it is one level deeper and its path is the
    resolved form of a link that [extractInternalLinks] finds in [g]. *)
Definition linkedFrom (e : env) (g f : FileResult.t) : Prop :=
  FileResult.depth f = S (FileResult.depth g)
  /\ exists content linkedPath,
       files e !! FileResult.fullPath g = Some (File content)
       /\ linkedPath ∈ Traversal.extractInternalLinks e (FileResult.fullPath g) content
       /\ FileResult.fullPath f = NodePath.resolve (cwd e) [linkedPath].

(** The entries of a call on [filePath] at depth [d]: none, or the
    document itself first and then documents reached from an entry of
    the list. *)
Definition reachedFrom (e : env) (d : nat) (filePath : string)
    (l : list FileResult.t) : Prop :=
  match l with
  | [] => True
  | f0 :: rest =>
      FileResult.fullPath f0 = NodePath.resolve (cwd e) [filePath]
      /\ FileResult.depth f0 = d
      /\ Forall (fun f => exists g, g ∈ l /\ linkedFrom e g f) rest
  end.

(** A path that exists and whose read throws. *)
Definition cannotBeRead (e : env) (p : string) : Prop :=
  files e !! p = Some Directory \/ files e !! p = Some Unreadable.

End Accounting.

(** ** The calls of a traversal

    What a run of [analyzeWithLinks] does, told call by call: which
    linked calls a call makes and what it records itself under the two
    skip lists.  None of this looks at the result a call returns. *)

Module Trace.
Import NodeFs Traversal.

(** The linked calls that the loop over [links] makes, each with the
    state it starts from: a link is passed over once the count is
    reached, and the loop ends at a call that does not return. *)
Fixpoint linkedCalls (recur : call) (o : Options.t) (links : list string)
    (st : TraversalState.t) : list (string * TraversalState.t) :=
  match links with
  | [] => []
  | linkedPath :: rest =>
      if (Options.maxCount o <=? size (TraversalState.visited st))%nat then
        linkedCalls recur o rest st
      else
        (linkedPath, st)
        :: match recur linkedPath st with
           | Returned (_, st') => linkedCalls recur o rest st'
           | _ => []
           end
  end.

(** The links that the loop passes over because the count is reached. *)
Fixpoint passedOver (recur : call) (o : Options.t) (links : list string)
    (st : TraversalState.t) : list string :=
  match links with
  | [] => []
  | linkedPath :: rest =>
      if (Options.maxCount o <=? size (TraversalState.visited st))%nat then
        linkedPath :: passedOver recur o rest st
      else
        match recur linkedPath st with
        | Returned (_, st') => passedOver recur o rest st'
        | _ => []
        end
  end.

(** A call: the path it is given, its depth, the state it starts from. *)
Definition invocation : Type := string * nat * TraversalState.t.

Definition perform (e : env) (o : Options.t) (c : invocation)
  : outcome (Result.t * TraversalState.t) :=
  let '(filePath, currentDepth, st) := c in
  analyzeWithLinks e o filePath currentDepth st.

(** The call passes the four tests and reads [content]. *)
Definition admitted (e : env) (o : Options.t) (c : invocation) (content : string) : Prop :=
  let '(filePath, _, st) := c in
  let normalizedPath := NodePath.resolve (cwd e) [filePath] in
  (normalizedPath ∉ TraversalState.visited st)
  /\ (normalizedPath ∉ TraversalState.analyzing st)
  /\ (size (TraversalState.visited st) < Options.maxCount o)%nat
  /\ files e !! normalizedPath = Some (File content).

(** The state after [visited.add] and [analyzing.add]. *)
Definition entered (e : env) (c : invocation) : TraversalState.t :=
  let '(filePath, _, st) := c in
  let normalizedPath := NodePath.resolve (cwd e) [filePath] in
  {| TraversalState.visited := {[normalizedPath]} ∪ TraversalState.visited st;
     TraversalState.analyzing := {[normalizedPath]} ∪ TraversalState.analyzing st |}.

(** The links of the document of a call. *)
Definition linksOf (e : env) (c : invocation) (content : string) : list string :=
  let '(filePath, _, _) := c in
  extractInternalLinks e (NodePath.resolve (cwd e) [filePath]) content.

(** [c] makes the linked call [c']: [c] is admitted below the maximum
    depth and [c'] is one of the calls of its loop, one level deeper. *)
Definition makes (e : env) (o : Options.t) (c c' : invocation) : Prop :=
  exists content,
    admitted e o c content
    /\ (snd (fst c) < Options.maxDepth o)%nat
    /\ snd (fst c') = S (snd (fst c))
    /\ (fst (fst c'), snd c')
        ∈ linkedCalls (fun p s => analyzeWithLinks e o p (S (snd (fst c))) s) o
            (linksOf e c content) (entered e c).

(** [c] records [q] under [skipped.maxDepth]: it is admitted at the
    maximum depth and [q] is a link of its document whose resolved path
    is not visited at that moment. *)
Definition defersByDepth (e : env) (o : Options.t) (c : invocation) (q : string) : Prop :=
  exists content,
    admitted e o c content
    /\ snd (fst c) = Options.maxDepth o
    /\ q ∈ linksOf e c content
    /\ (NodePath.resolve (cwd e) [q] ∉ TraversalState.visited (entered e c)).

(** [c] records [q] under [skipped.maxCount]: [q] is its own resolved
    path, refused at the count test, or a link that its loop passes
    over. *)
Definition defersByCount (e : env) (o : Options.t) (c : invocation) (q : string) : Prop :=
  (let '(filePath, _, st) := c in
   let normalizedPath := NodePath.resolve (cwd e) [filePath] in
   (normalizedPath ∉ TraversalState.visited st)
   /\ (normalizedPath ∉ TraversalState.analyzing st)
   /\ (Options.maxCount o <= size (TraversalState.visited st))%nat
   /\ q = normalizedPath)
  \/ (exists content,
        admitted e o c content
        /\ (snd (fst c) < Options.maxDepth o)%nat
        /\ q ∈ passedOver (fun p s => analyzeWithLinks e o p (S (snd (fst c))) s) o
                (linksOf e c content) (entered e c)).

End Trace.

Module MoreExamples.
Import NodeFs.

(** [/r/a.md] links to the directory [/r/docs]. *)
Definition withDirectoryLink : env :=
  {| cwd := "/r";
     files := list_to_map
       [ ("/", Directory); ("/r", Directory); ("/r/docs", Directory);
         ("/r/a.md", File "see [the docs](docs/) and [x](x.md)");
         ("/r/x.md", File "text") ] |}.

(** Metrics of a document of [n] lines with three headings and four
    links, two of them local. *)
Definition withLines (n : Z) : Metrics.t :=
  {| Metrics.totalLines := n; Metrics.nonEmptyLines := n;
     Metrics.wordCount := 5 * n; Metrics.sections := [];
     Metrics.maxDepth := 2; Metrics.sectionCount := 3;
     Metrics.internalLinks := 2; Metrics.externalLinks := 2;
     Metrics.totalLinks := 4; Metrics.frontLoadedContent := 0;
     Metrics.avgSectionLength := 50; Metrics.redundancyIndicators := [] |}.

(** [n] lines of plain text. *)
Fixpoint textLines (n : nat) : string :=
  match n with
  | O => ""
  | S n' => ("some plain text" ++ String Document.newline (textLines n'))%string
  end.

(** A document: a heading, a line with one local link, then [n] lines
    of text. *)
Definition document (n : nat) : string :=
  ("# Title" ++ String Document.newline
     ("see [x](x.md)" ++ String Document.newline (textLines n)))%string.

End MoreExamples.

(** ** Score tables *)

Module ScoreTables.
Import Evaluate.

Definition lineCountValues : list Z := [10; 7; 4; 2].
Definition structureValues : list Z := [10; 9; 8; 7; 6; 5; 4; 2].
Definition disclosureValues : list Z := [10; 7; 6; 3].

(** A check over every combination of six values taken from six lists. *)
Definition table (f : Z -> Z -> Z -> Z -> Z -> Z -> bool) (A B C D E F : list Z) : bool :=
  forallb (fun a => forallb (fun b => forallb (fun c => forallb (fun d =>
    forallb (fun e => forallb (fun g => f a b c d e g) F) E) D) C) B) A.

(** The overall score of the second triple of sub-scores is not larger
    when none of its sub-scores is. *)
Definition monotoneAt (st1 st2 lc1 lc2 pd1 pd2 : Z) : bool :=
  implb ((lc2 <=? lc1) && (st2 <=? st1) && (pd2 <=? pd1))
        (overallScore lc2 st2 pd2 <=? overallScore lc1 st1 pd1).

(** The overall score does not grow when none of the three sub-scores
    does, over every combination [evaluateMetrics] can produce. *)
Definition overallIsMonotone : bool :=
  table monotoneAt structureValues structureValues lineCountValues lineCountValues
        disclosureValues disclosureValues.

(** The messages that go with a deduction from the structure score. *)
Definition isStructureWarning (f : Feedback) : bool :=
  match f with
  | DeepNesting _ | ManySections _ | HighSectionCount _ | VeryShortSections => true
  | _ => false
  end.

End ScoreTables.

(** ** Lines and headings of a document *)

Module Lines.
Import JsString Regex.

(** A line whose trimmed text matches the header pattern. *)
Definition isHeadingLine (line : string) : bool :=
  match headerMatch (trim line) with Some _ => true | None => false end.

(** Headings in the order of the document: line numbers increase. *)
Definition inDocumentOrder (l : list Heading.t) : Prop :=
  StronglySorted (fun a b => Heading.lineNumber a < Heading.lineNumber b) l.

(** Entries by descending count. *)
Definition byDescendingCount (l : list (string * Z)) : Prop :=
  StronglySorted (fun a b => snd b <= snd a) l.

(** How often [phrase] is among the lower-cased matches of the phrase
    pattern in [content]. *)
Definition occurrences (phrase content : string) : Z :=
  Z.of_nat (length (List.filter (String.eqb phrase)
                      (map toLowerCase (phraseMatches content)))).

(** [phraseCount[key]], 0 for a key that is not there. *)
Fixpoint countOf (key : string) (counts : list (string * Z)) : Z :=
  match counts with
  | [] => 0
  | (k, n) :: rest => if String.eqb k key then n else countOf key rest
  end.

End Lines.

(** ** The command line of [main]

    [main] reads [process.argv.slice(2)] in one loop; its index set
    [skipIndices] only ever holds the index after the current one, so
    the loop is a recursion over the arguments with one flag. *)

Module Cli.
Import JsString.

(** A value of [Number.parseInt]; [Finite z] is a finite number whose
    value is the integer [z]. *)
Inductive number : Type :=
| NaN
| Infinity (negative : bool)
| Finite (z : Z).

Definition isDigit (c : ascii) : bool :=
  let n := nat_of_ascii c in (48 <=? n)%nat && (n <=? 57)%nat.

Fixpoint digitsValue (acc : Z) (s : string) : Z :=
  match s with
  | EmptyString => acc
  | String c s' => digitsValue (10 * acc + (Z.of_nat (nat_of_ascii c) - 48)) s'
  end.

(** The binary64 number nearest to a non-negative integer, a tie going
    to the even mantissa; nothing when the integer rounds to infinity. *)
Definition roundToDouble (z : Z) : option Z :=
  if z <? 2 ^ 53 then Some z
  else
    let k := Z.log2 z - 52 in
    let q := z / 2 ^ k in
    let r := z mod 2 ^ k in
    let half := 2 ^ (k - 1) in
    let q' := if (half <? r) || ((r =? half) && Z.odd q) then q + 1 else q in
    if 2 ^ 1024 <=? q' * 2 ^ k then None else Some (q' * 2 ^ k).

(** [Number.parseInt(s, 10)]: leading white space, an optional sign,
    then the longest run of decimal digits, read exactly and rounded to
    a number. *)
Definition parseInt (s : string) : number :=
  let t := dropWhile isWhiteSpace s in
  let '(negative, rest) :=
    match t with
    | String "-" r => (true, r)
    | String "+" r => (false, r)
    | _ => (false, t)
    end in
  match takeWhile isDigit rest with
  | EmptyString => NaN
  | digits =>
      match roundToDouble (digitsValue 0 digits) with
      | Some v => Finite (if negative then - v else v)
      | None => Infinity negative
      end
  end.

Record t : Type := {
  format : string;
  scope : string;
  matchFileName : string;
  maxAgents : Z;
  includeLinks : bool;
  linkMaxDepth : Z;
  linkMaxCount : Z;
  filePath : option string
}.

(** The [let] declarations before the loop. *)
Definition initial : t :=
  {| format := "full"; scope := "file"; matchFileName := "AGENTS.md";
     maxAgents := 200; includeLinks := false; linkMaxDepth := 1;
     linkMaxCount := 10; filePath := None |}.

(** [if (Number.isFinite(parsed) && parsed > 0) limit = parsed]. *)
Definition limitFrom (old : Z) (value : string) : Z :=
  match parseInt value with
  | Finite z => if 0 <? z then z else old
  | _ => old
  end.

(** [!filePath]: [null] and the empty string. *)
Definition unset (p : option string) : bool :=
  match p with
  | None => true
  | Some s => String.eqb s ""
  end.

(** One iteration for the argument [a], with [next] the argument after
    it if there is one: the options after it, and whether [next] is
    marked to be skipped. *)
Definition step (o : t) (a : string) (next : option string) : t * bool :=
  match next with
  | Some v =>
      if String.eqb a "--format" then
        ({| format := v; scope := scope o; matchFileName := matchFileName o;
            maxAgents := maxAgents o; includeLinks := includeLinks o;
            linkMaxDepth := linkMaxDepth o; linkMaxCount := linkMaxCount o;
            filePath := filePath o |}, true)
      else if String.eqb a "--scope" then
        ({| format := format o; scope := v; matchFileName := matchFileName o;
            maxAgents := maxAgents o; includeLinks := includeLinks o;
            linkMaxDepth := linkMaxDepth o; linkMaxCount := linkMaxCount o;
            filePath := filePath o |}, true)
      else if String.eqb a "--match" then
        ({| format := format o; scope := scope o; matchFileName := v;
            maxAgents := maxAgents o; includeLinks := includeLinks o;
            linkMaxDepth := linkMaxDepth o; linkMaxCount := linkMaxCount o;
            filePath := filePath o |}, true)
      else if String.eqb a "--max-agents" then
        ({| format := format o; scope := scope o; matchFileName := matchFileName o;
            maxAgents := limitFrom (maxAgents o) v; includeLinks := includeLinks o;
            linkMaxDepth := linkMaxDepth o; linkMaxCount := linkMaxCount o;
            filePath := filePath o |}, true)
      else if String.eqb a "--include-links" then
        ({| format := format o; scope := scope o; matchFileName := matchFileName o;
            maxAgents := maxAgents o; includeLinks := true;
            linkMaxDepth := linkMaxDepth o; linkMaxCount := linkMaxCount o;
            filePath := filePath o |}, false)
      else if String.eqb a "--max-depth" then
        ({| format := format o; scope := scope o; matchFileName := matchFileName o;
            maxAgents := maxAgents o; includeLinks := includeLinks o;
            linkMaxDepth := limitFrom (linkMaxDepth o) v; linkMaxCount := linkMaxCount o;
            filePath := filePath o |}, true)
      else if String.eqb a "--max-count" then
        ({| format := format o; scope := scope o; matchFileName := matchFileName o;
            maxAgents := maxAgents o; includeLinks := includeLinks o;
            linkMaxDepth := linkMaxDepth o; linkMaxCount := limitFrom (linkMaxCount o) v;
            filePath := filePath o |}, true)
      else if unset (filePath o) then
        ({| format := format o; scope := scope o; matchFileName := matchFileName o;
            maxAgents := maxAgents o; includeLinks := includeLinks o;
            linkMaxDepth := linkMaxDepth o; linkMaxCount := linkMaxCount o;
            filePath := Some a |}, false)
      else (o, false)
  | None =>
      if String.eqb a "--include-links" then
        ({| format := format o; scope := scope o; matchFileName := matchFileName o;
            maxAgents := maxAgents o; includeLinks := true;
            linkMaxDepth := linkMaxDepth o; linkMaxCount := linkMaxCount o;
            filePath := filePath o |}, false)
      else if unset (filePath o) then
        ({| format := format o; scope := scope o; matchFileName := matchFileName o;
            maxAgents := maxAgents o; includeLinks := includeLinks o;
            linkMaxDepth := linkMaxDepth o; linkMaxCount := linkMaxCount o;
            filePath := Some a |}, false)
      else (o, false)
  end.

(** [for (let i = 0; i < args.length; i++)]; [skip] tells that the
    current index is in [skipIndices]. *)
Fixpoint parseArgs (o : t) (skip : bool) (args : list string) : t :=
  match args with
  | [] => o
  | a :: rest =>
      if skip then parseArgs o false rest
      else let '(o', skipNext) := step o a (List.head rest) in
           parseArgs o' skipNext rest
  end.

Definition parseOptions (args : list string) : t := parseArgs initial false args.

(** The options [main] hands to [analyzeWithLinks]. *)
Definition linkOptions (o : t) : Options.t :=
  {| Options.maxDepth := Z.to_nat (linkMaxDepth o);
     Options.maxCount := Z.to_nat (linkMaxCount o);
     Options.format := format o |}.

(** What [main] does before it looks at the file system: print the
    usage and exit, report a missing path and exit, or go on with the
    options and the path. *)
Inductive start : Type :=
| Exit (code : Z)
| Proceed (o : t) (path : string).

Definition isHelp (a : string) : bool := String.eqb a "--help" || String.eqb a "-h".

Definition begin (args : list string) : start :=
  if existsb isHelp args then Exit 0
  else match args with
       | [] => Exit 1
       | _ =>
           let o := parseOptions args in
           match filePath o with
           | Some p => if String.eqb p "" then Exit 1 else Proceed o p
           | None => Exit 1
           end
       end.

End Cli.

(** ** What the option loop may do to a limit *)

Module CliSpec.

(** [value] reads as the positive finite number [z]: the test
    [Number.isFinite(parsed) && parsed > 0] passes with [parsed = z]. *)
Definition reads (value : string) (z : Z) : Prop :=
  Cli.parseInt value = Cli.Finite z /\ 0 < z.

(** [z] is read from an argument of [args] that follows [flag]. *)
Definition given (flag : string) (args : list string) (z : Z) : Prop :=
  exists before value after,
    args = (before ++ flag :: value :: after)%list /\ reads value z.

(** One iteration changes a limit only when the argument is its flag,
    to the number read from the argument after it. *)
Definition changesOnlyBy (limit : Cli.t -> Z) (flag : string) : Prop :=
  forall o a next,
    limit (fst (Cli.step o a next)) = limit o
    \/ (a = flag /\ exists value, next = Some value
                                 /\ reads value (limit (fst (Cli.step o a next)))).

End CliSpec.

(** ** More of Node's [path] module: [normalize], [join] and [relative] *)

Module NodePathMore.
Import JsString NodePath.

(** Node's [normalizeString] on the segments between slashes; [acc]
    holds the segments kept so far, last first.  With [allowAboveRoot] a
    [..] that has nothing to remove is kept. *)
Fixpoint normalizeString (allowAboveRoot : bool) (acc segs : list string) : list string :=
  match segs with
  | [] => List.rev acc
  | s :: t =>
      if String.eqb s "" || String.eqb s "." then normalizeString allowAboveRoot acc t
      else if String.eqb s ".." then
        match acc with
        | [] => normalizeString allowAboveRoot (if allowAboveRoot then [".."] else []) t
        | last :: acc' =>
            if String.eqb last ".."
            then normalizeString allowAboveRoot (if allowAboveRoot then ".." :: acc else acc) t
            else normalizeString allowAboveRoot acc' t
        end
      else normalizeString allowAboveRoot (s :: acc) t
  end.

Definition endsWithSlash (p : string) : bool :=
  match rev p with
  | String c _ => isSlash c
  | EmptyString => false
  end.

(** [path.normalize(p)] *)
Definition normalize (p : string) : string :=
  if String.eqb p "" then "."
  else
    let isAbsolute := startsWith p "/" in
    let trailingSeparator := endsWithSlash p in
    let path := joinSegments (normalizeString (negb isAbsolute) [] (split "/" p)) in
    if String.eqb path "" then
      if isAbsolute then "/" else if trailingSeparator then "./" else "."
    else
      ((if isAbsolute then "/" else "") ++ path
       ++ (if trailingSeparator then "/" else ""))%string.

(** [path.join(...paths)] *)
Definition join (paths : list string) : string :=
  match List.filter (fun p => negb (String.eqb p "")) paths with
  | [] => "."
  | l => normalize (joinSegments l)
  end.

(** The segments of [path.resolve(p)]. *)
Definition segments (cwd p : string) : list string :=
  normalizeSegments [] (split "/" (gather cwd [p])).

Fixpoint stripCommon (from to : list string) : list string * list string :=
  match from, to with
  | a :: from', b :: to' =>
      if String.eqb a b then stripCommon from' to' else (from, to)
  | _, _ => (from, to)
  end.

(** [path.relative(from, to)]: both are resolved; one [..] for each
    segment of [from] below the common directory, then the segments of
    [to] below it. *)
Definition relative (cwd from to : string) : string :=
  let '(up, down) := stripCommon (segments cwd from) (segments cwd to) in
  joinSegments (map (fun _ => "..") up ++ down).

End NodePathMore.

(** ** Tree mode: discovery of the convention files *)

Module Dirent.
Inductive kind : Type := IsFile | IsDirectory | IsOther.
(** An entry of [readdirSync(dir, { withFileTypes: true })]. *)
Record t : Type := { name : string; kindOf : kind }.
Definition isDirectory (d : t) : bool :=
  match kindOf d with IsDirectory => true | _ => false end.
Definition isFile (d : t) : bool :=
  match kindOf d with IsFile => true | _ => false end.
End Dirent.

Module Discovery.
Record t : Type := { files : list string; truncated : bool }.
End Discovery.

Module Tree.
Import JsString NodePath NodePathMore NodeFs.

(** [fs.readdirSync]: the entries of a directory in the order the
    system lists them, nothing when the call throws. *)
Definition readdir : Type := string -> option (list Dirent.t).

Definition isIgnored (name : string) : bool :=
  String.eqb name ".git" || String.eqb name "node_modules".

(** The state of [discoverConventionFiles] between two statements:
    the stack with its top first, the files found so far in the order
    they were pushed, [truncated]. *)
Record state : Type := {
  stack : list string;
  visitedDirs : gset string;
  discovered : list string;
  truncated : bool
}.

(** [for (const entry of entries)]: the stack and the files after the
    loop, and whether it was left through [break]. *)
Fixpoint scanEntries (currentDir matchFileName : string) (maxAgents : Z)
    (entries : list Dirent.t) (stack discovered : list string)
  : list string * list string * bool :=
  match entries with
  | [] => (stack, discovered, false)
  | entry :: rest =>
      if isIgnored (Dirent.name entry) then
        scanEntries currentDir matchFileName maxAgents rest stack discovered
      else
        let entryPath := join [currentDir; Dirent.name entry] in
        if Dirent.isDirectory entry then
          scanEntries currentDir matchFileName maxAgents rest (entryPath :: stack) discovered
        else if Dirent.isFile entry && String.eqb (Dirent.name entry) matchFileName then
          let discovered' := (discovered ++ [entryPath])%list in
          if maxAgents <=? Z.of_nat (length discovered') then ([], discovered', true)
          else scanEntries currentDir matchFileName maxAgents rest stack discovered'
        else scanEntries currentDir matchFileName maxAgents rest stack discovered
  end.

(** One iteration of [while (stack.length > 0)], on a stack that is not
    empty. *)
Definition visit (readdirSync : readdir) (matchFileName : string) (maxAgents : Z)
    (currentDir : string) (popped : list string) (s : state) : state :=
  if bool_decide (currentDir ∈ visitedDirs s) then
    {| stack := popped; visitedDirs := visitedDirs s;
       discovered := discovered s; truncated := truncated s |}
  else
    let visited := {[currentDir]} ∪ visitedDirs s in
    match readdirSync currentDir with
    | None =>
        {| stack := popped; visitedDirs := visited;
           discovered := discovered s; truncated := truncated s |}
    | Some entries =>
        let '(stack', discovered', broke) :=
          scanEntries currentDir matchFileName maxAgents entries popped (discovered s) in
        {| stack := stack'; visitedDirs := visited;
           discovered := discovered'; truncated := truncated s || broke |}
    end.

(** The [while] loop, at most [fuel] iterations. *)
Fixpoint discoverLoop (fuel : nat) (readdirSync : readdir) (matchFileName : string)
    (maxAgents : Z) (s : state) : outcome state :=
  match stack s with
  | [] => Returned s
  | currentDir :: popped =>
      match fuel with
      | O => OutOfFuel
      | S fuel' =>
          discoverLoop fuel' readdirSync matchFileName maxAgents
            (visit readdirSync matchFileName maxAgents currentDir popped s)
      end
  end.

(** [Array.prototype.sort()] on strings: ascending by code units. *)
Fixpoint insertSorted (x : string) (l : list string) : list string :=
  match l with
  | [] => [x]
  | y :: rest => if String.leb x y then x :: l else y :: insertSorted x rest
  end.

Definition sort (l : list string) : list string := fold_right insertSorted [] l.

(** [discoverConventionFiles(rootDir, matchFileName, maxAgents)] *)
Definition discoverConventionFiles (fuel : nat) (readdirSync : readdir) (cwd : string)
    (rootDir matchFileName : string) (maxAgents : Z) : outcome Discovery.t :=
  match discoverLoop fuel readdirSync matchFileName maxAgents
          {| stack := [resolve cwd [rootDir]]; visitedDirs := ∅;
             discovered := []; truncated := false |} with
  | Returned s =>
      Returned {| Discovery.files := sort (discovered s);
                  Discovery.truncated := truncated s |}
  | Threw p => Threw p
  | OutOfFuel => OutOfFuel
  end.

(** [path.relative(rootResolved, dir).startsWith('..')] *)
Definition leavesRoot (cwd rootResolved dir : string) : bool :=
  startsWith (relative cwd rootResolved dir) "..".

Definition parentCandidate (cwd dir matchFileName : string) : string :=
  resolve cwd [join [dir; matchFileName]].

(** The [while (true)] loop of [findNearestParentConventionFile]. *)
Fixpoint nearestLoop (fuel : nat) (cwd : string) (conventionFileSet : gset string)
    (rootResolved matchFileName currentDir : string) : outcome (option string) :=
  match fuel with
  | O => OutOfFuel
  | S fuel' =>
      let parentDir := dirname currentDir in
      if String.eqb parentDir currentDir then Returned None
      else if leavesRoot cwd rootResolved parentDir then Returned None
      else
        let candidate := parentCandidate cwd parentDir matchFileName in
        if bool_decide (candidate ∈ conventionFileSet) then Returned (Some candidate)
        else nearestLoop fuel' cwd conventionFileSet rootResolved matchFileName parentDir
  end.

(** [findNearestParentConventionFile(conventionFilePath,
    conventionFileSet, rootDir, matchFileName)]; each iteration moves to
    a shorter directory path, so the length of the first one bounds the
    iterations. *)
Definition findNearestParentConventionFile (cwd : string) (conventionFilePath : string)
    (conventionFileSet : gset string) (rootDir matchFileName : string)
  : outcome (option string) :=
  let rootResolved := resolve cwd [rootDir] in
  let currentDir := dirname (resolve cwd [conventionFilePath]) in
  if String.eqb currentDir rootResolved then Returned None
  else nearestLoop (S (String.length currentDir)) cwd conventionFileSet
         rootResolved matchFileName currentDir.

(** [dir] is listed, directly or through directories that are not
    ignored, under [root]. *)
Definition child (readdirSync : readdir) (dir sub : string) : Prop :=
  exists entries entry,
    readdirSync dir = Some entries /\ entry ∈ entries
    /\ isIgnored (Dirent.name entry) = false
    /\ Dirent.isDirectory entry = true
    /\ sub = join [dir; Dirent.name entry].

Definition reachable (readdirSync : readdir) (root dir : string) : Prop :=
  rtc (child readdirSync) root dir.

(** [file] is the path the loop builds for an entry of [dir] that is a
    file with the name looked for. *)
Definition matchIn (readdirSync : readdir) (matchFileName : string)
    (dir file : string) : Prop :=
  exists entries entry,
    readdirSync dir = Some entries /\ entry ∈ entries
    /\ isIgnored (Dirent.name entry) = false
    /\ Dirent.isFile entry = true
    /\ Dirent.name entry = matchFileName
    /\ file = join [dir; Dirent.name entry].

(** The [k]-th directory above [dir]. *)
Fixpoint above (k : nat) (dir : string) : string :=
  match k with
  | O => dir
  | S k' => dirname (above k' dir)
  end.

End Tree.
Module TreeSpec.
Import JsString NodePath NodePathMore NodeFs Tree.

(** The loop of [findNearestParentConventionFile] gets to look at each
    of the [k] directories above [dir]: each differs from the one below
    it, and for none of them does [path.relative(rootResolved, .)] start
    with two dots.  That is the test of the code, not containment: a
    directory of the root whose own name begins with two dots fails
    it. *)
Definition searched (cwd rootResolved dir : string) (k : nat) : Prop :=
  forall j, (1 <= j <= k)%nat ->
    above j dir <> above (j - 1) dir
    /\ leavesRoot cwd rootResolved (above j dir) = false.

(** [file] is a match listed in a directory reachable from [root]. *)
Definition found (readdirSync : readdir) (matchFileName root file : string) : Prop :=
  exists dir, reachable readdirSync root dir /\ matchIn readdirSync matchFileName dir file.

(** Strings in ascending order of their code units. *)
Definition ascending (l : list string) : Prop :=
  Sorted (fun a b => String.leb a b = true) l.

(** The files found so far against the limit: [truncated] is set, with
    an empty stack, exactly when their number has reached it. *)
Definition countsTo (maxAgents : Z) (s : state) : Prop :=
  if truncated s
  then stack s = [] /\ Z.of_nat (length (discovered s)) = Z.max 1 maxAgents
  else Z.of_nat (length (discovered s)) < Z.max 1 maxAgents.

(** The worklist invariant: the root is visited or on the stack, the
    sub-directories of a visited directory are visited or on the stack,
    and the matches of a visited directory are found. *)
Definition covers (readdirSync : readdir) (matchFileName root : string)
    (s : state) : Prop :=
  (root ∈ visitedDirs s \/ root ∈ stack s)
  /\ (forall d sub, d ∈ visitedDirs s -> child readdirSync d sub ->
        sub ∈ visitedDirs s \/ sub ∈ stack s)
  /\ (forall d f, d ∈ visitedDirs s -> matchIn readdirSync matchFileName d f ->
        f ∈ discovered s).

(** The number of entries [readdirSync] lists for [dir]. *)
Definition cost (readdirSync : readdir) (dir : string) : nat :=
  match readdirSync dir with
  | Some entries => length entries
  | None => 0%nat
  end.

(** Entries still to be listed: those of the directories of [dirs] not
    yet visited. *)
Definition remaining (readdirSync : readdir) (dirs : list string)
    (visited : gset string) : nat :=
  list_sum (map (cost readdirSync)
                (List.filter (fun d => negb (bool_decide (d ∈ visited))) dirs)).

(** Iterations that suffice for a tree whose directories are [dirs]. *)
Definition budget (readdirSync : readdir) (dirs : list string) : nat :=
  S (remaining readdirSync dirs ∅).

End TreeSpec.

Module TreeExamples.
Import NodeFs Tree.

(** The convention files of a root [/r] with a nested one in [/r/a/b]. *)
Definition nested : gset string := {[ "/r/AGENTS.md"; "/r/a/b/AGENTS.md" ]}.

Definition entry (name : string) (k : Dirent.kind) : Dirent.t :=
  {| Dirent.name := name; Dirent.kindOf := k |}.

(** The listing of that tree: [/r] holds [AGENTS.md], [.git], [a] and a
    link; [/r/a] holds [b] and a directory that cannot be read;
    [/r/a/b] holds [AGENTS.md]. *)
Definition listing : readdir := fun dir =>
  if String.eqb dir "/r" then
    Some [entry "AGENTS.md" Dirent.IsFile; entry ".git" Dirent.IsDirectory;
          entry "a" Dirent.IsDirectory; entry "link" Dirent.IsOther]
  else if String.eqb dir "/r/a" then
    Some [entry "b" Dirent.IsDirectory; entry "locked" Dirent.IsDirectory;
          entry "README.md" Dirent.IsFile]
  else if String.eqb dir "/r/a/b" then
    Some [entry "AGENTS.md" Dirent.IsFile]
  else None.

Definition listingDirs : list string := ["/r"; "/r/a"; "/r/a/b"; "/r/a/locked"].

End TreeExamples.

(** ** [main]

    What [main] does with the arguments of the command line, a file
    system and a directory listing: it prints one result, or it ends the
    process with an exit code. *)

Module TreeDocument.
(** An element of [documents] in tree mode. *)
Record t : Type := {
  file : string;
  relativePath : string;
  parentRelativePath : option string;
  metrics : ReportedMetrics;
  evaluation : Evaluation.t
}.
End TreeDocument.

Module TreeScope.
(** The [scope] object of the result in tree mode. *)
Record t : Type := {
  rootDir : string;
  matchFileName : string;
  maxAgents : Z;
  truncated : bool
}.
End TreeScope.

Module Main.
Import JsString NodePath NodePathMore NodeFs Tree.

(** The object given to [JSON.stringify]. *)
Inductive result : Type :=
| TreeResult (target : string) (scope : TreeScope.t) (documents : list TreeDocument.t)
| LinkedResult (file : string) (linkedAnalysis : Result.t)
| FileResult (file : string) (metrics : ReportedMetrics) (evaluation : Evaluation.t).

(** How a run ends: [Printed r] is [console.log] of the result, after
    which the process ends by itself; [Exited code] is
    [process.exit(code)] with nothing on the standard output;
    [Unfinished] is the iteration bound of the model. *)
Inductive ending : Type :=
| Printed (r : result)
| Exited (code : Z)
| Unfinished.

(** The exit code of the process: 0 when [main] returns after printing,
    the argument of [process.exit] otherwise. *)
Definition exitCode (x : ending) : option Z :=
  match x with
  | Printed _ => Some 0
  | Exited code => Some code
  | Unfinished => None
  end.

(** The node a path leads to, segment after segment from the root:
    every segment but the last is looked up in a directory.  [acc] holds
    the segments of the place reached, last first. *)
Fixpoint follow (e : env) (acc segs : list string) : option node :=
  let here := files e !! ("/" ++ joinSegments (List.rev acc))%string in
  match segs with
  | [] => here
  | s :: rest =>
      match here with
      | Some Directory =>
          if String.eqb s "" || String.eqb s "." then follow e acc rest
          else if String.eqb s ".." then follow e (List.tl acc) rest
          else follow e (s :: acc) rest
      | _ => None
      end
  end.

(** The node a system call finds for a path as the script gives it,
    absolute or relative to the working directory; nothing when the
    call fails. *)
Definition lookup (e : env) (p : string) : option node :=
  if String.eqb p "" then None
  else follow e [] (split "/" (gather (cwd e) [p])).

(** [isDirectoryPath(filePath)] *)
Definition isDirectoryPath (e : env) (filePath : string) : bool :=
  match lookup e filePath with
  | Some Directory => true
  | _ => false
  end.

(** [normalizeAbsolutePath(filePath)] *)
Definition normalizeAbsolutePath (e : env) (filePath : string) : string :=
  resolve (cwd e) [filePath].

(** [analyzeDocument(p)] on a path as the script gives it: the call
    reads the file the path leads to. *)
Definition analyzeDocumentAt (e : env) (p : string) : outcome Metrics.t :=
  match lookup e p with
  | Some _ => Document.analyzeDocument e (normalizeAbsolutePath e p)
  | None => Threw p
  end.

(** The callback of [conventionFiles.map] in tree mode. *)
Definition describe (e : env) (o : Cli.t) (rootDir : string)
    (conventionFileSet : gset string) (conventionFile : string)
  : outcome TreeDocument.t :=
  match analyzeDocumentAt e conventionFile with
  | Returned metrics =>
      match findNearestParentConventionFile (cwd e) conventionFile conventionFileSet
              rootDir (Cli.matchFileName o) with
      | Returned parentConventionFile =>
          Returned
            {| TreeDocument.file := basename conventionFile;
               TreeDocument.relativePath := relative (cwd e) rootDir conventionFile;
               TreeDocument.parentRelativePath :=
                 option_map (relative (cwd e) rootDir) parentConventionFile;
               TreeDocument.metrics := Traversal.reportMetrics (Cli.format o) metrics;
               TreeDocument.evaluation := Evaluate.evaluateMetrics metrics |}
      | Threw p => Threw p
      | OutOfFuel => OutOfFuel
      end
  | Threw p => Threw p
  | OutOfFuel => OutOfFuel
  end.

(** [conventionFiles.map(...)]: the first exception ends it. *)
Fixpoint describeAll (e : env) (o : Cli.t) (rootDir : string)
    (conventionFileSet : gset string) (conventionFiles : list string)
  : outcome (list TreeDocument.t) :=
  match conventionFiles with
  | [] => Returned []
  | f :: rest =>
      match describe e o rootDir conventionFileSet f with
      | Returned d =>
          match describeAll e o rootDir conventionFileSet rest with
          | Returned ds => Returned (d :: ds)
          | Threw p => Threw p
          | OutOfFuel => OutOfFuel
          end
      | Threw p => Threw p
      | OutOfFuel => OutOfFuel
      end
  end.

(** The body of the [try] block. *)
Definition analyze (fuel : nat) (readdirSync : readdir) (e : env) (o : Cli.t)
    (filePath : string) : outcome result :=
  let isDir := isDirectoryPath e filePath in
  if String.eqb (Cli.scope o) "tree" then
    let rootDir := if isDir then filePath else dirname filePath in
    match discoverConventionFiles fuel readdirSync (cwd e) rootDir
            (Cli.matchFileName o) (Cli.maxAgents o) with
    | Returned found =>
        let conventionFileSet : gset string :=
          list_to_set (map (normalizeAbsolutePath e) (Discovery.files found)) in
        match describeAll e o rootDir conventionFileSet (Discovery.files found) with
        | Returned analyses =>
            Returned
              (TreeResult filePath
                 {| TreeScope.rootDir := rootDir;
                    TreeScope.matchFileName := Cli.matchFileName o;
                    TreeScope.maxAgents := Cli.maxAgents o;
                    TreeScope.truncated := Discovery.truncated found |}
                 analyses)
        | Threw p => Threw p
        | OutOfFuel => OutOfFuel
        end
    | Threw p => Threw p
    | OutOfFuel => OutOfFuel
    end
  else if Cli.includeLinks o then
    match Traversal.run e (Cli.linkOptions o) filePath with
    | Returned linkedAnalysis => Returned (LinkedResult (basename filePath) linkedAnalysis)
    | Threw p => Threw p
    | OutOfFuel => OutOfFuel
    end
  else
    match analyzeDocumentAt e filePath with
    | Returned metrics =>
        Returned (FileResult (basename filePath)
                    (Traversal.reportMetrics (Cli.format o) metrics)
                    (Evaluate.evaluateMetrics metrics))
    | Threw p => Threw p
    | OutOfFuel => OutOfFuel
    end.

(** [main()] *)
Definition main (fuel : nat) (readdirSync : readdir) (e : env) (args : list string)
  : ending :=
  match Cli.begin args with
  | Cli.Exit code => Exited code
  | Cli.Proceed o filePath =>
      match lookup e filePath with
      | None => Exited 1
      | Some _ =>
          match analyze fuel readdirSync e o filePath with
          | Returned r => Printed r
          | Threw _ => Exited 1
          | OutOfFuel => Unfinished
          end
      end
  end.

End Main.

Module MainExamples.
Import NodeFs.

(** The files of the tree that [TreeExamples.listing] lists. *)
Definition tree : env :=
  {| cwd := "/r";
     files := list_to_map
       [ ("/", Directory); ("/r", Directory); ("/r/a", Directory);
         ("/r/a/b", Directory); ("/r/a/locked", Directory);
         ("/r/AGENTS.md", File "# Root");
         ("/r/a/README.md", File "read me");
         ("/r/a/b/AGENTS.md", File "# Nested") ] |}.

End MainExamples.

Import JsString Regex JsNumber NodeFs Document Evaluate Traversal Invariant.

(** ** Strings and lists *)

Lemma unique_spec (l seen : list string) (x : string) :
  x ∈ unique seen l <-> x ∈ l /\ x ∉ seen.
Proof.
  revert seen. induction l as [|y l IH]; intros seen; simpl.
  - split; [intros H; inversion H | intros [H _]; inversion H].
  - destruct (existsb (String.eqb y) seen) eqn:Hy.
    + apply existsb_exists in Hy as (z & Hz & Hyz).
      apply String.eqb_eq in Hyz. subst z. apply list_elem_of_In in Hz.
      rewrite IH. rewrite elem_of_cons. split.
      * intros [H1 H2]. split; [now right | exact H2].
      * intros [[-> | H1] H2]; [contradiction | now split].
    + assert (Hn : y ∉ seen).
      { intros Hin. apply list_elem_of_In in Hin.
        assert (existsb (String.eqb y) seen = true) as Ht
          by (apply existsb_exists; exists y; split; [exact Hin | apply String.eqb_refl]).
        congruence. }
      rewrite !elem_of_cons, IH, elem_of_cons. split.
      * intros [-> | [H1 H2]]; [split; [now left | exact Hn] |].
        split; [now right | intros H; apply H2; now right].
      * intros [[-> | H1] H2]; [now left |].
        destruct (String.eqb_spec x y) as [-> | Hne]; [now left | right].
        split; [exact H1 | intros [? | ?]; [contradiction | contradiction]].
Qed.

(** ** The traversal invariant holds *)

Lemma grows_nil e o d V : grows e o d V [] V.
Proof.
  unfold grows. repeat split; [set_solver | simpl; lia | lia | constructor].
Qed.

Lemma grows_app e o d V l1 V1 l2 V2 :
  grows e o d V l1 V1 -> grows e o d V1 l2 V2 -> grows e o d V (l1 ++ l2) V2.
Proof.
  intros (Hs1 & Hz1 & Hb1 & Hf1) (Hs2 & Hz2 & Hb2 & Hf2).
  unfold grows. repeat split.
  - set_solver.
  - rewrite length_app. lia.
  - lia.
  - apply Forall_app. split.
    + eapply Forall_impl; [exact Hf1|]. simpl.
      intros f (? & ? & ? & ? & ?). repeat split; auto.
    + eapply Forall_impl; [exact Hf2|]. simpl.
      intros f (? & ? & ? & ? & Hn). repeat split; auto.
Qed.

Lemma grows_deeper e o d V l V' :
  (d < Options.maxDepth o)%nat -> grows e o (S d) V l V' -> grows e o d V l V'.
Proof.
  intros Hd (Hs & Hz & Hb & Hf). unfold grows. repeat split; auto.
  eapply Forall_impl; [exact Hf|]. simpl.
  intros f (? & ? & ? & ? & ?). repeat split; auto; lia.
Qed.

Lemma analyzed_withAverage r : Result.analyzed (withAverage r) = Result.analyzed r.
Proof. unfold withAverage. destruct (Result.analyzed r) eqn:E; [exact E | reflexivity]. Qed.

Lemma skipped_withAverage r : Result.skipped (withAverage r) = Result.skipped r.
Proof. unfold withAverage. destruct (Result.analyzed r); reflexivity. Qed.

Lemma analyzed_recordUnfollowed e V links r :
  Result.analyzed (recordUnfollowed e V links r) = Result.analyzed r.
Proof.
  revert r. induction links as [|p links IH]; intros r; simpl; [reflexivity|].
  destruct (bool_decide _); rewrite IH; reflexivity.
Qed.

Lemma followLinks_grows e o d recur :
  callGrows e o (S d) recur -> (d < Options.maxDepth o)%nat ->
  forall links r st r' st',
    followLinks recur o links r st = Returned (r', st') ->
    exists l, Result.analyzed r' = (Result.analyzed r ++ l)%list
              /\ grows e o d (TraversalState.visited st) l (TraversalState.visited st').
Proof.
  intros Hrec Hd links. induction links as [|p links IH]; intros r st r' st' H; simpl in H.
  - inversion H; subst. exists []. rewrite app_nil_r. split; [reflexivity | apply grows_nil].
  - destruct (Options.maxCount o <=? size (TraversalState.visited st))%nat.
    + apply IH in H as (l & Hl & Hg). exists l. split; [exact Hl | exact Hg].
    + destruct (recur p st) as [[lr st1] | |] eqn:Hcall; try discriminate.
      apply Hrec in Hcall. apply IH in H as (l & Hl & Hg).
      exists (Result.analyzed lr ++ l)%list. split.
      * rewrite Hl. simpl. rewrite app_assoc. reflexivity.
      * eapply grows_app; [apply grows_deeper; eassumption | exact Hg].
Qed.

Lemma readFileSync_Returned e p c :
  readFileSync e p = Returned c -> files e !! p = Some (File c).
Proof.
  unfold readFileSync. destruct (files e !! p) as [[c'| |]|]; intros H; inversion H; reflexivity.
Qed.

Lemma body_grows e o d recur filePath st r st' :
  (forall f, recur = Some f -> callGrows e o (S d) f) ->
  analyzeWithLinksBody recur e o filePath d st = Returned (r, st') ->
  grows e o d (TraversalState.visited st) (Result.analyzed r) (TraversalState.visited st').
Proof.
  intros Hrec. unfold analyzeWithLinksBody.
  set (np := NodePath.resolve (cwd e) [filePath]).
  destruct (bool_decide (np ∈ TraversalState.visited st)) eqn:Hv.
  { intros H; inversion H; subst. apply grows_nil. }
  destruct (bool_decide (np ∈ TraversalState.analyzing st)).
  { intros H; inversion H; subst. apply grows_nil. }
  destruct (Options.maxCount o <=? size (TraversalState.visited st))%nat eqn:Hc.
  { intros H; inversion H; subst. apply grows_nil. }
  destruct (existsSync e np); simpl.
  2:{ intros H; inversion H; subst. apply grows_nil. }
  destruct (readFileSync e np) as [content| |] eqn:Hread; try discriminate.
  unfold analyzeDocument. rewrite Hread.
  apply bool_decide_eq_false in Hv. apply Nat.leb_gt in Hc.
  apply readFileSync_Returned in Hread.
  set (fr := {| FileResult.file := _ |}).
  assert (Hfirst : grows e o d (TraversalState.visited st) [fr]
                     ({[np]} ∪ TraversalState.visited st)).
  { unfold grows. repeat split.
    - set_solver.
    - rewrite size_union by set_solver. rewrite size_singleton. simpl. lia.
    - rewrite size_union by set_solver. rewrite size_singleton. lia.
    - constructor; [|constructor]. simpl. repeat split; try lia.
      + exists content. exact Hread.
      + set_solver.
      + exact Hv. }
  destruct (d <? Options.maxDepth o)%nat eqn:Hd.
  - apply Nat.ltb_lt in Hd. destruct recur as [f|]; [|discriminate].
    destruct (followLinks f o _ _ _) as [[r2 st2]| |] eqn:Hf; try discriminate.
    intros H; inversion H; subst; clear H. simpl.
    rewrite analyzed_withAverage.
    eapply followLinks_grows in Hf as (l & Hl & Hg); [| apply Hrec; reflexivity | exact Hd].
    rewrite Hl. simpl. change (fr :: l) with ([fr] ++ l)%list.
    eapply grows_app; [exact Hfirst | exact Hg].
  - destruct (d =? Options.maxDepth o)%nat;
      intros H; inversion H; subst; clear H; simpl;
      rewrite ?analyzed_withAverage, ?analyzed_recordUnfollowed; exact Hfirst.
Qed.

Lemma fuel_grows fuel e o :
  forall filePath d st r st',
    analyzeWithLinksFuel fuel e o filePath d st = Returned (r, st') ->
    grows e o d (TraversalState.visited st) (Result.analyzed r) (TraversalState.visited st').
Proof.
  induction fuel as [|fuel IH]; intros filePath d st r st' H; simpl in H.
  - eapply body_grows; [|exact H]. intros f Hf. discriminate.
  - eapply body_grows; [|exact H]. intros f Hf. inversion Hf; subst.
    intros p s r1 s1 H1. eapply IH. exact H1.
Qed.

Lemma analyzeWithLinks_grows e o filePath d st r st' :
  analyzeWithLinks e o filePath d st = Returned (r, st') ->
  grows e o d (TraversalState.visited st) (Result.analyzed r) (TraversalState.visited st').
Proof. apply fuel_grows. Qed.

(** ** The recursion bound is never reached *)

Lemma body_recur_irrelevant r1 r2 e o filePath d st :
  (d <? Options.maxDepth o)%nat = false ->
  analyzeWithLinksBody r1 e o filePath d st = analyzeWithLinksBody r2 e o filePath d st.
Proof. intros Hd. unfold analyzeWithLinksBody. rewrite Hd. reflexivity. Qed.

(** [analyzeWithLinks] satisfies the equation the source is written as:
    its body, with itself called one level deeper. *)
Lemma analyzeWithLinks_unfold e o filePath d st :
  analyzeWithLinks e o filePath d st
  = analyzeWithLinksBody (Some (fun p s => analyzeWithLinks e o p (S d) s))
      e o filePath d st.
Proof.
  unfold analyzeWithLinks.
  destruct (Options.maxDepth o - d)%nat as [|n] eqn:Hn; simpl.
  - apply body_recur_irrelevant. apply Nat.ltb_ge. lia.
  - replace (Options.maxDepth o - S d)%nat with n by lia. reflexivity.
Qed.

Lemma followLinks_fuelled recur o links r st :
  (forall p s, recur p s <> OutOfFuel) -> followLinks recur o links r st <> OutOfFuel.
Proof.
  intros Hrec. revert r st. induction links as [|p links IH]; intros r st; simpl.
  - discriminate.
  - destruct (Options.maxCount o <=? size (TraversalState.visited st))%nat; [apply IH|].
    destruct (recur p st) as [[lr st1]| |] eqn:Hcall;
      [apply IH | discriminate | exfalso; eapply Hrec; exact Hcall].
Qed.

Lemma analyzeWithLinksFuel_fuelled fuel e o :
  forall filePath d st,
    (Options.maxDepth o - d <= fuel)%nat ->
    analyzeWithLinksFuel fuel e o filePath d st <> OutOfFuel.
Proof.
  induction fuel as [|fuel IH]; intros filePath d st Hfuel; simpl;
    unfold analyzeWithLinksBody.
  all: destruct (bool_decide _); [discriminate|].
  all: destruct (bool_decide _); [discriminate|].
  all: destruct (_ <=? _)%nat; [discriminate|].
  all: destruct (existsSync _ _); simpl; [|discriminate].
  all: unfold analyzeDocument, readFileSync.
  all: destruct (files e !! _) as [[c| |]|]; try discriminate.
  all: destruct (d <? Options.maxDepth o)%nat eqn:Hd.
  all: try (destruct (d =? Options.maxDepth o)%nat; discriminate).
  - apply Nat.ltb_lt in Hd. lia.
  - match goal with
    | |- context [followLinks ?f ?o ?l ?r ?s] =>
        pose proof (followLinks_fuelled f o l r s) as Hf;
        destruct (followLinks f o l r s) as [[r2 s2]| |]
    end; try discriminate.
    exfalso. apply Hf; [|reflexivity].
    intros p s. apply IH. apply Nat.ltb_lt in Hd. lia.
Qed.

(** A call of [analyzeWithLinks] returns or throws. *)
Lemma analyzeWithLinks_fuelled e o filePath d st :
  analyzeWithLinks e o filePath d st <> OutOfFuel.
Proof. apply analyzeWithLinksFuel_fuelled. lia. Qed.

Lemma run_Returned e o filePath r :
  run e o filePath = Returned r ->
  exists st', analyzeWithLinks e o filePath 0 TraversalState.fresh = Returned (r, st').
Proof.
  unfold run. destruct (analyzeWithLinks _ _ _ _ _) as [[r' st']| |]; try discriminate.
  intros H; inversion H; subst. exists st'. reflexivity.
Qed.

(** ** What the loop over the links keeps *)

Lemma followLinks_extends recur o links :
  forall acc st r st',
    followLinks recur o links acc st = Returned (r, st') ->
    (exists l, Result.analyzed r = (Result.analyzed acc ++ l)%list)
    /\ (exists l, Skipped.maxDepth (Result.skipped r)
                  = (Skipped.maxDepth (Result.skipped acc) ++ l)%list)
    /\ (exists l, Skipped.maxCount (Result.skipped r)
                  = (Skipped.maxCount (Result.skipped acc) ++ l)%list).
Proof.
  induction links as [|p links IH]; intros acc st r st' H; simpl in H.
  - inversion H; subst. repeat split; exists []; rewrite app_nil_r; reflexivity.
  - destruct (Options.maxCount o <=? size (TraversalState.visited st))%nat.
    + apply IH in H as ((l1 & H1) & (l2 & H2) & (l3 & H3)). simpl in *.
      repeat split; eexists; [exact H1 | exact H2 |].
      rewrite H3, <- app_assoc. reflexivity.
    + destruct (recur p st) as [[lr st1]| |]; try discriminate.
      apply IH in H as ((l1 & H1) & (l2 & H2) & (l3 & H3)). simpl in *.
      repeat split; eexists.
      * rewrite H1, <- app_assoc. reflexivity.
      * rewrite H2, <- app_assoc. reflexivity.
      * rewrite H3, <- app_assoc. reflexivity.
Qed.

Lemma maxDepth_recordUnfollowed e V links r :
  Skipped.maxDepth (Result.skipped (recordUnfollowed e V links r))
  = (Skipped.maxDepth (Result.skipped r)
     ++ List.filter (fun l => negb (bool_decide (NodePath.resolve (cwd e) [l] ∈ V))) links)%list.
Proof.
  revert r. induction links as [|p links IH]; intros r; simpl.
  - rewrite app_nil_r. reflexivity.
  - destruct (bool_decide _); simpl; rewrite IH; [reflexivity|].
    simpl. rewrite <- app_assoc. reflexivity.
Qed.


(** ** C1: containment in a root directory *)





(** ** C2: the count bound *)

(** C2: a run appends at most [maxCount] entries to [analyzed]; a link
    that arrives when the visited set has reached [maxCount] is pushed on
    [skipped.maxCount] and the loop goes on without analyzing it, and so
    is the candidate of a call that starts with the visited set full. *)
Theorem C2_count_bound e o :
  (forall filePath r,
     run e o filePath = Returned r ->
     (length (Result.analyzed r) <= Options.maxCount o)%nat)
  /\ (forall recur links linkedPath acc st,
        (Options.maxCount o <= size (TraversalState.visited st))%nat ->
        followLinks recur o (linkedPath :: links) acc st
        = followLinks recur o links (pushMaxCount acc linkedPath) st)
  /\ (forall filePath d st,
        (Options.maxCount o <= size (TraversalState.visited st))%nat ->
        NodePath.resolve (cwd e) [filePath] ∉ TraversalState.visited st ->
        NodePath.resolve (cwd e) [filePath] ∉ TraversalState.analyzing st ->
        analyzeWithLinks e o filePath d st
        = Returned (pushMaxCount emptyResult (NodePath.resolve (cwd e) [filePath]), st)).
Proof.
  split; [|split].
  - intros filePath r H. apply run_Returned in H as (st' & H).
    apply analyzeWithLinks_grows in H as (_ & Hz & Hb & _).
    change (TraversalState.visited TraversalState.fresh) with (∅ : gset string) in Hz, Hb.
    rewrite size_empty in Hz, Hb. lia.
  - intros recur links linkedPath acc st Hc. simpl.
    apply Nat.leb_le in Hc. rewrite Hc. reflexivity.
  - intros filePath d st Hc Hv Ha. rewrite analyzeWithLinks_unfold.
    unfold analyzeWithLinksBody.
    rewrite (bool_decide_eq_false_2 _ Hv), (bool_decide_eq_false_2 _ Ha).
    apply Nat.leb_le in Hc. rewrite Hc. reflexivity.
Qed.

Lemma C2_witness :
  match run Examples.diamond
          {| Options.maxDepth := 2; Options.maxCount := 2; Options.format := "full" |}
          "a.md" with
  | Returned r => (length (Result.analyzed r) <= 2)%nat
                  /\ Skipped.maxCount (Result.skipped r) = ["/r/y.md"; "/r/a.md"; "/r/y.md"]
  | _ => False
  end.
Proof.
  destruct (run _ _ _) as [r| |] eqn:H.
  - split.
    + exact (proj1 (C2_count_bound _ _) _ _ H).
    + vm_compute in H. inversion H. reflexivity.
  - vm_compute in H. discriminate H.
  - vm_compute in H. discriminate H.
Defined.

(** ** C3: the depth bound *)

(** C3: no entry of a run has a depth above [maxDepth]; the entries of
    any call lie between its own depth and [maxDepth]; a call at
    [maxDepth] or deeper follows no link (it analyzes at most its own
    document); and a call at exactly [maxDepth] that analyzes its
    document pushes on [skipped.maxDepth] those of its links that are not
    visited. *)
Theorem C3_depth_bound e o :
  (forall filePath r,
     run e o filePath = Returned r ->
     Forall (fun f => (FileResult.depth f <= Options.maxDepth o)%nat) (Result.analyzed r))
  /\ (forall filePath d st r st',
        analyzeWithLinks e o filePath d st = Returned (r, st') ->
        Forall (fun f => (d <= FileResult.depth f)%nat
                         /\ (FileResult.depth f <= Nat.max d (Options.maxDepth o))%nat)
               (Result.analyzed r))
  /\ (forall filePath d st r st',
        (Options.maxDepth o <= d)%nat ->
        analyzeWithLinks e o filePath d st = Returned (r, st') ->
        (length (Result.analyzed r) <= 1)%nat
        /\ TraversalState.visited st'
           ⊆ {[NodePath.resolve (cwd e) [filePath]]} ∪ TraversalState.visited st)
  /\ (forall filePath st content,
        let np := NodePath.resolve (cwd e) [filePath] in
        np ∉ TraversalState.visited st ->
        np ∉ TraversalState.analyzing st ->
        (size (TraversalState.visited st) < Options.maxCount o)%nat ->
        files e !! np = Some (File content) ->
        exists r st',
          analyzeWithLinks e o filePath (Options.maxDepth o) st = Returned (r, st')
          /\ map FileResult.fullPath (Result.analyzed r) = [np]
          /\ TraversalState.visited st' = {[np]} ∪ TraversalState.visited st
          /\ Skipped.maxDepth (Result.skipped r)
             = List.filter
                 (fun l => negb (bool_decide
                                   (NodePath.resolve (cwd e) [l]
                                    ∈ {[np]} ∪ TraversalState.visited st)))
                 (extractInternalLinks e np content)).
Proof.
  split; [|split; [|split]].
  - intros filePath r H. apply run_Returned in H as (st' & H).
    apply analyzeWithLinks_grows in H as (_ & _ & _ & Hf).
    eapply Forall_impl; [exact Hf|]. simpl. intros f (_ & Hd & _). lia.
  - intros filePath d st r st' H.
    apply analyzeWithLinks_grows in H as (_ & _ & _ & Hf).
    eapply Forall_impl; [exact Hf|]. simpl. intros f (? & ? & _). auto.
  - intros filePath d st r st' Hd. rewrite analyzeWithLinks_unfold.
    unfold analyzeWithLinksBody.
    assert (Hlt : (d <? Options.maxDepth o)%nat = false) by (apply Nat.ltb_ge; lia).
    rewrite Hlt.
    destruct (bool_decide _); [intros H; inversion H; subst; simpl; split; [lia|set_solver]|].
    destruct (bool_decide _); [intros H; inversion H; subst; simpl; split; [lia|set_solver]|].
    destruct (_ <=? _)%nat; [intros H; inversion H; subst; simpl; split; [lia|set_solver]|].
    destruct (existsSync _ _); simpl;
      [|intros H; inversion H; subst; simpl; split; [lia|set_solver]].
    destruct (readFileSync _ _); try discriminate.
    destruct (analyzeDocument _ _); try discriminate.
    destruct (d =? Options.maxDepth o)%nat; intros H; inversion H; subst; clear H;
      rewrite ?analyzed_withAverage, ?analyzed_recordUnfollowed; simpl;
      (split; [lia | set_solver]).
  - intros filePath st content np Hv Ha Hc Hfile.
    rewrite analyzeWithLinks_unfold. unfold analyzeWithLinksBody. fold np.
    rewrite (bool_decide_eq_false_2 _ Hv), (bool_decide_eq_false_2 _ Ha).
    apply Nat.leb_gt in Hc. rewrite Hc.
    unfold existsSync, analyzeDocument, readFileSync. rewrite Hfile. simpl.
    rewrite Nat.ltb_irrefl, Nat.eqb_refl.
    eexists. eexists. split; [reflexivity|].
    rewrite analyzed_withAverage, analyzed_recordUnfollowed, skipped_withAverage.
    rewrite maxDepth_recordUnfollowed. simpl. repeat split; reflexivity.
Qed.

Lemma C3_witness :
  match run Examples.diamond Examples.defaults "a.md" with
  | Returned r =>
      Forall (fun f => (FileResult.depth f <= 1)%nat) (Result.analyzed r)
      /\ map FileResult.depth (Result.analyzed r) = [0%nat; 1%nat; 1%nat]
  | _ => False
  end.
Proof.
  destruct (run _ _ _) as [r| |] eqn:H.
  - split.
    + exact (proj1 (C3_depth_bound _ _) _ _ H).
    + vm_compute in H. inversion H. reflexivity.
  - vm_compute in H. discriminate H.
  - vm_compute in H. discriminate H.
Defined.

(** ** C10 and C4: how references are counted and scored *)

Lemma countHeader_links t index trimmed :
  internalLinks (countHeader t index trimmed) = internalLinks t
  /\ externalLinks (countHeader t index trimmed) = externalLinks t
  /\ totalLinks (countHeader t index trimmed) = totalLinks t.
Proof.
  unfold countHeader. destruct (headerMatch trimmed) as [[d title]|]; simpl; auto.
Qed.

Lemma fold_countLink ms :
  forall t,
    totalLinks (fold_left countLink ms t) = totalLinks t + Z.of_nat (length ms)
    /\ externalLinks (fold_left countLink ms t)
       = externalLinks t + Z.of_nat (length (List.filter (fun m => isHttp (snd m)) ms))
    /\ internalLinks (fold_left countLink ms t)
       = internalLinks t
         + Z.of_nat (length (List.filter (fun m => negb (isHttp (snd m))) ms)).
Proof.
  induction ms as [|m ms IH]; intros t; simpl.
  - lia.
  - destruct (IH (countLink t m)) as (H1 & H2 & H3). rewrite H1, H2, H3.
    unfold countLink; simpl.
    destruct (isHttp (snd m)); simpl length; lia.
Qed.

Lemma forEachLine_links lines :
  forall t index,
    totalLinks (forEachLine t index lines)
    = totalLinks t + Z.of_nat (length (matchesByLine lines))
    /\ externalLinks (forEachLine t index lines)
       = externalLinks t
         + Z.of_nat (length (List.filter (fun m => isHttp (snd m)) (matchesByLine lines)))
    /\ internalLinks (forEachLine t index lines)
       = internalLinks t
         + Z.of_nat (length (List.filter (fun m => negb (isHttp (snd m)))
                                         (matchesByLine lines))).
Proof.
  induction lines as [|line lines IH]; intros t index; simpl.
  - lia.
  - destruct (IH (visitLine t index line) (S index)) as (H1 & H2 & H3).
    rewrite H1, H2, H3. unfold visitLine.
    destruct (fold_countLink (linkMatches (trim line)) (countHeader t index (trim line)))
      as (F1 & F2 & F3).
    destruct (countHeader_links t index (trim line)) as (C1 & C2 & C3).
    rewrite F1, F2, F3, C1, C2, C3.
    unfold matchesByLine. simpl. rewrite !List.filter_app, !length_app. lia.
Qed.

Lemma length_partition {A} (p : A -> bool) (l : list A) :
  length l = (length (List.filter p l)
              + length (List.filter (fun x => negb (p x)) l))%nat.
Proof.
  induction l as [|x l IH]; [reflexivity|].
  cbn [List.filter length]. destruct (p x); cbn [negb length]; lia.
Qed.

Lemma metricsOf_link_counts content :
  let m := metricsOf content in
  let found := matchesByLine (split newline content) in
  Metrics.totalLinks m = Z.of_nat (length found)
  /\ Metrics.externalLinks m
     = Z.of_nat (length (List.filter (fun x => isHttp (snd x)) found))
  /\ Metrics.internalLinks m
     = Z.of_nat (length (List.filter (fun x => negb (isHttp (snd x))) found)).
Proof.
  simpl.
  destruct (forEachLine_links (split newline content) emptyTally 0) as (H1 & H2 & H3).
  simpl in H1, H2, H3. rewrite H1, H2, H3. repeat split; reflexivity.
Qed.

(** C10: for every document [analyzeDocument] reads,
    [totalLinks = internalLinks + externalLinks]: [totalLinks] is the
    number of matches of the link pattern over the trimmed lines, each
    counted once, [externalLinks] the number of those whose target starts
    with [http://] or [https://], and [internalLinks] the number of all
    the others. *)
Theorem C10_link_counts e filePath m :
  analyzeDocument e filePath = Returned m ->
  exists content,
    readFileSync e filePath = Returned content
    /\ let found := matchesByLine (split newline content) in
       Metrics.totalLinks m = Metrics.internalLinks m + Metrics.externalLinks m
       /\ Metrics.totalLinks m = Z.of_nat (length found)
       /\ Metrics.externalLinks m
          = Z.of_nat (length (List.filter (fun x => isHttp (snd x)) found))
       /\ Metrics.internalLinks m
          = Z.of_nat (length (List.filter (fun x => negb (isHttp (snd x))) found)).
Proof.
  unfold analyzeDocument.
  destruct (readFileSync e filePath) as [content| |]; try discriminate.
  intros H; inversion H; subst m; clear H. exists content. split; [reflexivity|].
  destruct (metricsOf_link_counts content) as (H1 & H2 & H3).
  cbv zeta. rewrite H1, H2, H3. repeat split; try reflexivity.
  rewrite (length_partition (fun x => isHttp (snd x))
             (matchesByLine (split newline content))) at 1.
  lia.
Qed.

Lemma C10_witness :
  match analyzeDocument Examples.escaping "/r/a.md" with
  | Returned m =>
      Metrics.totalLinks m = Metrics.internalLinks m + Metrics.externalLinks m
      /\ Metrics.totalLinks m = 4
  | _ => False
  end.
Proof.
  destruct (analyzeDocument _ _) as [m| |] eqn:H.
  - split.
    + destruct (C10_link_counts _ _ _ H) as (content & _ & Hsum & _). exact Hsum.
    + vm_compute in H. inversion H. reflexivity.
  - vm_compute in H. discriminate H.
  - vm_compute in H. discriminate H.
Defined.

Lemma progressiveDisclosure_evaluateMetrics m :
  Scores.progressiveDisclosure (Evaluation.scores (evaluateMetrics m))
  = fst (progressiveDisclosureScore m).
Proof.
  unfold evaluateMetrics.
  destruct (lineCountScore m), (structureScore m), (progressiveDisclosureScore m).
  reflexivity.
Qed.

Lemma anchor_is_not_http url : Spec.isAnchorOnly url = true -> isHttp url = false.
Proof.
  unfold Spec.isAnchorOnly, isHttp.
  destruct url as [|c rest]; simpl; [discriminate|].
  destruct (Ascii.eqb_spec c "#") as [->|Hne]; [reflexivity | discriminate].
Qed.

(** C4, as stated, fails: the metrics have no count of anchor-only
    references and the score has no deduction.  A one-line document whose
    only reference is [#top] scores 10 where the claim has 10 - 2. *)
Lemma C4_counterexample :
  let content := "[top](#top)" in
  let m := metricsOf content in
  linkMatches content = [("top", "#top")]
  /\ Spec.isAnchorOnly "#top" = true
  /\ Scores.progressiveDisclosure (Evaluation.scores (evaluateMetrics m)) = 10
  /\ Spec.anchorPenalty (Spec.tierScore (Metrics.totalLines m) 0 false) = 8.
Proof. vm_compute. repeat split; reflexivity. Qed.

(** C4, amended: the progressive-disclosure sub-score is the tier score,
    with no deduction for anchor-only references; the script counts an
    anchor-only reference as an internal link, so it enters the tier
    score as a local reference. *)
Theorem C4_tier_score_without_anchor_penalty :
  (forall m,
     Scores.progressiveDisclosure (Evaluation.scores (evaluateMetrics m))
     = Spec.tierScore (Metrics.totalLines m) (Metrics.internalLinks m) (linksWellUsed m))
  /\ (forall t label url,
        Spec.isAnchorOnly url = true ->
        internalLinks (countLink t (label, url)) = internalLinks t + 1
        /\ externalLinks (countLink t (label, url)) = externalLinks t
        /\ totalLinks (countLink t (label, url)) = totalLinks t + 1).
Proof.
  split.
  - intros m. rewrite progressiveDisclosure_evaluateMetrics.
    unfold progressiveDisclosureScore, Spec.tierScore.
    destruct (Metrics.totalLines m <=? 200); [reflexivity|].
    destruct (linksWellUsed m);
      destruct (Metrics.totalLines m <=? 500), (0 <? Metrics.internalLinks m);
      reflexivity.
  - intros t label url Ha. unfold countLink. simpl.
    rewrite (anchor_is_not_http url Ha). auto.
Qed.

(** ** C5: the 600-line scenario *)

(** C5, as stated, fails in its second half: with 1 local reference
    among 6 the sub-score of a 600-line document is 6, not 3. *)
Lemma C5_counterexample :
  Scores.progressiveDisclosure
    (Evaluation.scores (evaluateMetrics (Examples.sixHundred 1))) = 6
  /\ Scores.progressiveDisclosure
       (Evaluation.scores (evaluateMetrics (Examples.sixHundred 1))) <> 3.
Proof. split; [vm_compute; reflexivity | vm_compute; discriminate]. Qed.

(** C5, amended: for a 600-line document with 6 references the sub-score
    is 10 when 5 of them are local and 6 when only 1 is; it is 3 exactly
    when none of the 6 references is local. *)
Theorem C5_six_hundred_lines m :
  Metrics.totalLines m = 600 ->
  Metrics.totalLinks m = 6 ->
  0 <= Metrics.internalLinks m <= 6 ->
  (Metrics.internalLinks m = 5 ->
   Scores.progressiveDisclosure (Evaluation.scores (evaluateMetrics m)) = 10)
  /\ (Metrics.internalLinks m = 1 ->
      Scores.progressiveDisclosure (Evaluation.scores (evaluateMetrics m)) = 6)
  /\ (Scores.progressiveDisclosure (Evaluation.scores (evaluateMetrics m)) = 3
      <-> Metrics.internalLinks m = 0).
Proof.
  intros Hl Ht Hi. rewrite progressiveDisclosure_evaluateMetrics.
  unfold progressiveDisclosureScore, linksWellUsed, linkRatio.
  rewrite Hl, Ht.
  assert (Hcases : Metrics.internalLinks m = 0 \/ Metrics.internalLinks m = 1
                   \/ Metrics.internalLinks m = 2 \/ Metrics.internalLinks m = 3
                   \/ Metrics.internalLinks m = 4 \/ Metrics.internalLinks m = 5
                   \/ Metrics.internalLinks m = 6) by lia.
  destruct Hcases as [E|[E|[E|[E|[E|[E|E]]]]]]; rewrite E; vm_compute;
    repeat split; intros; congruence.
Qed.

Lemma C5_witness :
  Scores.progressiveDisclosure
    (Evaluation.scores (evaluateMetrics (Examples.sixHundred 5))) = 10
  /\ Scores.progressiveDisclosure
       (Evaluation.scores (evaluateMetrics (Examples.sixHundred 1))) = 6
  /\ Scores.progressiveDisclosure
       (Evaluation.scores (evaluateMetrics (Examples.sixHundred 0))) = 3.
Proof.
  assert (H5 : 0 <= Metrics.internalLinks (Examples.sixHundred 5) <= 6) by (simpl; lia).
  assert (H1 : 0 <= Metrics.internalLinks (Examples.sixHundred 1) <= 6) by (simpl; lia).
  assert (H0 : 0 <= Metrics.internalLinks (Examples.sixHundred 0) <= 6) by (simpl; lia).
  split; [|split].
  - exact (proj1 (C5_six_hundred_lines (Examples.sixHundred 5) eq_refl eq_refl H5) eq_refl).
  - exact (proj1 (proj2 (C5_six_hundred_lines (Examples.sixHundred 1) eq_refl eq_refl H1))
             eq_refl).
  - exact (proj2 (proj2 (proj2 (C5_six_hundred_lines (Examples.sixHundred 0)
                                  eq_refl eq_refl H0))) eq_refl).
Defined.

(** ** C6: candidates that are already visited *)

(** C6, as stated, fails: a visited candidate is reported.  [a.md] links
    to [x.md] and [y.md], [x.md] to [y.md] and back to [a.md]; with depth
    2 the result lists [a.md] and [y.md] under [skipped.circular]. *)
Lemma C6_counterexample :
  exists r,
    run Examples.diamond
        {| Options.maxDepth := 2; Options.maxCount := 10; Options.format := "summary" |}
        "a.md" = Returned r
    /\ map FileResult.fullPath (Result.analyzed r) = ["/r/a.md"; "/r/x.md"; "/r/y.md"]
    /\ Skipped.circular (Result.skipped r) = ["/r/a.md"; "/r/y.md"].
Proof. eexists. split; [vm_compute; reflexivity|]. split; reflexivity. Qed.

(** C6, amended: a candidate whose resolved path is already in [visited]
    is not analyzed and leaves the state as it is, but it is reported: the
    call returns a result whose only entry is that path, under
    [skipped.circular] (the skip categories of the script are [circular],
    [maxDepth] and [maxCount]). *)
Theorem C6_visited_is_reported_circular e o filePath d st :
  NodePath.resolve (cwd e) [filePath] ∈ TraversalState.visited st ->
  analyzeWithLinks e o filePath d st
  = Returned (pushCircular emptyResult (NodePath.resolve (cwd e) [filePath]), st).
Proof.
  intros Hv. rewrite analyzeWithLinks_unfold. unfold analyzeWithLinksBody.
  rewrite (bool_decide_eq_true_2 _ Hv). reflexivity.
Qed.

Lemma C6_witness :
  analyzeWithLinks Examples.diamond Examples.defaults "a.md" 1
    {| TraversalState.visited := {["/r/a.md"]}; TraversalState.analyzing := ∅ |}
  = Returned
      (pushCircular emptyResult "/r/a.md",
       {| TraversalState.visited := {["/r/a.md"]}; TraversalState.analyzing := ∅ |}).
Proof.
  apply (C6_visited_is_reported_circular Examples.diamond Examples.defaults "a.md" 1).
  apply (bool_decide_unpack _). vm_compute. exact I.
Defined.

(** ** C7: which references become candidates *)

Lemma linkTarget_spec e filePath url p :
  p ∈ linkTarget e filePath url
  <-> isHttp url = false
      /\ beforeFirst "#" url <> ""
      /\ p = NodePath.resolve (cwd e) [NodePath.dirname filePath; beforeFirst "#" url].
Proof.
  unfold linkTarget, isHttp.
  destruct (startsWith url "http://"), (startsWith url "https://"); simpl.
  1-3: split; [intros H; inversion H | intros (H & _); discriminate H].
  destruct (String.eqb_spec (beforeFirst "#" url) "") as [He|He]; simpl.
  - split; [intros H; inversion H | intros (_ & H & _); contradiction].
  - rewrite list_elem_of_singleton. split; [intros ->; auto | intros (_ & _ & ->); reflexivity].
Qed.

(** C7, as stated, fails for every scheme but [http] and [https]: the
    target [mailto:a@b.c] has a URI scheme, yet it is resolved against the
    directory of the document and looked up on disk. *)
Lemma C7_counterexample :
  Spec.hasScheme "mailto:a@b.c" = true
  /\ extractInternalLinks Examples.escaping "/r/a.md" "[m](mailto:a@b.c)"
     = ["/r/mailto:a@b.c"]
  /\ exists r,
       run Examples.escaping Examples.defaults "/r/a.md" = Returned r
       /\ Result.notFound r = ["/r/mailto:a@b.c"].
Proof.
  split; [reflexivity|]. split; [vm_compute; reflexivity|].
  eexists. split; [vm_compute; reflexivity | reflexivity].
Qed.

(** C7, amended: a reference is excluded from the traversal when its raw
    target starts with [http://] or [https://] (or is empty before its
    first [#]); every other reference, one with another URI scheme
    included, becomes a candidate: the target up to its first [#],
    resolved against the directory of the document. *)
Theorem C7_only_http_is_excluded e filePath content p :
  p ∈ extractInternalLinks e filePath content
  <-> exists label url,
        (label, url) ∈ linkMatches content
        /\ isHttp url = false
        /\ beforeFirst "#" url <> ""
        /\ p = NodePath.resolve (cwd e) [NodePath.dirname filePath; beforeFirst "#" url].
Proof.
  unfold extractInternalLinks. rewrite unique_spec.
  rewrite list_elem_of_In, in_flat_map. split.
  - intros [([label url] & Hin & Hp) _]. exists label, url.
    apply list_elem_of_In in Hin, Hp. apply linkTarget_spec in Hp. simpl in Hp. tauto.
  - intros (label & url & Hin & H). split; [|apply not_elem_of_nil].
    exists (label, url). split; [apply list_elem_of_In; exact Hin|].
    apply list_elem_of_In. apply linkTarget_spec. exact H.
Qed.

(** ** C8: skip lists after the traversal *)

(** What the loop over the links returns holds the skip lists of every
    linked call it made and every link it passed over. *)
Lemma followLinks_keeps recur o links :
  forall acc st r st',
    followLinks recur o links acc st = Returned (r, st') ->
    (forall lp s, (lp, s) ∈ Trace.linkedCalls recur o links st ->
       exists lr s',
         recur lp s = Returned (lr, s')
         /\ (forall q, q ∈ Skipped.maxDepth (Result.skipped lr) ->
                       q ∈ Skipped.maxDepth (Result.skipped r))
         /\ (forall q, q ∈ Skipped.maxCount (Result.skipped lr) ->
                       q ∈ Skipped.maxCount (Result.skipped r)))
    /\ (forall q, q ∈ Trace.passedOver recur o links st ->
                  q ∈ Skipped.maxCount (Result.skipped r)).
Proof.
  induction links as [|p links IH]; intros acc st r st' H; simpl in H |- *.
  - split; [intros lp s Hin | intros q Hin]; inversion Hin.
  - destruct (Options.maxCount o <=? size (TraversalState.visited st))%nat.
    + pose proof (followLinks_extends _ _ _ _ _ _ _ H) as (_ & _ & (l3 & H3)).
      apply IH in H as (Hcalls & Hover). split; [exact Hcalls|].
      intros q Hq. apply elem_of_cons in Hq as [->|Hq]; [|apply Hover, Hq].
      rewrite H3. simpl. apply elem_of_app. left. apply elem_of_app. right. left.
    + destruct (recur p st) as [[lr st1]| |] eqn:Hcall; try discriminate.
      pose proof (followLinks_extends _ _ _ _ _ _ _ H) as (_ & (l2 & H2) & (l3 & H3)).
      apply IH in H as (Hcalls & Hover). split; [|exact Hover].
      intros lp s Hin. apply elem_of_cons in Hin as [Heq|Hin]; [|apply Hcalls, Hin].
      injection Heq as -> ->. exists lr, st1. split; [exact Hcall|].
      split; intros q Hq.
      * rewrite H2. simpl. apply elem_of_app. left. apply elem_of_app. right. exact Hq.
      * rewrite H3. simpl. apply elem_of_app. left. apply elem_of_app. right. exact Hq.
Qed.

(** One level: what a call returns holds what the call records itself
    and the skip lists of the linked calls it makes, which all return. *)
Lemma perform_keeps e o c r st' :
  Trace.perform e o c = Returned (r, st') ->
  (forall q, Trace.defersByDepth e o c q -> q ∈ Skipped.maxDepth (Result.skipped r))
  /\ (forall q, Trace.defersByCount e o c q -> q ∈ Skipped.maxCount (Result.skipped r))
  /\ (forall c', Trace.makes e o c c' ->
        exists r1 s1,
          Trace.perform e o c' = Returned (r1, s1)
          /\ (forall q, q ∈ Skipped.maxDepth (Result.skipped r1) ->
                        q ∈ Skipped.maxDepth (Result.skipped r))
          /\ (forall q, q ∈ Skipped.maxCount (Result.skipped r1) ->
                        q ∈ Skipped.maxCount (Result.skipped r))).
Proof.
  destruct c as [[filePath d] st]. unfold Trace.perform.
  rewrite analyzeWithLinks_unfold. unfold analyzeWithLinksBody.
  set (np := NodePath.resolve (cwd e) [filePath]).
  intros H.
  assert (Hadm : forall content, Trace.admitted e o (filePath, d, st) content ->
            bool_decide (np ∈ TraversalState.visited st) = false
            /\ bool_decide (np ∈ TraversalState.analyzing st) = false
            /\ (Options.maxCount o <=? size (TraversalState.visited st))%nat = false
            /\ files e !! np = Some (File content)).
  { intros content (Hv & Ha & Hc & Hf). fold np in Hv, Ha, Hf.
    repeat split; [apply bool_decide_eq_false_2, Hv | apply bool_decide_eq_false_2, Ha
                  | apply Nat.leb_gt, Hc | exact Hf]. }
  split; [|split].
  - intros q (content & Had & Hd & Hq & Hnv). simpl in Hd.
    destruct (Hadm content Had) as (E1 & E2 & E3 & E4).
    rewrite E1, E2, E3 in H. unfold existsSync, analyzeDocument, readFileSync in H.
    rewrite E4 in H. simpl in H.
    rewrite Hd, Nat.ltb_irrefl, Nat.eqb_refl in H.
    injection H as <- _. rewrite skipped_withAverage, maxDepth_recordUnfollowed.
    apply elem_of_app. right. apply list_elem_of_In, List.filter_In.
    split; [apply list_elem_of_In; exact Hq|].
    apply negb_true_iff, bool_decide_eq_false_2. exact Hnv.
  - intros q [Hown|(content & Had & Hd & Hq)].
    + destruct Hown as (Hv & Ha & Hc & ->). fold np in Hv, Ha |- *.
      rewrite (bool_decide_eq_false_2 _ Hv), (bool_decide_eq_false_2 _ Ha) in H.
      apply Nat.leb_le in Hc. rewrite Hc in H. injection H as <- _. simpl. left.
    + simpl in Hd. destruct (Hadm content Had) as (E1 & E2 & E3 & E4).
      rewrite E1, E2, E3 in H. unfold existsSync, analyzeDocument, readFileSync in H.
      rewrite E4 in H. simpl in H.
      apply Nat.ltb_lt in Hd. rewrite Hd in H.
      destruct (followLinks _ _ _ _ _) as [[r2 st2]| |] eqn:Hfl; try discriminate H.
      injection H as <- _. rewrite skipped_withAverage.
      apply followLinks_keeps in Hfl as (_ & Hover). apply Hover. exact Hq.
  - intros [[lp d'] s] (content & Had & Hd & Hd' & Hin). simpl in Hd, Hd', Hin.
    destruct (Hadm content Had) as (E1 & E2 & E3 & E4).
    rewrite E1, E2, E3 in H. unfold existsSync, analyzeDocument, readFileSync in H.
    rewrite E4 in H. simpl in H.
    apply Nat.ltb_lt in Hd. rewrite Hd in H.
    destruct (followLinks _ _ _ _ _) as [[r2 st2]| |] eqn:Hfl; try discriminate H.
    injection H as <- _. rewrite skipped_withAverage.
    apply followLinks_keeps in Hfl as (Hcalls & _).
    destruct (Hcalls lp s Hin) as (lr & s' & Hcall & H1 & H2).
    subst d'. exists lr, s'. unfold Trace.perform. auto.
Qed.

(** C8, as stated, fails: nothing is removed from a skip list.  With
    depth 1, [x.md] records its link to [y.md] under [skipped.maxDepth];
    [y.md] is then analyzed as a link of [a.md] and stays in both. *)
Lemma C8_counterexample :
  exists r,
    run Examples.diamond Examples.defaults "a.md" = Returned r
    /\ map FileResult.fullPath (Result.analyzed r) = ["/r/a.md"; "/r/x.md"; "/r/y.md"]
    /\ Skipped.maxDepth (Result.skipped r) = ["/r/y.md"].
Proof. eexists. split; [vm_compute; reflexivity|]. split; reflexivity. Qed.

(** C8, amended: the skip lists keep every path recorded during the
    traversal.  Whatever a call of the traversal (the entry call, or a
    call reached from it through linked calls) records under
    [skipped.maxDepth] or under [skipped.maxCount] is in that list of
    the result the entry call returns; nothing is removed afterwards,
    so a path that is deferred by a limit and analyzed later is in
    [analyzed] and in the skip list. *)
Theorem C8_skip_lists_keep_what_is_recorded e o c r st' c' :
  Trace.perform e o c = Returned (r, st') ->
  rtc (Trace.makes e o) c c' ->
  (forall q, Trace.defersByDepth e o c' q -> q ∈ Skipped.maxDepth (Result.skipped r))
  /\ (forall q, Trace.defersByCount e o c' q -> q ∈ Skipped.maxCount (Result.skipped r)).
Proof.
  intros H Hreach. revert r st' H.
  induction Hreach as [c|c c1 c' Hmake Hrest IH]; intros r st' H.
  - apply perform_keeps in H as (H1 & H2 & _). auto.
  - apply perform_keeps in H as (_ & _ & Hsub).
    destruct (Hsub c1 Hmake) as (r1 & s1 & Hcall & Hd & Hc).
    destruct (IH r1 s1 Hcall) as (H1 & H2). split; intros q Hq; auto.
Qed.

Lemma C8_witness :
  match analyzeWithLinks Examples.diamond Examples.defaults "a.md" 0
          TraversalState.fresh with
  | Returned (r, _) =>
      "/r/y.md" ∈ Skipped.maxDepth (Result.skipped r)
      /\ "/r/y.md" ∈ map FileResult.fullPath (Result.analyzed r)
  | _ => False
  end.
Proof.
  destruct (analyzeWithLinks Examples.diamond Examples.defaults "a.md" 0
              TraversalState.fresh) as [[r st']| |] eqn:H;
    try (vm_compute in H; discriminate H).
  split.
  - refine (proj1 (C8_skip_lists_keep_what_is_recorded Examples.diamond Examples.defaults
              ("a.md", 0%nat, TraversalState.fresh) r st'
              ("/r/x.md", 1%nat,
               Trace.entered Examples.diamond ("a.md", 0%nat, TraversalState.fresh))
              H _) "/r/y.md" _).
    + apply rtc_once. exists "[x](x.md) [y](y.md)". split; [|split; [|split]].
      * repeat split; apply (bool_decide_unpack _); vm_compute; exact I.
      * vm_compute. lia.
      * reflexivity.
      * apply list_elem_of_In. vm_compute. left. reflexivity.
    + exists "[y](y.md) [a](a.md)". split; [|split; [|split]].
      * repeat split; apply (bool_decide_unpack _); vm_compute; exact I.
      * reflexivity.
      * apply list_elem_of_In. vm_compute. left. reflexivity.
      * apply (bool_decide_unpack _). vm_compute. exact I.
  - vm_compute in H. injection H as <- _. apply (bool_decide_unpack _). vm_compute. exact I.
Defined.

(** ** C9: the summary *)

(** C9 at a document that scores 10: the run analyzes [/r/a.md], the
    minimum of the overall scores is 10 and [/r/a.md] attains it, but
    [summary.worstFile] is [null]; the initial [worstScore] is 10 and the
    update asks for a strictly smaller score. *)
Lemma C9_worstFile_null_when_all_score_ten :
  exists r f,
    run Examples.single Examples.defaults "a.md" = Returned r
    /\ Result.analyzed r = [f]
    /\ FileResult.fullPath f = "/r/a.md"
    /\ overallOf f = 10
    /\ Summary.worstScore (Result.summary r) = 10
    /\ Summary.worstFile (Result.summary r) = None
    /\ Summary.averageScore (Result.summary r) = 10%float.
Proof.
  eexists. eexists. split; [vm_compute; reflexivity|].
  repeat split; reflexivity.
Qed.

(** ** The summary follows the entries *)

Lemma overall_evaluateMetrics_bounds m :
  0 <= Scores.overall (Evaluation.scores (evaluateMetrics m)) <= 10.
Proof.
  unfold evaluateMetrics, lineCountScore, structureScore, progressiveDisclosureScore.
  destruct (Metrics.totalLines m <=? 200), (Metrics.totalLines m <=? 500),
    (Metrics.totalLines m <=? 800), (4 <? Metrics.maxDepth m),
    (Metrics.maxDepth m <=? 3), (30 <? Metrics.sectionCount m),
    (20 <? Metrics.sectionCount m),
    ((0 <? Metrics.avgSectionLength m) && (Metrics.avgSectionLength m <? 15)),
    (linksWellUsed m), (0 <? Metrics.internalLinks m);
    vm_compute; split; discriminate.
Qed.

Lemma track_general l :
  forall w f,
    track (w, f) l
    = match Spec.minimumScore l with
      | None => (w, f)
      | Some m => if m <? w then (m, Spec.firstWithScore m l) else (w, f)
      end.
Proof.
  induction l as [|x rest IH]; intros w f; [reflexivity|].
  change (track (w, f) (x :: rest)) with (track (trackStep (w, f) x) rest).
  cbn [Spec.minimumScore Spec.firstWithScore]. unfold trackStep. cbn [fst].
  destruct (Z.ltb_spec (overallOf x) w) as [Hs|Hs]; rewrite IH;
    destruct (Spec.minimumScore rest) as [m'|].
  - destruct (Z.ltb_spec m' (overallOf x)) as [Hm|Hm].
    + rewrite Z.min_r by lia.
      destruct (Z.ltb_spec m' w); [|lia].
      destruct (Z.eqb_spec (overallOf x) m'); [lia | reflexivity].
    + rewrite Z.min_l by lia.
      destruct (Z.ltb_spec (overallOf x) w); [|lia].
      rewrite Z.eqb_refl. reflexivity.
  - destruct (Z.ltb_spec (overallOf x) w); [|lia].
    rewrite Z.eqb_refl. reflexivity.
  - destruct (Z.ltb_spec m' w) as [Hm|Hm].
    + rewrite Z.min_r by lia.
      destruct (Z.ltb_spec m' w); [|lia].
      destruct (Z.eqb_spec (overallOf x) m'); [lia | reflexivity].
    + destruct (Z.ltb_spec (Z.min (overallOf x) m') w); [lia | reflexivity].
  - destruct (Z.ltb_spec (overallOf x) w); [lia | reflexivity].
Qed.

Lemma track_app w l1 l2 : track w (l1 ++ l2) = track (track w l1) l2.
Proof. unfold track. apply fold_left_app. Qed.

Lemma track_le w f l : fst (track (w, f) l) <= w.
Proof.
  rewrite track_general. destruct (Spec.minimumScore l) as [m|]; cbn [fst]; [|lia].
  destruct (Z.ltb_spec m w); cbn [fst]; lia.
Qed.

(** Merging the pair of a linked result is the update run over its entries. *)
Lemma track_merge w1 f1 l2 :
  w1 <= 10 ->
  (if fst (track (10, None) l2) <? w1 then track (10, None) l2 else (w1, f1))
  = track (w1, f1) l2.
Proof.
  intros Hw. rewrite !track_general.
  destruct (Spec.minimumScore l2) as [m|]; cbn [fst].
  - destruct (Z.ltb_spec m 10); cbn [fst].
    + destruct (Z.ltb_spec m w1); reflexivity.
    + destruct (Z.ltb_spec 10 w1); [lia|].
      destruct (Z.ltb_spec m w1); [lia | reflexivity].
  - destruct (Z.ltb_spec 10 w1); [lia | reflexivity].
Qed.

Lemma summaryTracks_merge r linked :
  summaryTracks r -> summaryTracks linked -> summaryTracks (merge r linked).
Proof.
  intros (Hr & _ & Fr) (Hl & _ & Fl). unfold summaryTracks, merge.
  cbn [Result.analyzed Result.summary Summary.worstScore Summary.worstFile
       Summary.totalAnalyzed].
  split; [|split; [reflexivity | apply Forall_app; split; assumption]].
  rewrite track_app, <- Hr.
  rewrite <- (track_merge (Summary.worstScore (Result.summary r))
                          (Summary.worstFile (Result.summary r))).
  - rewrite <- Hl. cbn [fst].
    destruct (_ <? _); reflexivity.
  - pose proof (track_le 10 None (Result.analyzed r)) as H. rewrite <- Hr in H. exact H.
Qed.

Lemma summaryTracks_pushMaxCount r p : summaryTracks r -> summaryTracks (pushMaxCount r p).
Proof. intros H. exact H. Qed.

Lemma summaryTracks_recordUnfollowed e V links r :
  summaryTracks r -> summaryTracks (recordUnfollowed e V links r).
Proof.
  revert r. induction links as [|p links IH]; intros r H; simpl; [exact H|].
  destruct (bool_decide _); apply IH; exact H.
Qed.

Lemma summaryTracks_withAverage r : summaryTracks r -> summaryTracks (withAverage r).
Proof.
  unfold withAverage. destruct (Result.analyzed r) eqn:E; [intros H; exact H|].
  unfold summaryTracks.
  cbn [Result.analyzed Result.summary Summary.worstScore Summary.worstFile
       Summary.totalAnalyzed].
  rewrite E. intros H. exact H.
Qed.

Lemma followLinks_summaryTracks recur o links :
  (forall p s r s', recur p s = Returned (r, s') -> summaryTracks r) ->
  forall acc st r st',
    summaryTracks acc ->
    followLinks recur o links acc st = Returned (r, st') -> summaryTracks r.
Proof.
  intros Hrec. induction links as [|p links IH]; intros acc st r st' Hacc H; simpl in H.
  - inversion H; subst. exact Hacc.
  - destruct (_ <=? _)%nat.
    + eapply IH; [|exact H]. apply summaryTracks_pushMaxCount. exact Hacc.
    + destruct (recur p st) as [[lr st1]| |] eqn:Hcall; try discriminate.
      eapply IH; [|exact H]. apply summaryTracks_merge; [exact Hacc|].
      eapply Hrec. exact Hcall.
Qed.

Lemma body_summaryTracks recur e o filePath d st r st' :
  (forall f, recur = Some f ->
             forall p s r1 s1, f p s = Returned (r1, s1) -> summaryTracks r1) ->
  analyzeWithLinksBody recur e o filePath d st = Returned (r, st') ->
  summaryTracks r.
Proof.
  intros Hrec. unfold analyzeWithLinksBody.
  assert (Hempty : forall p, summaryTracks (pushCircular emptyResult p)
                             /\ summaryTracks (pushMaxCount emptyResult p)
                             /\ summaryTracks (pushNotFound emptyResult p)).
  { intros p. repeat split; constructor. }
  destruct (bool_decide _); [intros H; inversion H; apply Hempty|].
  destruct (bool_decide _); [intros H; inversion H; apply Hempty|].
  destruct (_ <=? _)%nat; [intros H; inversion H; apply Hempty|].
  destruct (existsSync _ _); simpl; [|intros H; inversion H; apply Hempty].
  destruct (readFileSync _ _) as [content| |] eqn:Hread; try discriminate.
  unfold analyzeDocument. rewrite Hread.
  set (fr := {| FileResult.file := _ |}).
  assert (Hfirst : summaryTracks (recordFile emptyResult fr)).
  { unfold summaryTracks, recordFile, track, trackStep.
    cbn [Result.analyzed Result.summary Summary.worstScore Summary.worstFile
         Summary.totalAnalyzed emptyResult app fold_left fst length].
    split; [destruct (_ <? _); reflexivity|]. split; [reflexivity|].
    constructor; [|constructor]. apply overall_evaluateMetrics_bounds. }
  destruct (d <? Options.maxDepth o)%nat.
  - destruct recur as [f|]; [|discriminate].
    destruct (followLinks f o _ _ _) as [[r2 st2]| |] eqn:Hf; try discriminate.
    intros H; inversion H; subst; clear H. apply summaryTracks_withAverage.
    eapply followLinks_summaryTracks; [|exact Hfirst|exact Hf].
    apply Hrec. reflexivity.
  - destruct (d =? Options.maxDepth o)%nat; intros H; inversion H; subst; clear H;
      apply summaryTracks_withAverage; [apply summaryTracks_recordUnfollowed|];
      exact Hfirst.
Qed.

Lemma analyzeWithLinks_summaryTracks e o filePath d st r st' :
  analyzeWithLinks e o filePath d st = Returned (r, st') -> summaryTracks r.
Proof.
  unfold analyzeWithLinks. generalize (Options.maxDepth o - d)%nat as fuel.
  intros fuel. revert filePath d st r st'.
  induction fuel as [|fuel IH]; intros filePath d st r st' H; simpl in H.
  - eapply body_summaryTracks; [|exact H]. intros f Hf. discriminate.
  - eapply body_summaryTracks; [|exact H]. intros f Hf. inversion Hf; subst.
    intros p s r1 s1 H1. eapply IH. exact H1.
Qed.

(** What the summary of a call holds: [worstScore] is the minimum of the
    overall scores of the analyzed entries (10 when there is none), and
    [worstFile] is the path of the first entry that attains it when that
    minimum is below 10, and [null] when it is 10. *)
Lemma summary_worst e o filePath d st r st' :
  analyzeWithLinks e o filePath d st = Returned (r, st') ->
  Summary.totalAnalyzed (Result.summary r) = Z.of_nat (length (Result.analyzed r))
  /\ match Spec.minimumScore (Result.analyzed r) with
     | None =>
         Summary.worstScore (Result.summary r) = 10
         /\ Summary.worstFile (Result.summary r) = None
     | Some m =>
         Summary.worstScore (Result.summary r) = m
         /\ Summary.worstFile (Result.summary r)
            = if m <? 10 then Spec.firstWithScore m (Result.analyzed r) else None
     end.
Proof.
  intros H. apply analyzeWithLinks_summaryTracks in H as (Ht & Hn & Hb).
  split; [exact Hn|]. rewrite track_general in Ht.
  assert (Hmin : forall m, Spec.minimumScore (Result.analyzed r) = Some m -> m <= 10).
  { clear Ht Hn. induction Hb as [|x l Hx Hl IH]; intros m Hm; [discriminate|].
    cbn in Hm. destruct (Spec.minimumScore l) as [m'|]; inversion Hm; subst; lia. }
  destruct (Spec.minimumScore (Result.analyzed r)) as [m|].
  - specialize (Hmin m eq_refl).
    destruct (Z.ltb_spec m 10); inversion Ht; subst; split; try reflexivity; lia.
  - inversion Ht. split; reflexivity.
Qed.

(** * Further properties of the script *)

Import Accounting.

(** ** The traversal: what the visited set and the lists hold *)

Lemma accountsFrom_early e o st r :
  Result.analyzed r = [] ->
  Forall (fun p => files e !! p = None) (Result.notFound r) ->
  Forall (fun p => p ∈ TraversalState.visited st ∪ TraversalState.analyzing st)
         (Skipped.circular (Result.skipped r)) ->
  (Skipped.maxCount (Result.skipped r) <> [] ->
   (Options.maxCount o <= size (TraversalState.visited st))%nat) ->
  accounts e o st r st.
Proof.
  intros Ha Hn Hc Hm. unfold accounts, accountsFrom. rewrite Ha. simpl.
  repeat split; auto. set_solver.
Qed.

Lemma followLinks_accounts e o recur V0 A :
  (forall p s r s', recur p s = Returned (r, s') -> accounts e o s r s') ->
  forall links acc st r st',
    accountsFrom e o V0 A acc st ->
    followLinks recur o links acc st = Returned (r, st') ->
    accountsFrom e o V0 A r st'.
Proof.
  intros Hrec links. induction links as [|p links IH]; intros acc st r st' Hacc H;
    simpl in H.
  - inversion H; subst. exact Hacc.
  - destruct (Options.maxCount o <=? size (TraversalState.visited st))%nat eqn:Hc.
    + eapply IH; [|exact H]. apply Nat.leb_le in Hc.
      destruct Hacc as (Hv & Ha & Hn & Hci & Hm).
      unfold accountsFrom. simpl. repeat split; auto.
    + destruct (recur p st) as [[lr st1]| |] eqn:Hcall; try discriminate.
      eapply IH; [|exact H]. apply Hrec in Hcall.
      destruct Hacc as (Hv & Ha & Hn & Hci & Hm).
      destruct Hcall as (Hv1 & Ha1 & Hn1 & Hci1 & Hm1).
      unfold accountsFrom, merge, pathsOf in *. simpl.
      rewrite map_app, list_to_set_app_L.
      assert (Hsub : TraversalState.visited st ⊆ TraversalState.visited st1)
        by (rewrite Hv1; set_solver).
      repeat split.
      * rewrite Hv1, Hv. set_solver.
      * congruence.
      * apply Forall_app. split; assumption.
      * apply Forall_app. split.
        -- eapply Forall_impl; [exact Hci|]. simpl. intros x Hx. set_solver.
        -- eapply Forall_impl; [exact Hci1|]. simpl. intros x Hx.
           rewrite Ha in Hx. exact Hx.
      * intros Hne. destruct (Skipped.maxCount (Result.skipped acc)) as [|x l] eqn:E.
        -- apply Hm1. simpl in Hne. exact Hne.
        -- assert (Options.maxCount o <= size (TraversalState.visited st))%nat
             by (apply Hm; discriminate).
           pose proof (subseteq_size _ _ Hsub). lia.
Qed.

Lemma body_accounts recur e o filePath d st r st' :
  (forall f, recur = Some f ->
             forall p s r1 s1, f p s = Returned (r1, s1) -> accounts e o s r1 s1) ->
  analyzeWithLinksBody recur e o filePath d st = Returned (r, st') ->
  accounts e o st r st'.
Proof.
  intros Hrec. unfold analyzeWithLinksBody.
  set (np := NodePath.resolve (cwd e) [filePath]).
  destruct (bool_decide (np ∈ TraversalState.visited st)) eqn:Hv.
  { intros H; inversion H; subst. apply bool_decide_eq_true in Hv.
    apply accountsFrom_early; simpl; auto.
    - constructor; [set_solver | constructor].
    - intros Hne. contradiction. }
  destruct (bool_decide (np ∈ TraversalState.analyzing st)) eqn:Ha.
  { intros H; inversion H; subst. apply bool_decide_eq_true in Ha.
    apply accountsFrom_early; simpl; auto.
    - constructor; [set_solver | constructor].
    - intros Hne. contradiction. }
  destruct (Options.maxCount o <=? size (TraversalState.visited st))%nat eqn:Hc.
  { intros H; inversion H; subst. apply Nat.leb_le in Hc.
    apply accountsFrom_early; simpl; auto. }
  destruct (existsSync e np) eqn:He; simpl.
  2:{ intros H; inversion H; subst.
      apply accountsFrom_early; simpl; auto.
      - constructor; [|constructor]. unfold existsSync in He.
        destruct (files e !! np); [discriminate | reflexivity].
      - intros Hne. contradiction. }
  destruct (readFileSync e np) as [content| |] eqn:Hread; try discriminate.
  unfold analyzeDocument. rewrite Hread.
  apply bool_decide_eq_false in Hv, Ha.
  set (fr := {| FileResult.file := _ |}).
  set (st1 := {| TraversalState.visited := _ |}).
  assert (Hfirst : accountsFrom e o (TraversalState.visited st)
                     ({[np]} ∪ TraversalState.analyzing st)
                     (recordFile emptyResult fr) st1).
  { unfold accountsFrom, pathsOf. simpl. repeat split; auto.
    - set_solver.
    - intros Hne. contradiction. }
  assert (Hend : forall r2 st2,
             accountsFrom e o (TraversalState.visited st)
               ({[np]} ∪ TraversalState.analyzing st) r2 st2 ->
             np ∈ TraversalState.visited st2 ->
             accounts e o st (withAverage r2)
               {| TraversalState.visited := TraversalState.visited st2;
                  TraversalState.analyzing :=
                    TraversalState.analyzing st2 ∖ {[np]} |}).
  { intros r2 st2 (H1 & H2 & H3 & H4 & H5) Hin.
    unfold accounts, accountsFrom.
    rewrite analyzed_withAverage, skipped_withAverage.
    assert (Hnf : Result.notFound (withAverage r2) = Result.notFound r2)
      by (unfold withAverage; destruct (Result.analyzed r2); reflexivity).
    rewrite Hnf. simpl. repeat split; auto.
    - rewrite H2. set_solver.
    - eapply Forall_impl; [exact H4|]. simpl. intros x Hx. set_solver. }
  destruct (d <? Options.maxDepth o)%nat.
  - destruct recur as [f|]; [|discriminate].
    destruct (followLinks f o _ _ _) as [[r2 st2]| |] eqn:Hf; try discriminate.
    intros H; inversion H; subst; clear H.
    pose proof (followLinks_extends _ _ _ _ _ _ _ Hf) as ((l & Hl) & _).
    eapply followLinks_accounts in Hf; [| apply Hrec; reflexivity | exact Hfirst].
    apply Hend; [exact Hf|]. destruct Hf as (H1 & _). rewrite H1, Hl.
    unfold pathsOf. simpl. set_solver.
  - assert (Hunf : forall links,
               accountsFrom e o (TraversalState.visited st)
                 ({[np]} ∪ TraversalState.analyzing st)
                 (recordUnfollowed e (TraversalState.visited st1) links
                    (recordFile emptyResult fr)) st1).
    { intros links. generalize (recordFile emptyResult fr), Hfirst.
      induction links as [|p links IH]; intros acc Hacc; simpl; [exact Hacc|].
      destruct (bool_decide _); apply IH; [exact Hacc|].
      destruct Hacc as (H1 & H2 & H3 & H4 & H5).
      unfold accountsFrom. simpl. repeat split; auto. }
    destruct (d =? Options.maxDepth o)%nat; intros H; inversion H; subst; clear H.
    + apply (Hend _ st1); [apply Hunf | unfold st1; simpl; apply elem_of_union_l, elem_of_singleton; reflexivity].
    + apply (Hend _ st1); [exact Hfirst | unfold st1; simpl; apply elem_of_union_l, elem_of_singleton; reflexivity].
Qed.

Lemma analyzeWithLinks_accounts e o filePath d st r st' :
  analyzeWithLinks e o filePath d st = Returned (r, st') -> accounts e o st r st'.
Proof.
  unfold analyzeWithLinks. generalize (Options.maxDepth o - d)%nat as fuel.
  intros fuel. revert filePath d st r st'.
  induction fuel as [|fuel IH]; intros filePath d st r st' H; simpl in H.
  - eapply body_accounts; [|exact H]. intros f Hf. discriminate.
  - eapply body_accounts; [|exact H]. intros f Hf. inversion Hf; subst.
    intros p s r1 s1 H1. eapply IH. exact H1.
Qed.

Lemma size_list_to_set_le (l : list string) :
  (size (list_to_set l : gset string) <= length l)%nat.
Proof.
  induction l as [|x l IH].
  - rewrite list_to_set_nil, size_empty. simpl. lia.
  - rewrite list_to_set_cons. cbn [length].
    pose proof (size_union_alt ({[x]} : gset string) (list_to_set l)) as H.
    rewrite H, size_singleton.
    pose proof (subseteq_size (list_to_set l ∖ {[x]} : gset string) (list_to_set l)) as H1.
    assert (size (list_to_set l ∖ {[x]} : gset string) <= size (list_to_set l : gset string))%nat
      by (apply H1; set_solver).
    lia.
Qed.

Lemma size_list_to_set_NoDup (l : list string) :
  size (list_to_set l : gset string) = length l -> NoDup l.
Proof.
  induction l as [|x l IH]; intros H; [constructor|].
  rewrite list_to_set_cons in H. cbn [length] in H.
  destruct (decide (x ∈ l)) as [Hin|Hnin].
  - exfalso. assert (Heq : ({[x]} ∪ list_to_set l : gset string) = list_to_set l)
      by set_solver.
    rewrite Heq in H. pose proof (size_list_to_set_le l). lia.
  - constructor; [exact Hnin|]. apply IH.
    rewrite size_union in H by set_solver. rewrite size_singleton in H. lia.
Qed.

(** Each document is analyzed once: the visited set a call leaves is the
    one it started from and the paths of its analyzed entries, none of
    these paths was visited before, and no two entries share a path. *)
Theorem analyzed_paths_are_the_new_visited e o filePath d st r st' :
  analyzeWithLinks e o filePath d st = Returned (r, st') ->
  TraversalState.visited st'
  = TraversalState.visited st ∪ list_to_set (pathsOf (Result.analyzed r))
  /\ Forall (fun p => p ∉ TraversalState.visited st) (pathsOf (Result.analyzed r))
  /\ NoDup (pathsOf (Result.analyzed r)).
Proof.
  intros H. pose proof (analyzeWithLinks_accounts _ _ _ _ _ _ _ H) as (Hv & _).
  apply analyzeWithLinks_grows in H as (_ & Hz & _ & Hf).
  assert (Hnew : Forall (fun p => p ∉ TraversalState.visited st)
                        (pathsOf (Result.analyzed r))).
  { unfold pathsOf. apply Forall_fmap. eapply Forall_impl; [exact Hf|].
    simpl. intros f (_ & _ & _ & _ & Hn). exact Hn. }
  split; [exact Hv|]. split; [exact Hnew|].
  apply size_list_to_set_NoDup.
  rewrite Hv in Hz. rewrite size_union in Hz.
  - unfold pathsOf in *. rewrite length_map. lia.
  - intros p Hp Hq. apply elem_of_list_to_set in Hq.
    rewrite Forall_forall in Hnew. exact (Hnew p Hq Hp).
Qed.

Lemma analyzed_paths_witness :
  match analyzeWithLinks Examples.diamond
          {| Options.maxDepth := 2; Options.maxCount := 10; Options.format := "full" |}
          "a.md" 0 TraversalState.fresh with
  | Returned (r, st') =>
      NoDup (pathsOf (Result.analyzed r))
      /\ pathsOf (Result.analyzed r) = ["/r/a.md"; "/r/x.md"; "/r/y.md"]
  | _ => False
  end.
Proof.
  destruct (analyzeWithLinks _ _ _ _ _) as [[r st']| |] eqn:H.
  - split.
    + exact (proj2 (proj2 (analyzed_paths_are_the_new_visited _ _ _ _ _ _ _ H))).
    + vm_compute in H. inversion H. reflexivity.
  - vm_compute in H. discriminate H.
  - vm_compute in H. discriminate H.
Defined.

(** A call that returns leaves [analyzing] as it found it: the path it
    adds is removed again, at every level. *)
Theorem analyzing_is_restored e o filePath d st r st' :
  analyzeWithLinks e o filePath d st = Returned (r, st') ->
  TraversalState.analyzing st' = TraversalState.analyzing st.
Proof.
  intros H. apply analyzeWithLinks_accounts in H as (_ & Ha & _). exact Ha.
Qed.

Lemma analyzing_is_restored_witness :
  match analyzeWithLinks Examples.diamond Examples.defaults "a.md" 0
          {| TraversalState.visited := ∅; TraversalState.analyzing := {["/q/other.md"]} |} with
  | Returned (r, st') => TraversalState.analyzing st' = {["/q/other.md"]}
  | _ => False
  end.
Proof.
  destruct (analyzeWithLinks _ _ _ _ _) as [[r st']| |] eqn:H.
  - exact (analyzing_is_restored _ _ _ _ _ _ _ H).
  - vm_compute in H. discriminate H.
  - vm_compute in H. discriminate H.
Defined.

(** A path reported under [notFound] does not exist on disk, and it is
    not among the analyzed entries. *)
Theorem notFound_paths_do_not_exist e o filePath d st r st' :
  analyzeWithLinks e o filePath d st = Returned (r, st') ->
  Forall (fun p => files e !! p = None /\ p ∉ pathsOf (Result.analyzed r))
         (Result.notFound r).
Proof.
  intros H. pose proof (analyzeWithLinks_accounts _ _ _ _ _ _ _ H) as (_ & _ & Hn & _).
  apply analyzeWithLinks_grows in H as (_ & _ & _ & Hf).
  eapply Forall_impl; [exact Hn|]. simpl. intros p Hp. split; [exact Hp|].
  intros Hin. unfold pathsOf in Hin. apply list_elem_of_fmap in Hin as (f & -> & Hin).
  rewrite Forall_forall in Hf. destruct (Hf f Hin) as (_ & _ & (c & Hc) & _).
  congruence.
Qed.

Lemma notFound_witness :
  match analyzeWithLinks Examples.escaping Examples.defaults "a.md" 0
          TraversalState.fresh with
  | Returned (r, st') =>
      Forall (fun p => files Examples.escaping !! p = None
                       /\ p ∉ pathsOf (Result.analyzed r)) (Result.notFound r)
      /\ Result.notFound r = ["/r/mailto:a@b.c"]
  | _ => False
  end.
Proof.
  destruct (analyzeWithLinks _ _ _ _ _) as [[r st']| |] eqn:H.
  - split.
    + exact (notFound_paths_do_not_exist _ _ _ _ _ _ _ H).
    + vm_compute in H. inversion H. reflexivity.
  - vm_compute in H. discriminate H.
  - vm_compute in H. discriminate H.
Defined.

(** In a run, every path reported under [skipped.circular] is the path of
    a document the run analyzed. *)
Theorem circular_paths_were_analyzed e o filePath r :
  run e o filePath = Returned r ->
  Forall (fun p => p ∈ pathsOf (Result.analyzed r)) (Skipped.circular (Result.skipped r)).
Proof.
  intros H. apply run_Returned in H as (st' & H).
  apply analyzeWithLinks_accounts in H as (Hv & _ & _ & Hc & _).
  eapply Forall_impl; [exact Hc|]. simpl. intros p Hp.
  rewrite Hv in Hp. simpl in Hp.
  apply elem_of_union in Hp as [Hp|Hp]; [|set_solver].
  apply elem_of_union in Hp as [Hp|Hp]; [set_solver|].
  apply elem_of_list_to_set in Hp. exact Hp.
Qed.

Lemma circular_witness :
  match run Examples.diamond
          {| Options.maxDepth := 2; Options.maxCount := 10; Options.format := "full" |}
          "a.md" with
  | Returned r =>
      Forall (fun p => p ∈ pathsOf (Result.analyzed r))
             (Skipped.circular (Result.skipped r))
      /\ Skipped.circular (Result.skipped r) = ["/r/a.md"; "/r/y.md"]
  | _ => False
  end.
Proof.
  destruct (run _ _ _) as [r| |] eqn:H.
  - split.
    + exact (circular_paths_were_analyzed _ _ _ _ H).
    + vm_compute in H. inversion H. reflexivity.
  - vm_compute in H. discriminate H.
  - vm_compute in H. discriminate H.
Defined.

(** In a run, [skipped.maxCount] is non-empty only when the budget is
    used up: the run then analyzed exactly [maxCount] documents. *)
Theorem maxCount_skips_mean_budget_used e o filePath r :
  run e o filePath = Returned r ->
  Skipped.maxCount (Result.skipped r) <> [] ->
  length (Result.analyzed r) = Options.maxCount o.
Proof.
  intros H Hne. apply run_Returned in H as (st' & H).
  pose proof (analyzeWithLinks_accounts _ _ _ _ _ _ _ H) as (_ & _ & _ & _ & Hm).
  apply analyzeWithLinks_grows in H as (_ & Hz & Hb & _).
  specialize (Hm Hne).
  change (TraversalState.visited TraversalState.fresh) with (∅ : gset string) in Hz, Hb.
  rewrite size_empty in Hz, Hb. lia.
Qed.

Lemma maxCount_witness :
  match run Examples.diamond
          {| Options.maxDepth := 2; Options.maxCount := 2; Options.format := "full" |}
          "a.md" with
  | Returned r => length (Result.analyzed r) = 2%nat
  | _ => False
  end.
Proof.
  destruct (run _ _ _) as [r| |] eqn:H.
  - apply (maxCount_skips_mean_budget_used _ _ _ _ H).
    vm_compute in H. inversion H. discriminate.
  - vm_compute in H. discriminate H.
  - vm_compute in H. discriminate H.
Defined.

(** ** The traversal: when it throws *)

Lemma followLinks_threw e o recur :
  (forall p s q, recur p s = Threw q -> cannotBeRead e q) ->
  forall links acc st q,
    followLinks recur o links acc st = Threw q -> cannotBeRead e q.
Proof.
  intros Hrec links. induction links as [|p links IH]; intros acc st q H; simpl in H.
  - discriminate.
  - destruct (_ <=? _)%nat; [eapply IH; exact H|].
    destruct (recur p st) as [[lr st1]| |] eqn:Hcall.
    + eapply IH; exact H.
    + inversion H; subst. eapply Hrec; exact Hcall.
    + discriminate.
Qed.

Lemma body_threw recur e o filePath d st q :
  (forall f, recur = Some f ->
             forall p s q', f p s = Threw q' -> cannotBeRead e q') ->
  analyzeWithLinksBody recur e o filePath d st = Threw q ->
  cannotBeRead e q.
Proof.
  intros Hrec. unfold analyzeWithLinksBody.
  destruct (bool_decide _); [discriminate|].
  destruct (bool_decide _); [discriminate|].
  destruct (_ <=? _)%nat; [discriminate|].
  unfold existsSync, analyzeDocument, readFileSync.
  destruct (files e !! NodePath.resolve (cwd e) [filePath]) as [[c| |]|] eqn:Hf; simpl;
    try discriminate.
  - destruct (d <? Options.maxDepth o)%nat.
    + destruct recur as [f|]; [|discriminate].
      destruct (followLinks f o _ _ _) as [[r2 st2]| |] eqn:Hfl; try discriminate.
      intros H; inversion H; subst.
      eapply followLinks_threw; [|exact Hfl]. apply Hrec. reflexivity.
    + destruct (d =? Options.maxDepth o)%nat; discriminate.
  - intros H; inversion H; subst. left. exact Hf.
  - intros H; inversion H; subst. right. exact Hf.
Qed.

Lemma analyzeWithLinks_threw e o filePath d st q :
  analyzeWithLinks e o filePath d st = Threw q -> cannotBeRead e q.
Proof.
  unfold analyzeWithLinks.
  generalize (Options.maxDepth o - d)%nat as fuel. intros fuel.
  revert filePath d st q.
  induction fuel as [|fuel IH]; intros filePath d st q H; simpl in H.
  - eapply body_threw; [|exact H]. intros f Hf. discriminate.
  - eapply body_threw; [|exact H]. intros f Hf. inversion Hf; subst.
    intros p s q' H1. eapply IH. exact H1.
Qed.

(** A candidate that is not visited, not under analysis, fits the count
    and cannot be read makes the call throw. *)
Lemma analyzeWithLinks_unreadable e o filePath d st :
  NodePath.resolve (cwd e) [filePath] ∉ TraversalState.visited st ->
  NodePath.resolve (cwd e) [filePath] ∉ TraversalState.analyzing st ->
  (size (TraversalState.visited st) < Options.maxCount o)%nat ->
  cannotBeRead e (NodePath.resolve (cwd e) [filePath]) ->
  analyzeWithLinks e o filePath d st = Threw (NodePath.resolve (cwd e) [filePath]).
Proof.
  intros Hv Ha Hc Hdir. rewrite analyzeWithLinks_unfold.
  unfold analyzeWithLinksBody.
  rewrite (bool_decide_eq_false_2 _ Hv), (bool_decide_eq_false_2 _ Ha).
  apply Nat.leb_gt in Hc. rewrite Hc.
  unfold existsSync, readFileSync. destruct Hdir as [-> | ->]; reflexivity.
Qed.

(** The loop over the links throws what a linked call it makes throws. *)
Lemma followLinks_rethrows recur o links :
  forall acc st lp s q,
    (lp, s) ∈ Trace.linkedCalls recur o links st ->
    recur lp s = Threw q ->
    followLinks recur o links acc st = Threw q.
Proof.
  induction links as [|p links IH]; intros acc st lp s q Hin Hthrow; simpl in Hin |- *.
  - inversion Hin.
  - destruct (Options.maxCount o <=? size (TraversalState.visited st))%nat;
      [eapply IH; eauto|].
    apply elem_of_cons in Hin as [Heq|Hin].
    + injection Heq as -> ->. rewrite Hthrow. reflexivity.
    + destruct (recur p st) as [[lr st1]| |]; [eapply IH; eauto | inversion Hin | inversion Hin].
Qed.

Lemma perform_rethrows e o c c' q :
  Trace.makes e o c c' ->
  Trace.perform e o c' = Threw q ->
  Trace.perform e o c = Threw q.
Proof.
  destruct c as [[filePath d] st], c' as [[lp d'] s].
  intros (content & (Hv & Ha & Hc & Hf) & Hd & Hd' & Hin) Hthrow.
  simpl in Hd, Hd', Hin, Hthrow. subst d'.
  unfold Trace.perform. rewrite analyzeWithLinks_unfold. unfold analyzeWithLinksBody.
  rewrite (bool_decide_eq_false_2 _ Hv), (bool_decide_eq_false_2 _ Ha).
  apply Nat.leb_gt in Hc. rewrite Hc.
  unfold existsSync, analyzeDocument, readFileSync. rewrite Hf. simpl.
  apply Nat.ltb_lt in Hd. rewrite Hd.
  erewrite followLinks_rethrows; [reflexivity | exact Hin | exact Hthrow].
Qed.

(** A traversal throws where [readFileSync] does and nowhere else.  When
    a call throws, the path it failed on exists on disk and cannot be
    read: it is a directory, or something else whose read throws, never
    a missing path.  A candidate that is not visited, not under
    analysis, fits the count and cannot be read makes the call throw.
    And no call catches the exception of a call it makes: what any call
    of a traversal throws, the entry call throws. *)
Theorem traversal_throws_where_the_read_does e o :
  (forall filePath d st q,
     analyzeWithLinks e o filePath d st = Threw q -> cannotBeRead e q)
  /\ (forall filePath d st,
        NodePath.resolve (cwd e) [filePath] ∉ TraversalState.visited st ->
        NodePath.resolve (cwd e) [filePath] ∉ TraversalState.analyzing st ->
        (size (TraversalState.visited st) < Options.maxCount o)%nat ->
        cannotBeRead e (NodePath.resolve (cwd e) [filePath]) ->
        analyzeWithLinks e o filePath d st = Threw (NodePath.resolve (cwd e) [filePath]))
  /\ (forall c c' q,
        rtc (Trace.makes e o) c c' ->
        Trace.perform e o c' = Threw q ->
        Trace.perform e o c = Threw q).
Proof.
  split; [|split].
  - intros filePath d st q. apply analyzeWithLinks_threw.
  - intros filePath d st. apply analyzeWithLinks_unreadable.
  - intros c c' q Hreach. induction Hreach as [c|c c1 c' Hmake Hrest IH]; [auto|].
    intros Hthrow. eapply perform_rethrows; [exact Hmake | apply IH, Hthrow].
Qed.

Lemma traversal_throws_witness :
  run MoreExamples.withDirectoryLink Examples.defaults "a.md" = Threw "/r/docs"
  /\ cannotBeRead MoreExamples.withDirectoryLink "/r/docs".
Proof.
  assert (H : analyzeWithLinks MoreExamples.withDirectoryLink Examples.defaults "a.md" 0
                TraversalState.fresh = Threw "/r/docs") by (vm_compute; reflexivity).
  split.
  - unfold run. rewrite H. reflexivity.
  - exact (proj1 (traversal_throws_where_the_read_does _ _) _ _ _ _ H).
Defined.

(** ** The traversal: how each entry was reached *)

Lemma followLinks_reached e o recur d f0 content :
  files e !! FileResult.fullPath f0 = Some (File content) ->
  FileResult.depth f0 = d ->
  (forall p s r s', recur p s = Returned (r, s') ->
                    reachedFrom e (S d) p (Result.analyzed r)) ->
  forall links acc st r st',
    (forall lp, lp ∈ links ->
                lp ∈ extractInternalLinks e (FileResult.fullPath f0) content) ->
    (exists soFar, Result.analyzed acc = f0 :: soFar
                   /\ Forall (fun f => exists g, g ∈ f0 :: soFar /\ linkedFrom e g f) soFar) ->
    followLinks recur o links acc st = Returned (r, st') ->
    exists rest, Result.analyzed r = f0 :: rest
                 /\ Forall (fun f => exists g, g ∈ f0 :: rest /\ linkedFrom e g f) rest.
Proof.
  intros Hfile Hd Hrec links.
  induction links as [|lp links IH]; intros acc st r st' Hlinks Hacc H; simpl in H.
  - inversion H; subst. exact Hacc.
  - assert (Hrest : forall x, x ∈ links ->
                      x ∈ extractInternalLinks e (FileResult.fullPath f0) content)
      by (intros x Hx; apply Hlinks; right; exact Hx).
    destruct (_ <=? _)%nat; [eapply (IH (pushMaxCount acc lp)); [exact Hrest | exact Hacc | exact H]|].
    destruct (recur lp st) as [[lr st1]| |] eqn:Hcall; try discriminate.
    eapply (IH (merge acc lr)); [exact Hrest | | exact H].
    destruct Hacc as (soFar & Hso & Hall). apply Hrec in Hcall.
    exists (soFar ++ Result.analyzed lr)%list. simpl. rewrite Hso. split; [reflexivity|].
    apply Forall_app. split.
    + eapply Forall_impl; [exact Hall|]. simpl. intros f (g & Hg & Hl).
      exists g. split; [|exact Hl].
      change (f0 :: soFar ++ Result.analyzed lr)%list
        with ((f0 :: soFar) ++ Result.analyzed lr)%list.
      apply elem_of_app. left. exact Hg.
    + unfold reachedFrom in Hcall.
      destruct (Result.analyzed lr) as [|h t]; [constructor|].
      destruct Hcall as (Hp & Hdep & Ht). constructor.
      * exists f0. split; [left|]. unfold linkedFrom. split; [congruence|].
        exists content, lp. repeat split; [exact Hfile | apply Hlinks; left | exact Hp].
      * eapply Forall_impl; [exact Ht|]. simpl. intros f (g & Hg & Hl).
        exists g. split; [|exact Hl].
        change (f0 :: soFar ++ h :: t)%list with ((f0 :: soFar) ++ h :: t)%list.
        apply elem_of_app. right. exact Hg.
Qed.

Lemma body_reached recur e o filePath d st r st' :
  (forall f, recur = Some f ->
             forall p s r1 s1, f p s = Returned (r1, s1) ->
                               reachedFrom e (S d) p (Result.analyzed r1)) ->
  analyzeWithLinksBody recur e o filePath d st = Returned (r, st') ->
  reachedFrom e d filePath (Result.analyzed r).
Proof.
  intros Hrec. unfold analyzeWithLinksBody.
  set (np := NodePath.resolve (cwd e) [filePath]).
  destruct (bool_decide _); [intros H; inversion H; exact I|].
  destruct (bool_decide _); [intros H; inversion H; exact I|].
  destruct (_ <=? _)%nat; [intros H; inversion H; exact I|].
  destruct (existsSync e np); simpl; [|intros H; inversion H; exact I].
  destruct (readFileSync e np) as [content| |] eqn:Hread; try discriminate.
  unfold analyzeDocument. rewrite Hread. apply readFileSync_Returned in Hread.
  set (fr := {| FileResult.file := _ |}).
  destruct (d <? Options.maxDepth o)%nat.
  - destruct recur as [f|]; [|discriminate].
    destruct (followLinks f o _ _ _) as [[r2 st2]| |] eqn:Hf; try discriminate.
    intros H; inversion H; subst; clear H. rewrite analyzed_withAverage.
    eapply (followLinks_reached e o f d fr content) in Hf.
    + destruct Hf as (rest & Hr & Hall). rewrite Hr. simpl. auto.
    + exact Hread.
    + reflexivity.
    + apply Hrec. reflexivity.
    + intros lp Hlp. exact Hlp.
    + exists []. split; [reflexivity | constructor].
  - destruct (d =? Options.maxDepth o)%nat; intros H; inversion H; subst; clear H;
      rewrite ?analyzed_withAverage, ?analyzed_recordUnfollowed; simpl;
      repeat split; constructor.
Qed.

(** Every analyzed entry was reached from the entry point by links: the
    first entry of a call is the document it was called on, at the depth
    of the call, and every other entry is one level deeper than an entry
    of the same result in whose text [extractInternalLinks] finds a link
    that resolves to it. *)
Theorem analyzed_entries_are_reached_by_links e o filePath d st r st' :
  analyzeWithLinks e o filePath d st = Returned (r, st') ->
  reachedFrom e d filePath (Result.analyzed r).
Proof.
  unfold analyzeWithLinks. generalize (Options.maxDepth o - d)%nat as fuel.
  intros fuel. revert filePath d st r st'.
  induction fuel as [|fuel IH]; intros filePath d st r st' H; simpl in H.
  - eapply body_reached; [|exact H]. intros f Hf. discriminate.
  - eapply body_reached; [|exact H]. intros f Hf. inversion Hf; subst.
    intros p s r1 s1 H1. eapply IH. exact H1.
Qed.

Lemma reached_witness :
  match analyzeWithLinks Examples.diamond
          {| Options.maxDepth := 2; Options.maxCount := 10; Options.format := "full" |}
          "a.md" 0 TraversalState.fresh with
  | Returned (r, st') =>
      reachedFrom Examples.diamond 0 "a.md" (Result.analyzed r)
      /\ map FileResult.depth (Result.analyzed r) = [0%nat; 1%nat; 2%nat]
  | _ => False
  end.
Proof.
  destruct (analyzeWithLinks _ _ _ _ _) as [[r st']| |] eqn:H.
  - split.
    + exact (analyzed_entries_are_reached_by_links _ _ _ _ _ _ _ H).
    + vm_compute in H. inversion H. reflexivity.
  - vm_compute in H. discriminate H.
  - vm_compute in H. discriminate H.
Defined.

(** ** The summary *)

Lemma summary_worst_witness :
  match analyzeWithLinks Examples.escaping Examples.defaults "a.md" 0
          TraversalState.fresh with
  | Returned (r, st') =>
      Summary.totalAnalyzed (Result.summary r) = 3
      /\ Summary.worstScore (Result.summary r) = 9
      /\ Summary.worstFile (Result.summary r) = Some "/r/a.md"
  | _ => False
  end.
Proof.
  destruct (analyzeWithLinks _ _ _ _ _) as [[r st']| |] eqn:H.
  - pose proof (summary_worst _ _ _ _ _ _ _ H) as (Hn & Hw).
    vm_compute in H. inversion H; subst; clear H.
    split; [exact Hn|]. exact Hw.
  - vm_compute in H. discriminate H.
  - vm_compute in H. discriminate H.
Defined.

(** ** [evaluateMetrics] *)

Import ScoreTables.

Ltac in_list := simpl; repeat first [left; reflexivity | right].

(** Whatever the metrics, the line-count score is 10, 7, 4 or 2, the
    structure score is one of 10, 9, 8, 7, 6, 5, 4, 2 (the floor at 0 is
    never reached), the progressive-disclosure score is 10, 7, 6 or 3,
    and the overall score lies between 2 and 10. *)
Theorem scores_are_in_range m :
  let s := Evaluation.scores (evaluateMetrics m) in
  In (Scores.lineCount s) lineCountValues
  /\ In (Scores.structure s) structureValues
  /\ In (Scores.progressiveDisclosure s) disclosureValues
  /\ 2 <= Scores.overall s <= 10.
Proof.
  unfold evaluateMetrics, lineCountScore, structureScore, progressiveDisclosureScore.
  destruct (Metrics.totalLines m <=? 200), (Metrics.totalLines m <=? 500),
    (Metrics.totalLines m <=? 800), (4 <? Metrics.maxDepth m),
    (Metrics.maxDepth m <=? 3), (30 <? Metrics.sectionCount m),
    (20 <? Metrics.sectionCount m),
    ((0 <? Metrics.avgSectionLength m) && (Metrics.avgSectionLength m <? 15)),
    (linksWellUsed m), (0 <? Metrics.internalLinks m);
    vm_compute; (split; [in_list | split; [in_list | split; [in_list | split; discriminate]]]).
Qed.

Lemma overallIsMonotone_true :
  table monotoneAt structureValues structureValues lineCountValues lineCountValues
        disclosureValues disclosureValues = true.
Proof. vm_compute. reflexivity. Qed.

Lemma forallb_In {A} (f : A -> bool) (l : list A) (x : A) :
  forallb f l = true -> In x l -> f x = true.
Proof. intros H Hin. rewrite forallb_forall in H. apply H, Hin. Qed.

Lemma table_entry (f : Z -> Z -> Z -> Z -> Z -> Z -> bool) (A B C D E F : list Z) :
  table f A B C D E F = true ->
  forall a b c d e g,
    In a A -> In b B -> In c C -> In d D -> In e E -> In g F -> f a b c d e g = true.
Proof.
  unfold table. intros H a b c d e g Ha Hb Hc Hd He Hg.
  apply (forallb_In _ _ a) in H; [|exact Ha].
  apply (forallb_In _ _ b) in H; [|exact Hb].
  apply (forallb_In _ _ c) in H; [|exact Hc].
  apply (forallb_In _ _ d) in H; [|exact Hd].
  apply (forallb_In _ _ e) in H; [|exact He].
  apply (forallb_In _ _ g) in H; [|exact Hg].
  exact H.
Qed.

Lemma overallScore_monotone st1 st2 lc1 lc2 pd1 pd2 :
  In st1 structureValues -> In st2 structureValues ->
  In lc1 lineCountValues -> In lc2 lineCountValues ->
  In pd1 disclosureValues -> In pd2 disclosureValues ->
  lc2 <= lc1 -> st2 <= st1 -> pd2 <= pd1 ->
  overallScore lc2 st2 pd2 <= overallScore lc1 st1 pd1.
Proof.
  intros S1 S2 H1 H2 H3 H4 Hlc Hst Hpd.
  pose proof (table_entry monotoneAt _ _ _ _ _ _ overallIsMonotone_true
                st1 st2 lc1 lc2 pd1 pd2 S1 S2 H1 H2 H3 H4) as H.
  unfold monotoneAt in H.
  apply Z.leb_le in Hlc, Hst, Hpd. rewrite Hlc, Hst, Hpd in H.
  apply Z.leb_le. exact H.
Qed.

Lemma scores_evaluateMetrics m :
  Evaluation.scores (evaluateMetrics m)
  = {| Scores.lineCount := fst (lineCountScore m);
       Scores.structure := fst (structureScore m);
       Scores.progressiveDisclosure := fst (progressiveDisclosureScore m);
       Scores.overall := overallScore (fst (lineCountScore m)) (fst (structureScore m))
                                      (fst (progressiveDisclosureScore m)) |}.
Proof.
  unfold evaluateMetrics.
  destruct (lineCountScore m), (structureScore m), (progressiveDisclosureScore m).
  reflexivity.
Qed.

(** More lines never help the two scores that look at the length: with
    the same link counts, a longer document gets a line-count score and
    a progressive-disclosure score that are not higher, and its overall
    score is not higher either unless its structure score is. *)
Theorem length_scores_fall_with_lines m1 m2 :
  Metrics.internalLinks m1 = Metrics.internalLinks m2 ->
  Metrics.totalLinks m1 = Metrics.totalLinks m2 ->
  Metrics.totalLines m1 <= Metrics.totalLines m2 ->
  let s1 := Evaluation.scores (evaluateMetrics m1) in
  let s2 := Evaluation.scores (evaluateMetrics m2) in
  Scores.lineCount s2 <= Scores.lineCount s1
  /\ Scores.progressiveDisclosure s2 <= Scores.progressiveDisclosure s1
  /\ (Scores.structure s2 <= Scores.structure s1 ->
      Scores.overall s2 <= Scores.overall s1).
Proof.
  intros Hi Ht Hl. cbv zeta.
  pose proof (scores_are_in_range m1) as (R1 & R2 & R3 & _).
  pose proof (scores_are_in_range m2) as (Q1 & Q2 & Q3 & _).
  cbv zeta in *. rewrite !scores_evaluateMetrics in *. simpl in *.
  assert (Hlc : fst (lineCountScore m2) <= fst (lineCountScore m1)).
  { unfold lineCountScore.
    destruct (Z.leb_spec (Metrics.totalLines m1) 200),
      (Z.leb_spec (Metrics.totalLines m1) 500),
      (Z.leb_spec (Metrics.totalLines m1) 800),
      (Z.leb_spec (Metrics.totalLines m2) 200),
      (Z.leb_spec (Metrics.totalLines m2) 500),
      (Z.leb_spec (Metrics.totalLines m2) 800); simpl; lia. }
  assert (Hpd : fst (progressiveDisclosureScore m2) <= fst (progressiveDisclosureScore m1)).
  { unfold progressiveDisclosureScore, linksWellUsed, linkRatio. rewrite Hi, Ht.
    destruct (Z.leb_spec (Metrics.totalLines m1) 200),
      (Z.leb_spec (Metrics.totalLines m1) 500),
      (Z.leb_spec (Metrics.totalLines m2) 200),
      (Z.leb_spec (Metrics.totalLines m2) 500); try lia;
      destruct (_ && _); simpl; try lia;
      destruct (0 <? Metrics.internalLinks m2); simpl; lia. }
  repeat split; auto.
  intros Hst. apply overallScore_monotone; auto.
Qed.

Lemma length_scores_witness :
  Scores.lineCount
    (Evaluation.scores (evaluateMetrics (metricsOf (MoreExamples.document 600))))
  <= Scores.lineCount
       (Evaluation.scores (evaluateMetrics (metricsOf (MoreExamples.document 250))))
  /\ Scores.progressiveDisclosure
       (Evaluation.scores (evaluateMetrics (metricsOf (MoreExamples.document 600))))
     <= Scores.progressiveDisclosure
          (Evaluation.scores (evaluateMetrics (metricsOf (MoreExamples.document 250))))
  /\ Scores.overall
       (Evaluation.scores (evaluateMetrics (metricsOf (MoreExamples.document 600))))
     <= Scores.overall
          (Evaluation.scores (evaluateMetrics (metricsOf (MoreExamples.document 250)))).
Proof.
  destruct (length_scores_fall_with_lines
              (metricsOf (MoreExamples.document 250))
              (metricsOf (MoreExamples.document 600))) as (H1 & H2 & H3).
  - vm_compute. reflexivity.
  - vm_compute. reflexivity.
  - vm_compute. discriminate.
  - split; [exact H1|]. split; [exact H2|]. apply H3. vm_compute. discriminate.
Defined.

(** The overall score itself can grow with the length: a heading with
    9 lines of text has sections that are short on average and scores 9
    overall; the same heading with 19 lines scores 10. *)
Lemma more_lines_can_lift_the_overall_score :
  Scores.overall
    (Evaluation.scores
       (evaluateMetrics (metricsOf ("# T" ++ String newline (MoreExamples.textLines 9)))))
  = 9
  /\ Scores.overall
       (Evaluation.scores
          (evaluateMetrics (metricsOf ("# T" ++ String newline (MoreExamples.textLines 19)))))
     = 10.
Proof. split; vm_compute; reflexivity. Qed.

(** A document of at most 200 lines scores 10 for its length and 10 for
    progressive disclosure whatever its links, and at least 8 overall
    whatever its headings. *)
Theorem short_documents_score_at_least_eight m :
  Metrics.totalLines m <= 200 ->
  let s := Evaluation.scores (evaluateMetrics m) in
  Scores.lineCount s = 10
  /\ Scores.progressiveDisclosure s = 10
  /\ 8 <= Scores.overall s.
Proof.
  intros Hl. cbv zeta. apply Z.leb_le in Hl.
  unfold evaluateMetrics, lineCountScore, structureScore, progressiveDisclosureScore.
  rewrite Hl.
  destruct (4 <? Metrics.maxDepth m), (Metrics.maxDepth m <=? 3),
    (30 <? Metrics.sectionCount m), (20 <? Metrics.sectionCount m),
    ((0 <? Metrics.avgSectionLength m) && (Metrics.avgSectionLength m <? 15)),
    (0 <? Metrics.internalLinks m);
    vm_compute; (split; [reflexivity | split; [reflexivity | discriminate]]).
Qed.

Lemma short_documents_witness :
  8 <= Scores.overall (Evaluation.scores (evaluateMetrics (MoreExamples.withLines 150))).
Proof.
  apply (short_documents_score_at_least_eight (MoreExamples.withLines 150)).
  simpl. lia.
Defined.

(** Every deduction from the structure score comes with a message and
    every such message with a deduction: the structure score is 10
    exactly when the feedback holds no structure warning. *)
Theorem structure_deductions_are_reported m :
  Scores.structure (Evaluation.scores (evaluateMetrics m)) = 10
  <-> existsb isStructureWarning (Evaluation.feedback (evaluateMetrics m)) = false.
Proof.
  unfold evaluateMetrics, lineCountScore, structureScore, progressiveDisclosureScore.
  destruct (Metrics.totalLines m <=? 200), (Metrics.totalLines m <=? 500),
    (Metrics.totalLines m <=? 800), (4 <? Metrics.maxDepth m),
    (Metrics.maxDepth m <=? 3), (30 <? Metrics.sectionCount m),
    (20 <? Metrics.sectionCount m),
    ((0 <? Metrics.avgSectionLength m) && (Metrics.avgSectionLength m <? 15)),
    (linksWellUsed m), (0 <? Metrics.internalLinks m),
    (Metrics.redundancyIndicators m);
    simpl; split; intros H; try reflexivity; try discriminate H.
Qed.

(** ** [extractInternalLinks] *)

Lemma unique_NoDup l : forall seen, NoDup (unique seen l).
Proof.
  induction l as [|x l IH]; intros seen; simpl; [constructor|].
  destruct (existsb (String.eqb x) seen); [apply IH|].
  constructor; [|apply IH].
  intros Hin. apply unique_spec in Hin as (_ & Hn). apply Hn. left.
Qed.

Lemma unique_length l : forall seen, (length (unique seen l) <= length l)%nat.
Proof.
  induction l as [|x l IH]; intros seen; simpl; [lia|].
  destruct (existsb (String.eqb x) seen); [specialize (IH seen) | specialize (IH (x :: seen))];
    simpl; lia.
Qed.

(** The paths [extractInternalLinks] returns are pairwise distinct, and
    there are no more of them than matches of the link pattern in the
    text. *)
Theorem extracted_links_are_distinct e filePath content :
  NoDup (extractInternalLinks e filePath content)
  /\ (length (extractInternalLinks e filePath content)
      <= length (linkMatches content))%nat.
Proof.
  unfold extractInternalLinks. split; [apply unique_NoDup|].
  etransitivity; [apply unique_length|].
  induction (linkMatches content) as [|m l IH]; simpl; [lia|].
  rewrite length_app. unfold linkTarget at 1.
  destruct (_ && _); [destruct (negb _)|]; simpl; lia.
Qed.

(** ** [analyzeDocument]: lines and headings *)

Lemma split_length sep s : (1 <= length (split sep s))%nat.
Proof.
  induction s as [|c s IH]; simpl; [lia|].
  destruct (Ascii.eqb c sep); simpl; [lia|].
  destruct (split sep s); simpl; lia.
Qed.

Lemma filter_length_le {A} (p : A -> bool) (l : list A) :
  (length (List.filter p l) <= length l)%nat.
Proof. induction l as [|x l IH]; simpl; [lia|]. destruct (p x); simpl; lia. Qed.

Lemma filter_firstn_length {A} (p : A -> bool) (n : nat) (l : list A) :
  (length (List.filter p (firstn n l)) <= length (List.filter p l))%nat.
Proof.
  revert n. induction l as [|x l IH]; intros [|n]; simpl; try lia.
  specialize (IH n). destruct (p x); simpl; lia.
Qed.

Lemma filter_length_impl {A} (p q : A -> bool) (l : list A) :
  (forall x, p x = true -> q x = true) ->
  (length (List.filter p l) <= length (List.filter q l))%nat.
Proof.
  intros H. induction l as [|x l IH]; simpl; [lia|].
  destruct (p x) eqn:Hp; [rewrite (H x Hp); simpl; lia|].
  destruct (q x); simpl; lia.
Qed.

(** What a match of the header pattern gives: at least one [#] and a
    title that is not empty; the line is not empty. *)
Lemma headerMatch_Some s d title :
  headerMatch s = Some (d, title) -> (1 <= d)%nat /\ title <> "" /\ s <> "".
Proof.
  unfold headerMatch. intros H.
  assert (Hs : s <> "").
  { intros ->. simpl in H. discriminate. }
  destruct (takeWhile (isChar "#") s) as [|h hs] eqn:Hh; [discriminate|].
  destruct (takeWhile isWhiteSpace _) as [|w ws] eqn:Hw; [discriminate|].
  destruct (dropWhile isWhiteSpace _) as [|t ts] eqn:Ht.
  - destruct (list_ascii_of_string _) as [|c [|c' l]]; try discriminate.
    destruct (isLineTerminator c); inversion H; subst.
    repeat split; [simpl; lia | discriminate | exact Hs].
  - destruct (forallb _ _); inversion H; subst.
    repeat split; [simpl; lia | discriminate | exact Hs].
Qed.

Lemma fold_countLink_headings ms :
  forall t,
    sections (fold_left countLink ms t) = sections t
    /\ maxDepth (fold_left countLink ms t) = maxDepth t
    /\ sectionCount (fold_left countLink ms t) = sectionCount t.
Proof.
  induction ms as [|m ms IH]; intros t; simpl; [auto|].
  destruct (IH (countLink t m)) as (H1 & H2 & H3). rewrite H1, H2, H3. auto.
Qed.

Import Lines.

Lemma visitLine_headings t index line :
  sections (visitLine t index line) = sections (countHeader t index (trim line))
  /\ maxDepth (visitLine t index line) = maxDepth (countHeader t index (trim line))
  /\ sectionCount (visitLine t index line)
     = sectionCount (countHeader t index (trim line)).
Proof. unfold visitLine. apply fold_countLink_headings. Qed.

Lemma forEachLine_sectionCount lines :
  forall t index,
    sectionCount (forEachLine t index lines)
    = sectionCount t + Z.of_nat (length (List.filter isHeadingLine lines)).
Proof.
  induction lines as [|line rest IH]; intros t index; simpl; [lia|].
  rewrite IH. destruct (visitLine_headings t index line) as (_ & _ & ->).
  unfold countHeader, isHeadingLine.
  destruct (headerMatch (trim line)) as [[d title]|]; simpl; lia.
Qed.

Lemma heading_is_nonEmpty line : isHeadingLine line = true -> nonEmpty line = true.
Proof.
  unfold isHeadingLine, nonEmpty. intros H.
  destruct (headerMatch (trim line)) as [[d title]|] eqn:Hm; [|discriminate].
  apply headerMatch_Some in Hm as (_ & _ & Hne).
  destruct (String.eqb_spec (trim line) ""); [contradiction|reflexivity].
Qed.

(** The line counts of [analyzeDocument]: a document has at least one
    line, the non-empty lines are among the lines, the front-loaded
    content is among the non-empty lines, and every heading is a
    non-empty line. *)
Theorem line_counts_are_nested content :
  let m := metricsOf content in
  1 <= Metrics.totalLines m
  /\ 0 <= Metrics.nonEmptyLines m <= Metrics.totalLines m
  /\ 0 <= Metrics.frontLoadedContent m <= Metrics.nonEmptyLines m
  /\ 0 <= Metrics.sectionCount m <= Metrics.nonEmptyLines m.
Proof.
  unfold metricsOf. cbn [Metrics.totalLines Metrics.nonEmptyLines
    Metrics.frontLoadedContent Metrics.sectionCount].
  set (lines := split newline content).
  pose proof (split_length newline content) as H1. fold lines in H1.
  pose proof (filter_length_le nonEmpty lines) as H2.
  rewrite forEachLine_sectionCount. cbn [sectionCount emptyTally].
  pose proof (filter_length_impl isHeadingLine nonEmpty lines heading_is_nonEmpty) as H3.
  match goal with |- context [firstn ?n lines] =>
    pose proof (filter_firstn_length nonEmpty n lines) as H4 end.
  lia.
Qed.

(** The invariant of the [forEach] over the lines, after [index] lines. *)
Lemma forEachLine_headings lines :
  forall t index,
    sectionCount t = Z.of_nat (length (sections t)) ->
    0 <= maxDepth t ->
    Forall (fun h => 1 <= Heading.depth h <= maxDepth t
                     /\ 1 <= Heading.lineNumber h <= Z.of_nat index
                     /\ Heading.title h <> "") (sections t) ->
    (sections t = [] -> maxDepth t = 0) ->
    (sections t <> [] -> exists h, h ∈ sections t /\ Heading.depth h = maxDepth t) ->
    inDocumentOrder (sections t) ->
    let t' := forEachLine t index lines in
    let n := Z.of_nat (index + length lines) in
    sectionCount t' = Z.of_nat (length (sections t'))
    /\ Forall (fun h => 1 <= Heading.depth h <= maxDepth t'
                        /\ 1 <= Heading.lineNumber h <= n
                        /\ Heading.title h <> "") (sections t')
    /\ (sections t' = [] -> maxDepth t' = 0)
    /\ (sections t' <> [] -> exists h, h ∈ sections t' /\ Heading.depth h = maxDepth t')
    /\ inDocumentOrder (sections t').
Proof.
  induction lines as [|line rest IH]; intros t index Hc Hd Hall He Hne Hs.
  - simpl. rewrite Nat.add_0_r. auto.
  - cbn [forEachLine length].
    replace (index + S (length rest))%nat with (S index + length rest)%nat by lia.
    destruct (visitLine_headings t index line) as (E1 & E2 & E3).
    apply IH; rewrite ?E1, ?E2, ?E3; clear IH E1 E2 E3; unfold countHeader;
      destruct (headerMatch (trim line)) as [[d title]|] eqn:Hm;
      cbn [sections maxDepth sectionCount]; auto;
      try (apply headerMatch_Some in Hm as (Hd1 & Htitle & _)).
    + rewrite length_app. simpl. lia.
    + lia.
    + apply Forall_app. split.
      * eapply Forall_impl; [exact Hall|]. simpl. intros h (? & ? & ?).
        repeat split; auto; lia.
      * constructor; [|constructor]. simpl. repeat split; auto; lia.
    + eapply Forall_impl; [exact Hall|]. simpl. intros h (? & ? & ?).
      repeat split; auto; lia.
    + intros Habs. destruct (sections t); discriminate Habs.
    + intros _. destruct (Z.max_spec (maxDepth t) (Z.of_nat d)) as [(Hlt & ->)|(Hge & ->)].
      * eexists. split; [apply elem_of_app; right; left|].
        reflexivity.
      * destruct (sections t) as [|h0 l0] eqn:Hsec.
        { specialize (He eq_refl). lia. }
        destruct Hne as (h & Hin & Hh); [discriminate|].
        exists h. split; [apply elem_of_app; left; exact Hin | exact Hh].
    + unfold inDocumentOrder in *.
      clear Hne He Hc.
      induction (sections t) as [|h l IHl]; simpl.
      * constructor; constructor.
      * apply StronglySorted_inv in Hs as (Hs1 & Hs2).
        apply Forall_cons in Hall as (Hh & Hall).
        constructor; [apply IHl; auto|].
        apply Forall_app. split; [exact Hs2|].
        constructor; [|constructor]. simpl. lia.
Qed.

(** The headings [analyzeDocument] records: [sectionCount] is their
    number, each has a depth between 1 and [maxDepth], a line number
    within the document and a title that is not empty, [maxDepth] is 0
    without headings and the depth of one of them otherwise, and they
    come in the order of the document. *)
Theorem headings_are_consistent content :
  let m := metricsOf content in
  Metrics.sectionCount m = Z.of_nat (length (Metrics.sections m))
  /\ Forall (fun h => 1 <= Heading.depth h <= Metrics.maxDepth m
                      /\ 1 <= Heading.lineNumber h <= Metrics.totalLines m
                      /\ Heading.title h <> "") (Metrics.sections m)
  /\ (Metrics.sections m = [] -> Metrics.maxDepth m = 0)
  /\ (Metrics.sections m <> [] ->
      exists h, h ∈ Metrics.sections m /\ Heading.depth h = Metrics.maxDepth m)
  /\ inDocumentOrder (Metrics.sections m).
Proof.
  unfold metricsOf. cbn [Metrics.totalLines Metrics.sections Metrics.maxDepth
    Metrics.sectionCount].
  apply (forEachLine_headings (split newline content) emptyTally 0); simpl; auto.
  - lia.
  - intros H; contradiction.
  - constructor.
Qed.

(** ** [analyzeDocument]: repeated phrases *)

Lemma elem_of_map {A B} (f : A -> B) (l : list A) (y : B) :
  y ∈ map f l <-> exists x, y = f x /\ x ∈ l.
Proof.
  rewrite list_elem_of_In, List.in_map_iff.
  split; intros (x & H1 & H2); exists x; [apply list_elem_of_In in H2 | apply list_elem_of_In in H2]; auto.
Qed.

Lemma bump_keys key counts :
  forall k, k ∈ map fst (bump key counts) <-> k = key \/ k ∈ map fst counts.
Proof.
  induction counts as [|[k0 n0] rest IH]; intros k; simpl.
  - rewrite list_elem_of_singleton. split; [auto|]. intros [->|H]; [reflexivity|].
    inversion H.
  - destruct (String.eqb_spec k0 key) as [->|Hne]; simpl.
    + rewrite elem_of_cons. tauto.
    + rewrite !elem_of_cons, IH. tauto.
Qed.

Lemma bump_NoDup key counts :
  NoDup (map fst counts) -> NoDup (map fst (bump key counts)).
Proof.
  induction counts as [|[k0 n0] rest IH]; simpl; intros H.
  - constructor; [inversion 1 | constructor].
  - apply NoDup_cons in H as (Hn & Hrest).
    destruct (String.eqb_spec k0 key) as [->|Hne]; simpl.
    + constructor; assumption.
    + constructor; [|apply IH; exact Hrest].
      rewrite bump_keys. intros [->|Hin]; [congruence | contradiction].
Qed.

Lemma phraseCount_NoDup phrases :
  forall acc, NoDup (map fst acc) ->
    NoDup (map fst (fold_left (fun acc phrase => bump (toLowerCase phrase) acc) phrases acc)).
Proof.
  induction phrases as [|p rest IH]; intros acc H; simpl; [exact H|].
  apply IH, bump_NoDup, H.
Qed.

Lemma phraseCount_keys phrases :
  forall acc k,
    k ∈ map fst (fold_left (fun acc phrase => bump (toLowerCase phrase) acc) phrases acc) ->
    k ∈ map fst acc \/ k ∈ map toLowerCase phrases.
Proof.
  induction phrases as [|p rest IH]; intros acc k H; simpl in *; [auto|].
  apply IH in H as [H|H].
  - apply bump_keys in H as [->|H]; [right; left | left; exact H].
  - right. right. exact H.
Qed.

Lemma insertByCount_elem x l y : y ∈ insertByCount x l <-> y = x \/ y ∈ l.
Proof.
  induction l as [|z rest IH]; simpl.
  - rewrite list_elem_of_singleton. split; [auto|]. intros [->|H]; [reflexivity|inversion H].
  - destruct (snd x <? snd z); rewrite !elem_of_cons, ?IH; tauto.
Qed.

Lemma insertByCount_sorted x l :
  byDescendingCount l -> byDescendingCount (insertByCount x l).
Proof.
  unfold byDescendingCount.
  induction l as [|z rest IH]; simpl; intros H.
  - constructor; constructor.
  - apply StronglySorted_inv in H as H'. destruct H' as (Hrest & Hz).
    destruct (snd x <? snd z) eqn:Hlt.
    + apply Z.ltb_lt in Hlt. constructor; [apply IH; exact Hrest|].
      apply List.Forall_forall. intros y Hy.
      apply list_elem_of_In, insertByCount_elem in Hy as [->|Hy]; [lia|].
      rewrite List.Forall_forall in Hz. apply Hz, list_elem_of_In, Hy.
    + apply Z.ltb_ge in Hlt. constructor; [exact H|].
      constructor; [exact Hlt|].
      eapply List.Forall_impl; [|exact Hz]. simpl. intros; lia.
Qed.

Lemma sortByCount_sorted l : byDescendingCount (sortByCount l).
Proof.
  induction l as [|x l IH]; simpl; [constructor|].
  apply insertByCount_sorted, IH.
Qed.

Lemma sortByCount_elem l y : y ∈ sortByCount l <-> y ∈ l.
Proof.
  induction l as [|x l IH]; simpl; [reflexivity|].
  rewrite insertByCount_elem, elem_of_cons, IH. reflexivity.
Qed.

Lemma insertByCount_NoDup x l :
  fst x ∉ map fst l -> NoDup (map fst l) -> NoDup (map fst (insertByCount x l)).
Proof.
  induction l as [|z rest IH]; simpl; intros Hx Hl.
  - constructor; [inversion 1 | constructor].
  - destruct (snd x <? snd z); simpl.
    + apply NoDup_cons in Hl as (Hz & Hrest).
      rewrite not_elem_of_cons in Hx. destruct Hx as (Hxz & Hx).
      constructor; [|apply IH; assumption].
      rewrite elem_of_map. intros (y & Hy1 & Hy2).
      apply insertByCount_elem in Hy2 as [->|Hy2]; [congruence|].
      apply Hz, elem_of_map. exists y. split; assumption.
    + constructor; assumption.
Qed.

Lemma sortByCount_NoDup l : NoDup (map fst l) -> NoDup (map fst (sortByCount l)).
Proof.
  induction l as [|x l IH]; simpl; intros H; [constructor|].
  apply NoDup_cons in H as (Hx & Hl).
  apply insertByCount_NoDup; [|apply IH, Hl].
  rewrite elem_of_map. intros (y & Hy1 & Hy2).
  apply (proj1 (sortByCount_elem _ _)) in Hy2. apply Hx, elem_of_map. exists y. split; assumption.
Qed.

Lemma firstn_In_list {A} (l : list A) (n : nat) (x : A) :
  List.In x (firstn n l) -> List.In x l.
Proof.
  revert n. induction l as [|y l IH]; intros [|n]; simpl; try tauto.
  intros [H|H]; [left; exact H | right; eapply IH, H].
Qed.

Lemma filter_keys_NoDup (p : string * Z -> bool) l :
  NoDup (map fst l) -> NoDup (map fst (List.filter p l)).
Proof.
  induction l as [|x l IH]; simpl; intros H; [constructor|].
  apply NoDup_cons in H as (Hx & Hl).
  destruct (p x); simpl; [|apply IH, Hl].
  constructor; [|apply IH, Hl].
  rewrite elem_of_map. intros (y & Hy1 & Hy2).
  apply list_elem_of_In, List.filter_In in Hy2 as (Hy2 & _).
  apply Hx, elem_of_map. exists y. split; [exact Hy1 | apply list_elem_of_In, Hy2].
Qed.

Lemma firstn_keys_NoDup n (l : list (string * Z)) :
  NoDup (map fst l) -> NoDup (map fst (firstn n l)).
Proof.
  revert n. induction l as [|x l IH]; intros [|n]; simpl; intros H; try constructor.
  - apply NoDup_cons in H as (Hx & Hl).
    rewrite elem_of_map. intros (y & Hy1 & Hy2).
    apply Hx, elem_of_map. exists y. split; [exact Hy1|].
    apply list_elem_of_In. eapply firstn_In_list. apply list_elem_of_In, Hy2.
  - apply IH. apply NoDup_cons in H as (_ & Hl). exact Hl.
Qed.

Lemma firstn_sorted n (l : list (string * Z)) :
  byDescendingCount l -> byDescendingCount (firstn n l).
Proof.
  unfold byDescendingCount.
  revert n. induction l as [|x l IH]; intros [|n]; simpl; intros H; try constructor.
  - apply IH. apply StronglySorted_inv in H as (H & _). exact H.
  - apply StronglySorted_inv in H as (_ & H).
    rewrite List.Forall_forall in *. intros y Hy. apply H.
    eapply firstn_In_list, Hy.
Qed.

Lemma countOf_bump key counts k :
  countOf k (bump key counts)
  = countOf k counts + (if String.eqb key k then 1 else 0).
Proof.
  induction counts as [|[k0 n0] rest IH]; simpl.
  - destruct (String.eqb key k); reflexivity.
  - destruct (String.eqb_spec k0 key) as [->|Hne]; simpl.
    + destruct (String.eqb key k); lia.
    + destruct (String.eqb_spec k0 k) as [->|Hk].
      * destruct (String.eqb_spec key k) as [->|_]; [contradiction Hne; reflexivity | lia].
      * exact IH.
Qed.

Lemma countOf_phraseCount phrases k :
  forall acc,
    countOf k (fold_left (fun acc phrase => bump (toLowerCase phrase) acc) phrases acc)
    = countOf k acc
      + Z.of_nat (length (List.filter (String.eqb k) (map toLowerCase phrases))).
Proof.
  induction phrases as [|p rest IH]; intros acc; simpl; [lia|].
  rewrite IH, countOf_bump. rewrite (String.eqb_sym k).
  destruct (String.eqb (toLowerCase p) k); simpl; lia.
Qed.

Lemma countOf_entry counts k n :
  NoDup (map fst counts) -> (k, n) ∈ counts -> countOf k counts = n.
Proof.
  induction counts as [|[k0 n0] rest IH]; simpl; intros Hnd Hin; [inversion Hin|].
  apply NoDup_cons in Hnd as (Hk0 & Hnd).
  apply elem_of_cons in Hin as [Heq|Hin].
  - injection Heq as -> ->. rewrite String.eqb_refl. reflexivity.
  - destruct (String.eqb_spec k0 k) as [->|_]; [|apply IH; assumption].
    exfalso. apply Hk0, elem_of_map. exists (k, n). split; [reflexivity | exact Hin].
Qed.

Lemma phraseCount_has phrases k :
  forall acc,
    k ∈ map fst acc \/ k ∈ map toLowerCase phrases ->
    k ∈ map fst (fold_left (fun acc phrase => bump (toLowerCase phrase) acc) phrases acc).
Proof.
  induction phrases as [|p rest IH]; intros acc H; simpl in *.
  - destruct H as [H|H]; [exact H | inversion H].
  - apply IH. destruct H as [H|H].
    + left. apply bump_keys. right. exact H.
    + apply elem_of_cons in H as [->|H]; [left; apply bump_keys; left; reflexivity | right; exact H].
Qed.

Lemma filter_nonempty_elem (k : string) (l : list string) :
  (0 < length (List.filter (String.eqb k) l))%nat -> k ∈ l.
Proof.
  induction l as [|x l IH]; simpl; [lia|].
  destruct (String.eqb_spec k x) as [->|_]; [intros _; left | intros H; right; apply IH, H].
Qed.

Lemma sorted_app_le (l1 l2 : list (string * Z)) :
  byDescendingCount (l1 ++ l2) ->
  forall a b, a ∈ l1 -> b ∈ l2 -> snd b <= snd a.
Proof.
  unfold byDescendingCount. induction l1 as [|x l1 IH]; simpl; intros H a b Ha Hb.
  - inversion Ha.
  - apply StronglySorted_inv in H as (Hrest & Hx).
    apply elem_of_cons in Ha as [->|Ha]; [|eapply IH; eauto].
    rewrite List.Forall_forall in Hx. apply Hx, list_elem_of_In, elem_of_app. right. exact Hb.
Qed.

(** The repeated phrases [analyzeDocument] reports, against the
    lower-cased matches of the three-word pattern in the text: a
    reported phrase is one of them, its count is the number of its
    occurrences among them and is at least 3; no phrase is reported
    twice; the list is by
    descending count and has at most five entries; and a phrase that
    occurs at least three times is left out only when five phrases are
    reported, none of them with a smaller count. *)
Theorem redundancy_indicators_are_top_five content :
  let l := Metrics.redundancyIndicators (metricsOf content) in
  (length l <= 5)%nat
  /\ Forall (fun kv => snd kv = occurrences (fst kv) content
                       /\ 3 <= snd kv
                       /\ fst kv ∈ map toLowerCase (phraseMatches content)) l
  /\ NoDup (map fst l)
  /\ byDescendingCount l
  /\ (forall phrase,
        3 <= occurrences phrase content ->
        phrase ∈ map fst l
        \/ (length l = 5%nat
            /\ Forall (fun kv => occurrences phrase content <= snd kv) l)).
Proof.
  unfold metricsOf. cbn [Metrics.redundancyIndicators]. unfold redundancy, occurrences.
  set (counts := fold_left _ (phraseMatches content) []).
  assert (Hnd : NoDup (map fst counts)) by (apply phraseCount_NoDup; constructor).
  assert (Hcount : forall k n, (k, n) ∈ counts ->
            n = Z.of_nat (length (List.filter (String.eqb k)
                                    (map toLowerCase (phraseMatches content))))).
  { intros k n Hin. rewrite <- (countOf_entry counts k n Hnd Hin).
    unfold counts. rewrite countOf_phraseCount. simpl. lia. }
  set (kept := List.filter (fun kv : string * Z => 3 <=? snd kv) counts).
  split; [rewrite List.length_firstn; lia|].
  split; [|split; [|split]].
  - apply List.Forall_forall. intros [k n] Hkv.
    apply firstn_In_list, list_elem_of_In in Hkv.
    apply (proj1 (sortByCount_elem _ _)), list_elem_of_In, List.filter_In in Hkv as (Hin & H3).
    simpl in *. apply Z.leb_le in H3.
    pose proof (Hcount k n (proj2 (list_elem_of_In _ _) Hin)) as Hn.
    split; [exact Hn|]. split; [exact H3|].
    apply filter_nonempty_elem. lia.
  - apply firstn_keys_NoDup, sortByCount_NoDup, filter_keys_NoDup, Hnd.
  - apply firstn_sorted, sortByCount_sorted.
  - intros phrase H3.
    assert (Hkey : phrase ∈ map fst counts).
    { apply phraseCount_has. right. apply filter_nonempty_elem. lia. }
    apply elem_of_map in Hkey as ([k n] & Hk & Hin). simpl in Hk. subst k.
    pose proof (Hcount _ _ Hin) as Hn.
    assert (Hkept : (phrase, n) ∈ sortByCount kept).
    { apply sortByCount_elem, list_elem_of_In, List.filter_In.
      split; [apply list_elem_of_In, Hin | simpl; apply Z.leb_le; lia]. }
    pose proof (sortByCount_sorted kept) as Hsorted.
    rewrite <- (List.firstn_skipn 5 (sortByCount kept)) in Hkept, Hsorted.
    apply elem_of_app in Hkept as [Hfirst|Hlast].
    + left. apply elem_of_map. exists (phrase, n). split; [reflexivity | exact Hfirst].
    + right. split.
      * rewrite List.length_firstn.
        assert (0 < length (skipn 5 (sortByCount kept)))%nat
          by (destruct (skipn 5 (sortByCount kept)); [inversion Hlast | simpl; lia]).
        rewrite List.length_skipn in H. lia.
      * apply List.Forall_forall. intros kv Hkv. rewrite <- Hn.
        apply (sorted_app_le _ _ Hsorted kv (phrase, n)); [apply list_elem_of_In, Hkv | exact Hlast].
Qed.

(** ** The command line *)

Lemma limitFrom_positive old value : 1 <= old -> 1 <= Cli.limitFrom old value.
Proof.
  unfold Cli.limitFrom. intros H.
  destruct (Cli.parseInt value) as [| |z]; try exact H.
  destruct (0 <? z) eqn:Hz; [apply Z.ltb_lt in Hz; lia | exact H].
Qed.

Lemma step_limits o a next :
  1 <= Cli.maxAgents o /\ 1 <= Cli.linkMaxDepth o /\ 1 <= Cli.linkMaxCount o ->
  let o' := fst (Cli.step o a next) in
  1 <= Cli.maxAgents o' /\ 1 <= Cli.linkMaxDepth o' /\ 1 <= Cli.linkMaxCount o'.
Proof.
  intros (H1 & H2 & H3). unfold Cli.step.
  destruct next as [v|];
    repeat match goal with |- context [if ?b then _ else _] => destruct b end;
    cbn; auto using limitFrom_positive.
Qed.

Lemma parseArgs_limits args :
  forall o skip,
    1 <= Cli.maxAgents o /\ 1 <= Cli.linkMaxDepth o /\ 1 <= Cli.linkMaxCount o ->
    let o' := Cli.parseArgs o skip args in
    1 <= Cli.maxAgents o' /\ 1 <= Cli.linkMaxDepth o' /\ 1 <= Cli.linkMaxCount o'.
Proof.
  induction args as [|a rest IH]; intros o skip H; simpl; [exact H|].
  destruct skip; [apply IH, H|].
  pose proof (step_limits o a (List.head rest) H) as Hs.
  destruct (Cli.step o a (List.head rest)) as [o' skipNext]. apply IH, Hs.
Qed.

Import CliSpec.

Lemma limitFrom_reads old value :
  (forall z, reads value z -> Cli.limitFrom old value = z)
  /\ ((forall z, ~ reads value z) -> Cli.limitFrom old value = old).
Proof.
  unfold Cli.limitFrom, reads. split.
  - intros z (-> & Hz). apply Z.ltb_lt in Hz. rewrite Hz. reflexivity.
  - intros H. destruct (Cli.parseInt value) as [| |z]; try reflexivity.
    destruct (Z.ltb_spec 0 z) as [Hz|_]; [|reflexivity].
    exfalso. apply (H z). split; [reflexivity | exact Hz].
Qed.

Lemma limitFrom_cases old value :
  Cli.limitFrom old value = old \/ reads value (Cli.limitFrom old value).
Proof.
  unfold Cli.limitFrom, reads.
  destruct (Cli.parseInt value) as [| |z]; auto.
  destruct (Z.ltb_spec 0 z); auto.
Qed.

Ltac step_cases :=
  intros o a next; unfold Cli.step;
  destruct next as [v|];
  repeat match goal with
         | |- context [if String.eqb ?x ?y then _ else _] =>
             destruct (String.eqb_spec x y)
         | |- context [if ?b then _ else _] => destruct b
         end;
  cbn; auto;
  match goal with
  | |- Cli.limitFrom ?old ?v = _ \/ _ =>
      destruct (limitFrom_cases old v); [left; assumption | right; eauto]
  end.

Lemma step_maxAgents : changesOnlyBy Cli.maxAgents "--max-agents".
Proof. step_cases. Qed.

Lemma step_linkMaxDepth : changesOnlyBy Cli.linkMaxDepth "--max-depth".
Proof. step_cases. Qed.

Lemma step_linkMaxCount : changesOnlyBy Cli.linkMaxCount "--max-count".
Proof. step_cases. Qed.

Lemma given_later flag a args z : given flag args z -> given flag (a :: args) z.
Proof.
  intros (before & value & after & -> & H).
  exists (a :: before), value, after. split; [reflexivity | exact H].
Qed.

Lemma parseArgs_given limit flag (Hstep : changesOnlyBy limit flag) args :
  forall o skip,
    limit (Cli.parseArgs o skip args) = limit o
    \/ given flag args (limit (Cli.parseArgs o skip args)).
Proof.
  induction args as [|a rest IH]; intros o skip; simpl; [left; reflexivity|].
  destruct skip.
  - destruct (IH o false) as [H|H]; [left; exact H | right; apply given_later, H].
  - pose proof (Hstep o a (List.head rest)) as Hs.
    destruct (Cli.step o a (List.head rest)) as [o' skipNext]. simpl in Hs.
    destruct (IH o' skipNext) as [H|H]; [|right; apply given_later, H].
    rewrite H. destruct Hs as [Hs|(-> & value & Hnext & Hreads)]; [left; exact Hs|].
    right. destruct rest as [|v after]; [discriminate Hnext|].
    injection Hnext as ->. exists [], value, after. split; [reflexivity | exact Hreads].
Qed.

(** Whatever the arguments, the three limits [main] works with are
    integers of at least 1, and each is its default (200 agents, depth
    1, 10 files) or a positive finite number read from an argument that
    follows its flag.  In the iteration for [--max-agents],
    [--max-depth] or [--max-count], a value that reads as a positive
    finite number becomes the limit, and a value that does not (not a
    number, not finite or not positive) leaves the limit as it was. *)
Theorem limits_are_at_least_one args :
  let o := Cli.parseOptions args in
  (1 <= Cli.maxAgents o /\ 1 <= Cli.linkMaxDepth o /\ 1 <= Cli.linkMaxCount o)
  /\ (Cli.maxAgents o = 200 \/ given "--max-agents" args (Cli.maxAgents o))
  /\ (Cli.linkMaxDepth o = 1 \/ given "--max-depth" args (Cli.linkMaxDepth o))
  /\ (Cli.linkMaxCount o = 10 \/ given "--max-count" args (Cli.linkMaxCount o))
  /\ (forall before value,
        let a := fst (Cli.step before "--max-agents" (Some value)) in
        let d := fst (Cli.step before "--max-depth" (Some value)) in
        let c := fst (Cli.step before "--max-count" (Some value)) in
        (forall z, reads value z ->
           Cli.maxAgents a = z /\ Cli.linkMaxDepth d = z /\ Cli.linkMaxCount c = z)
        /\ ((forall z, ~ reads value z) ->
            Cli.maxAgents a = Cli.maxAgents before
            /\ Cli.linkMaxDepth d = Cli.linkMaxDepth before
            /\ Cli.linkMaxCount c = Cli.linkMaxCount before)).
Proof.
  cbv zeta. split; [apply parseArgs_limits; cbn; lia|].
  split; [apply (parseArgs_given Cli.maxAgents _ step_maxAgents args Cli.initial false)|].
  split; [apply (parseArgs_given Cli.linkMaxDepth _ step_linkMaxDepth args Cli.initial false)|].
  split; [apply (parseArgs_given Cli.linkMaxCount _ step_linkMaxCount args Cli.initial false)|].
  intros before value. cbn.
  split.
  - intros z Hz.
    repeat split; apply (proj1 (limitFrom_reads _ value)), Hz.
  - intros Hno.
    repeat split; apply (proj2 (limitFrom_reads _ value)), Hno.
Qed.

Lemma step_filePath o a next :
  Cli.filePath (fst (Cli.step o a next)) = Cli.filePath o
  \/ (Cli.unset (Cli.filePath o) = true
      /\ Cli.filePath (fst (Cli.step o a next)) = Some a).
Proof.
  unfold Cli.step.
  destruct next as [v|];
    repeat match goal with |- context [if ?b then _ else _] => destruct b eqn:? end;
    cbn; auto.
Qed.

(** Once the loop has taken a non-empty argument for the file path, no
    later argument replaces it. *)
Theorem first_file_path_is_kept o skip args
  (H : Cli.unset (Cli.filePath o) = false) :
  Cli.filePath (Cli.parseArgs o skip args) = Cli.filePath o.
Proof.
  revert o skip H.
  induction args as [|a rest IH]; intros o skip H; simpl; [reflexivity|].
  destruct skip; [apply IH, H|].
  destruct (step_filePath o a (List.head rest)) as [Hs|(Hs & _)]; [|congruence].
  destruct (Cli.step o a (List.head rest)) as [o' skipNext]. simpl in Hs.
  rewrite IH; [exact Hs | rewrite Hs; exact H].
Qed.

Lemma first_file_path_witness :
  Cli.filePath (Cli.parseOptions ["--format"; "summary"; "a.md"; "b.md"; "--max-count"; "3"])
  = Some "a.md".
Proof.
  change (Cli.parseOptions ["--format"; "summary"; "a.md"; "b.md"; "--max-count"; "3"])
    with (Cli.parseArgs (fst (Cli.step (fst (Cli.step Cli.initial "--format" (Some "summary")))
                                       "a.md" (Some "b.md")))
                        false ["b.md"; "--max-count"; "3"]).
  rewrite (first_file_path_is_kept _ false ["b.md"; "--max-count"; "3"]); reflexivity.
Defined.

Lemma parseArgs_filePath_from args :
  forall o skip p,
    Cli.filePath (Cli.parseArgs o skip args) = Some p ->
    Cli.filePath o = Some p \/ p ∈ args.
Proof.
  induction args as [|a rest IH]; intros o skip p H; simpl in H; [auto|].
  destruct skip.
  - apply IH in H as [H|H]; [auto | right; right; exact H].
  - destruct (step_filePath o a (List.head rest)) as [Hs|(_ & Hs)];
      destruct (Cli.step o a (List.head rest)) as [o' skipNext]; simpl in Hs;
      apply IH in H as [H|H]; try (right; right; exact H).
    + left. congruence.
    + right. assert (a = p) as -> by congruence. left.
Qed.

(** [main] goes on past its argument checks only without [--help] and
    [-h] among the arguments, with a file path that is not empty and is
    one of the arguments, and with the options the loop has read. *)
Theorem main_proceeds_with_an_argument args o p
  (H : Cli.begin args = Cli.Proceed o p) :
  o = Cli.parseOptions args
  /\ Cli.filePath o = Some p /\ p <> "" /\ p ∈ args
  /\ ("--help" ∉ args) /\ ("-h" ∉ args).
Proof.
  unfold Cli.begin in H.
  destruct (existsb Cli.isHelp args) eqn:Hhelp; [discriminate|].
  destruct args as [|a rest]; [discriminate|].
  destruct (Cli.filePath (Cli.parseOptions (a :: rest))) as [q|] eqn:Hq; [|discriminate].
  destruct (String.eqb_spec q ""); [discriminate|].
  injection H as <- <-.
  assert (Hno : forall x, x ∈ a :: rest -> Cli.isHelp x = false).
  { intros x Hx. destruct (Cli.isHelp x) eqn:Hx'; [|reflexivity].
    assert (existsb Cli.isHelp (a :: rest) = true); [|congruence].
    apply List.existsb_exists. exists x. split; [apply list_elem_of_In, Hx | exact Hx']. }
  repeat split; auto.
  - apply parseArgs_filePath_from in Hq as [Hq|Hq]; [discriminate Hq | exact Hq].
  - intros Hin. apply Hno in Hin. discriminate Hin.
  - intros Hin. apply Hno in Hin. discriminate Hin.
Qed.

Lemma main_proceeds_witness :
  match Cli.begin ["--include-links"; "docs/AGENTS.md"; "--max-depth"; "2"] with
  | Cli.Proceed o p => Cli.filePath o = Some p /\ p <> ""
  | Cli.Exit _ => False
  end.
Proof.
  destruct (Cli.begin ["--include-links"; "docs/AGENTS.md"; "--max-depth"; "2"])
    as [code|o p] eqn:H.
  - vm_compute in H. discriminate H.
  - apply main_proceeds_with_an_argument in H as (_ & H1 & H2 & _). auto.
Defined.

(** ** Tree mode: the nearest parent convention file *)

Import NodePathMore Tree.

Lemma rev_app_length s : forall acc,
  String.length (String.rev_app s acc) = (String.length s + String.length acc)%nat.
Proof.
  induction s as [|c s IH]; intros acc; simpl; [reflexivity|].
  rewrite IH. simpl. lia.
Qed.

Lemma rev_length s : String.length (rev s) = String.length s.
Proof. unfold rev, String.rev. rewrite rev_app_length. simpl. lia. Qed.

Lemma dropWhile_length p s : (String.length (dropWhile p s) <= String.length s)%nat.
Proof.
  induction s as [|c s IH]; simpl; [lia|].
  destruct (p c); simpl; lia.
Qed.

(** [path.dirname] on an absolute path: the path itself (the root), or
    a shorter absolute path. *)
Lemma dirname_absolute tl :
  let p := String "/" tl in
  NodePath.dirname p = p
  \/ (exists tl', NodePath.dirname p = String "/" tl'
      /\ (String.length tl' < String.length tl)%nat).
Proof.
  simpl. unfold NodePath.dirname.
  change (NodePath.isSlash "/") with true. cbv iota.
  pose proof (rev_length tl) as Hrev.
  pose proof (dropWhile_length NodePath.isSlash (rev tl)) as H1.
  destruct (dropWhile NodePath.isSlash (rev tl)) as [|c1 r1] eqn:E1.
  - destruct tl as [|c tl]; [left; reflexivity|]. right. exists "". simpl. split; [reflexivity|lia].
  - assert (Hc1 : NodePath.isSlash c1 = false).
    { destruct (rev tl) as [|a r]; [discriminate E1|].
      clear -E1. revert E1. generalize (String a r). intros s.
      induction s as [|x s IH]; simpl; [discriminate|].
      destruct (NodePath.isSlash x) eqn:Hx; [exact IH|].
      intros [= -> _]. exact Hx. }
    simpl. rewrite Hc1. simpl. simpl in H1.
    pose proof (dropWhile_length (fun c => negb (NodePath.isSlash c)) r1) as H2.
    destruct (dropWhile (fun c => negb (NodePath.isSlash c)) r1) as [|c3 r3] eqn:E3.
    + destruct tl as [|c tl]; [simpl in H1; lia|]. right. exists "". simpl.
      split; [reflexivity|lia].
    + right. simpl in H2.
      destruct (String.eqb_spec r3 "") as [->|Hne].
      * exists "/". split; [reflexivity|]. simpl in *. lia.
      * exists (rev r3). split; [reflexivity|]. rewrite rev_length. lia.
Qed.

Lemma nearestLoop_returns cwd set root matchFileName :
  forall fuel tl,
    (String.length tl < fuel)%nat ->
    exists r, nearestLoop fuel cwd set root matchFileName (String "/" tl) = Returned r.
Proof.
  induction fuel as [|fuel IH]; intros tl Hlt; [lia|].
  cbn [nearestLoop].
  destruct (String.eqb_spec (NodePath.dirname (String "/" tl)) (String "/" tl)) as [|Hne];
    [eauto|].
  destruct (leavesRoot _ _ _); [eauto|].
  destruct (bool_decide _); [eauto|].
  destruct (dirname_absolute tl) as [Heq|(tl' & Heq & Hlen)]; [contradiction|].
  cbv zeta in Heq. rewrite Heq. apply IH. lia.
Qed.

Lemma resolve_absolute cwd paths : exists tl, NodePath.resolve cwd paths = String "/" tl.
Proof. unfold NodePath.resolve. eexists. reflexivity. Qed.

Import TreeSpec.

Lemma above_shift k dir : above k (NodePath.dirname dir) = above (S k) dir.
Proof.
  induction k as [|k IH]; [reflexivity|].
  change (above (S k) (NodePath.dirname dir))
    with (NodePath.dirname (above k (NodePath.dirname dir))).
  rewrite IH. reflexivity.
Qed.

Lemma searched_parent cwd root dir k :
  searched cwd root dir (S k) -> searched cwd root (NodePath.dirname dir) k.
Proof.
  intros H j Hj. rewrite !above_shift.
  destruct (H (S j)) as (H1 & H2); [lia|].
  replace (S j - 1)%nat with (S (j - 1)) in H1 by lia. auto.
Qed.

Lemma nearestLoop_spec cwd set root matchFileName :
  forall fuel dir r,
    nearestLoop fuel cwd set root matchFileName dir = Returned r ->
    match r with
    | Some c =>
        exists k, (1 <= k)%nat /\ searched cwd root dir k
          /\ c = parentCandidate cwd (above k dir) matchFileName
          /\ c ∈ set
          /\ forall j, (1 <= j < k)%nat ->
               parentCandidate cwd (above j dir) matchFileName ∉ set
    | None =>
        forall k, (1 <= k)%nat -> searched cwd root dir k ->
          parentCandidate cwd (above k dir) matchFileName ∉ set
    end.
Proof.
  induction fuel as [|fuel IH]; intros dir r H; [discriminate H|].
  cbn [nearestLoop] in H.
  destruct (String.eqb_spec (NodePath.dirname dir) dir) as [Heq|Hne].
  { injection H as <-. intros k Hk Hs. destruct (Hs 1%nat) as (Habs & _); [lia|].
    simpl in Habs. contradiction. }
  destruct (leavesRoot cwd root (NodePath.dirname dir)) eqn:Hleave.
  { injection H as <-. intros k Hk Hs. destruct (Hs 1%nat) as (_ & Habs); [lia|].
    simpl in Habs. congruence. }
  destruct (bool_decide _) eqn:Hin.
  { injection H as <-. apply bool_decide_eq_true in Hin.
    exists 1%nat. repeat split; auto.
    - assert (j = 1%nat) as -> by lia. exact Hne.
    - assert (j = 1%nat) as -> by lia. exact Hleave.
    - intros j Hj. lia. }
  apply bool_decide_eq_false in Hin.
  apply IH in H. destruct r as [c|].
  - destruct H as (k & Hk & Hs & Hc & Hset & Hnear).
    exists (S k). rewrite above_shift in Hc. repeat split; auto.
    + destruct (decide (j = 1%nat)) as [->|Hj1]; [exact Hne|].
      destruct (Hs (j - 1)%nat) as (H1 & _); [lia|].
      rewrite !above_shift in H1.
      replace (S (j - 1)) with j in H1 by lia.
      replace (S (j - 1 - 1)) with (j - 1)%nat in H1 by lia. exact H1.
    + destruct (decide (j = 1%nat)) as [->|Hj1]; [exact Hleave|].
      destruct (Hs (j - 1)%nat) as (_ & H2); [lia|].
      rewrite above_shift in H2. replace (S (j - 1)) with j in H2 by lia. exact H2.
    + intros j Hj. destruct (decide (j = 1%nat)) as [->|Hj1]; [exact Hin|].
      specialize (Hnear (j - 1)%nat). rewrite above_shift in Hnear.
      replace (S (j - 1)) with j in Hnear by lia. apply Hnear. lia.
  - intros k Hk Hs. destruct k as [|[|k]]; [lia | exact Hin |].
    rewrite <- above_shift. apply H; [lia|]. apply searched_parent, Hs.
Qed.

(** The search for the nearest parent convention file always ends with
    an answer. *)
Theorem nearest_parent_search_ends cwd conventionFilePath conventionFileSet
    rootDir matchFileName :
  exists r,
    findNearestParentConventionFile cwd conventionFilePath conventionFileSet
      rootDir matchFileName = Returned r.
Proof.
  unfold findNearestParentConventionFile.
  destruct (String.eqb _ _); [eauto|].
  destruct (resolve_absolute cwd [conventionFilePath]) as (tl & ->).
  destruct (dirname_absolute tl) as [Heq|(tl' & Heq & Hlen)]; cbv zeta in Heq; rewrite Heq.
  - apply nearestLoop_returns. simpl. lia.
  - apply nearestLoop_returns. simpl. lia.
Qed.

(** A parent convention file that is found is in the set, belongs to a
    directory strictly above the one of the file, reached without
    leaving the root, and no directory between the two carries a file
    of the set: it is the nearest one. *)
Theorem found_parent_is_the_nearest cwd conventionFilePath conventionFileSet
    rootDir matchFileName parent
  (H : findNearestParentConventionFile cwd conventionFilePath conventionFileSet
         rootDir matchFileName = Returned (Some parent)) :
  let dir := NodePath.dirname (NodePath.resolve cwd [conventionFilePath]) in
  dir <> NodePath.resolve cwd [rootDir]
  /\ parent ∈ conventionFileSet
  /\ exists k, (1 <= k)%nat
       /\ parent = parentCandidate cwd (above k dir) matchFileName
       /\ searched cwd (NodePath.resolve cwd [rootDir]) dir k
       /\ forall j, (1 <= j < k)%nat ->
            parentCandidate cwd (above j dir) matchFileName ∉ conventionFileSet.
Proof.
  unfold findNearestParentConventionFile in H. cbv zeta.
  destruct (String.eqb_spec (NodePath.dirname (NodePath.resolve cwd [conventionFilePath]))
              (NodePath.resolve cwd [rootDir])) as [|Hne]; [discriminate H|].
  apply nearestLoop_spec in H as (k & Hk & Hs & Hc & Hset & Hnear).
  split; [exact Hne|]. split; [exact Hset|]. exists k. auto.
Qed.

(** When no parent is reported, the file sits directly in the root
    directory, or none of the directories the loop gets to look at
    carries a file of the set: these are the directories above the one
    of the file, as long as each differs from the one below it and
    [path.relative] from the root to it does not start with two dots. *)
Theorem no_parent_means_none_in_reach cwd conventionFilePath conventionFileSet
    rootDir matchFileName
  (H : findNearestParentConventionFile cwd conventionFilePath conventionFileSet
         rootDir matchFileName = Returned None) :
  let dir := NodePath.dirname (NodePath.resolve cwd [conventionFilePath]) in
  dir = NodePath.resolve cwd [rootDir]
  \/ forall k, (1 <= k)%nat ->
       searched cwd (NodePath.resolve cwd [rootDir]) dir k ->
       parentCandidate cwd (above k dir) matchFileName ∉ conventionFileSet.
Proof.
  unfold findNearestParentConventionFile in H. cbv zeta.
  destruct (String.eqb_spec (NodePath.dirname (NodePath.resolve cwd [conventionFilePath]))
              (NodePath.resolve cwd [rootDir])) as [Heq|Hne]; [left; exact Heq|].
  right. apply nearestLoop_spec in H. exact H.
Qed.

Lemma found_parent_witness :
  match findNearestParentConventionFile "/r" "a/b/AGENTS.md" TreeExamples.nested
          "." "AGENTS.md" with
  | Returned (Some parent) => parent ∈ TreeExamples.nested
  | _ => False
  end.
Proof.
  destruct (findNearestParentConventionFile "/r" "a/b/AGENTS.md" TreeExamples.nested
              "." "AGENTS.md") as [[parent|]| |] eqn:H;
    try (vm_compute in H; discriminate H).
  apply found_parent_is_the_nearest in H as (_ & H & _). exact H.
Defined.

Lemma no_parent_witness :
  match findNearestParentConventionFile "/r" "a/b/AGENTS.md" TreeExamples.nested
          "a" "AGENTS.md" with
  | Returned None =>
      NodePath.dirname (NodePath.resolve "/r" ["a/b/AGENTS.md"]) = NodePath.resolve "/r" ["a"]
      \/ parentCandidate "/r" (above 1 (NodePath.dirname (NodePath.resolve "/r" ["a/b/AGENTS.md"])))
           "AGENTS.md" ∉ TreeExamples.nested
  | _ => False
  end.
Proof.
  destruct (findNearestParentConventionFile "/r" "a/b/AGENTS.md" TreeExamples.nested
              "a" "AGENTS.md") as [[parent|]| |] eqn:H;
    try (vm_compute in H; discriminate H).
  apply no_parent_means_none_in_reach in H as [H|H]; [left; exact H|].
  right. apply H; [lia|].
  intros j Hj. assert (j = 1%nat) as -> by lia. split.
  - vm_compute. discriminate.
  - vm_compute. reflexivity.
Defined.

(** A directory whose name begins with two dots is taken for a way out
    of the root: nothing above a file below it is looked at, whatever
    the set holds. *)
Lemma dotted_directory_is_not_searched :
  findNearestParentConventionFile "/r" "..foo/x/AGENTS.md"
    {[ "/r/..foo/AGENTS.md"; "/r/..foo/x/AGENTS.md" ]} "." "AGENTS.md"
  = Returned None
  /\ parentCandidate "/r" (above 1 (NodePath.dirname (NodePath.resolve "/r" ["..foo/x/AGENTS.md"])))
       "AGENTS.md" = "/r/..foo/AGENTS.md".
Proof. split; vm_compute; reflexivity. Qed.

(** ** Tree mode: discovery *)

Section Discover.
Variable readdirSync : readdir.
Variables matchFileName root : string.
Variable maxAgents : Z.

(** *** What the inner loop does *)

Lemma scanEntries_sound currentDir all :
  readdirSync currentDir = Some all ->
  reachable readdirSync root currentDir ->
  forall entries stack discovered,
    (forall entry, entry ∈ entries -> entry ∈ all) ->
    Forall (reachable readdirSync root) stack ->
    Forall (found readdirSync matchFileName root) discovered ->
    let '(stack', discovered', _) :=
      scanEntries currentDir matchFileName maxAgents entries stack discovered in
    Forall (reachable readdirSync root) stack'
    /\ Forall (found readdirSync matchFileName root) discovered'.
Proof.
  intros Hall Hreach.
  induction entries as [|entry rest IH]; intros stack discovered Hsub Hst Hdisc;
    cbn [scanEntries]; [auto|].
  assert (Hrest : forall x, x ∈ rest -> x ∈ all).
  { intros x Hx. apply Hsub. right. exact Hx. }
  assert (Hentry : entry ∈ all) by (apply Hsub; left).
  destruct (isIgnored (Dirent.name entry)) eqn:Hig; [apply IH; auto|].
  destruct (Dirent.isDirectory entry) eqn:Hdir.
  { apply IH; auto. constructor; [|exact Hst].
    eapply rtc_r; [exact Hreach|]. exists all, entry. auto. }
  destruct (Dirent.isFile entry && String.eqb (Dirent.name entry) matchFileName) eqn:Hfile;
    [|apply IH; auto].
  apply andb_true_iff in Hfile as (Hf & Hname). apply String.eqb_eq in Hname.
  assert (Hnew : Forall (found readdirSync matchFileName root)
                   (discovered ++ [join [currentDir; Dirent.name entry]])).
  { apply Forall_app. split; [exact Hdisc|]. constructor; [|constructor].
    exists currentDir. split; [exact Hreach|]. exists all, entry. auto 10. }
  destruct (maxAgents <=? _); [split; [constructor | exact Hnew]|].
  apply IH; auto.
Qed.

Lemma scanEntries_count currentDir :
  forall entries stack discovered,
    Z.of_nat (length discovered) < Z.max 1 maxAgents ->
    let '(stack', discovered', broke) :=
      scanEntries currentDir matchFileName maxAgents entries stack discovered in
    if broke
    then stack' = [] /\ Z.of_nat (length discovered') = Z.max 1 maxAgents
    else Z.of_nat (length discovered') < Z.max 1 maxAgents.
Proof.
  induction entries as [|entry rest IH]; intros stack discovered Hlt;
    cbn [scanEntries]; [exact Hlt|].
  destruct (isIgnored _); [apply IH, Hlt|].
  destruct (Dirent.isDirectory entry); [apply IH, Hlt|].
  destruct (_ && _); [|apply IH, Hlt].
  rewrite length_app. cbn [length].
  destruct (Z.leb_spec maxAgents (Z.of_nat (length discovered + 1))) as [Hle|Hgt].
  - cbv beta match. rewrite length_app. cbn [length]. split; [reflexivity|]. lia.
  - specialize (IH stack (discovered ++ [join [currentDir; Dirent.name entry]])%list).
    rewrite length_app in IH. cbn [length] in IH. apply IH. lia.
Qed.

Lemma scanEntries_complete currentDir :
  forall entries stack discovered,
    let '(stack', discovered', broke) :=
      scanEntries currentDir matchFileName maxAgents entries stack discovered in
    broke = false ->
    (forall d, d ∈ stack -> d ∈ stack')
    /\ (forall f, f ∈ discovered -> f ∈ discovered')
    /\ (forall entry, entry ∈ entries -> isIgnored (Dirent.name entry) = false ->
          Dirent.isDirectory entry = true ->
          join [currentDir; Dirent.name entry] ∈ stack')
    /\ (forall entry, entry ∈ entries -> isIgnored (Dirent.name entry) = false ->
          Dirent.isFile entry = true -> Dirent.name entry = matchFileName ->
          join [currentDir; Dirent.name entry] ∈ discovered').
Proof.
  induction entries as [|entry rest IH]; intros stack discovered; cbn [scanEntries].
  { intros _. repeat split; auto; intros entry Hin; inversion Hin. }
  destruct (isIgnored (Dirent.name entry)) eqn:Hig.
  { specialize (IH stack discovered). destruct (scanEntries _ _ _ rest _ _) as [[st' d'] b].
    intros Hb. destruct (IH Hb) as (H1 & H2 & H3 & H4). repeat split; auto.
    - intros x Hx Hx1 Hx2. apply elem_of_cons in Hx as [->|Hx]; [congruence | auto].
    - intros x Hx Hx1 Hx2 Hx3. apply elem_of_cons in Hx as [->|Hx]; [congruence | auto]. }
  destruct (Dirent.isDirectory entry) eqn:Hdir.
  { specialize (IH (join [currentDir; Dirent.name entry] :: stack) discovered).
    destruct (scanEntries _ _ _ rest _ _) as [[st' d'] b].
    intros Hb. destruct (IH Hb) as (H1 & H2 & H3 & H4). repeat split; auto.
    - intros d Hd. apply H1. right. exact Hd.
    - intros x Hx Hx1 Hx2. apply elem_of_cons in Hx as [->|Hx]; [apply H1; left | auto].
    - intros x Hx Hx1 Hx2 Hx3. apply elem_of_cons in Hx as [->|Hx]; [|auto].
      unfold Dirent.isDirectory, Dirent.isFile in *.
      destruct (Dirent.kindOf entry); discriminate. }
  destruct (Dirent.isFile entry && String.eqb (Dirent.name entry) matchFileName) eqn:Hfile.
  - destruct (maxAgents <=? _); [intros Hb; discriminate Hb|].
    specialize (IH stack (discovered ++ [join [currentDir; Dirent.name entry]])%list).
    destruct (scanEntries _ _ _ rest _ _) as [[st' d'] b].
    intros Hb. destruct (IH Hb) as (H1 & H2 & H3 & H4). repeat split; auto.
    + intros f Hf. apply H2, elem_of_app. left. exact Hf.
    + intros x Hx Hx1 Hx2. apply elem_of_cons in Hx as [->|Hx]; [congruence | auto].
    + intros x Hx Hx1 Hx2 Hx3. apply elem_of_cons in Hx as [->|Hx]; [|auto].
      apply H2, elem_of_app. right. left.
  - specialize (IH stack discovered). destruct (scanEntries _ _ _ rest _ _) as [[st' d'] b].
    intros Hb. destruct (IH Hb) as (H1 & H2 & H3 & H4). repeat split; auto.
    + intros x Hx Hx1 Hx2. apply elem_of_cons in Hx as [->|Hx]; [congruence | auto].
    + intros x Hx Hx1 Hx2 Hx3. apply elem_of_cons in Hx as [->|Hx]; [|auto].
      rewrite Hx2 in Hfile. apply String.eqb_eq in Hx3. rewrite Hx3 in Hfile.
      discriminate Hfile.
Qed.

Lemma scanEntries_pushes currentDir :
  forall entries stack discovered,
    let '(stack', _, _) :=
      scanEntries currentDir matchFileName maxAgents entries stack discovered in
    (length stack' <= length stack + length entries)%nat.
Proof.
  induction entries as [|entry rest IH]; intros stack discovered; cbn [scanEntries length];
    [lia|].
  destruct (isIgnored _).
  { specialize (IH stack discovered). destruct (scanEntries _ _ _ rest _ _) as [[st' d'] b]. lia. }
  destruct (Dirent.isDirectory entry).
  { specialize (IH (join [currentDir; Dirent.name entry] :: stack) discovered).
    destruct (scanEntries _ _ _ rest _ _) as [[st' d'] b]. cbn [length] in IH. lia. }
  destruct (_ && _).
  - destruct (maxAgents <=? _); [cbn [length]; lia|].
    specialize (IH stack (discovered ++ [join [currentDir; Dirent.name entry]])%list).
    destruct (scanEntries _ _ _ rest _ _) as [[st' d'] b]. lia.
  - specialize (IH stack discovered). destruct (scanEntries _ _ _ rest _ _) as [[st' d'] b]. lia.
Qed.

End Discover.

(** *** What the outer loop keeps *)

Lemma visit_sound readdirSync matchFileName root maxAgents currentDir popped s :
  Forall (reachable readdirSync root) (currentDir :: popped) ->
  Forall (found readdirSync matchFileName root) (discovered s) ->
  let s' := visit readdirSync matchFileName maxAgents currentDir popped s in
  Forall (reachable readdirSync root) (stack s')
  /\ Forall (found readdirSync matchFileName root) (discovered s').
Proof.
  intros Hst Hdisc. apply Forall_cons in Hst as (Hcur & Hpop).
  unfold visit. destruct (bool_decide _); [auto|].
  destruct (readdirSync currentDir) as [entries|] eqn:Hread; [|auto].
  pose proof (scanEntries_sound readdirSync matchFileName root maxAgents currentDir
                entries Hread Hcur entries popped (discovered s) (fun _ H => H) Hpop Hdisc) as H.
  destruct (scanEntries _ _ _ _ _ _) as [[st' d'] b]. exact H.
Qed.

Lemma discoverLoop_sound readdirSync matchFileName root maxAgents :
  forall fuel s s',
    discoverLoop fuel readdirSync matchFileName maxAgents s = Returned s' ->
    Forall (reachable readdirSync root) (stack s) ->
    Forall (found readdirSync matchFileName root) (discovered s) ->
    Forall (found readdirSync matchFileName root) (discovered s').
Proof.
  induction fuel as [|fuel IH]; intros s s' H Hst Hdisc; simpl in H.
  - destruct (stack s); [injection H as <-; exact Hdisc | discriminate H].
  - destruct (stack s) as [|currentDir popped] eqn:Hstack; [injection H as <-; exact Hdisc|].
    destruct (visit_sound readdirSync matchFileName root maxAgents currentDir popped s
                Hst Hdisc) as (H1 & H2).
    eapply IH; eauto.
Qed.

Lemma visit_count readdirSync matchFileName maxAgents currentDir popped s :
  stack s = currentDir :: popped ->
  countsTo maxAgents s ->
  countsTo maxAgents (visit readdirSync matchFileName maxAgents currentDir popped s).
Proof.
  unfold countsTo. intros Hstack H.
  destruct (truncated s) eqn:Ht; [destruct H as (H & _); congruence|].
  unfold visit. destruct (bool_decide _); cbn [truncated discovered stack];
    [rewrite Ht; exact H|].
  destruct (readdirSync currentDir) as [entries|]; cbn [truncated discovered stack];
    [|rewrite Ht; exact H].
  pose proof (scanEntries_count matchFileName maxAgents currentDir entries popped
                (discovered s) H) as Hs.
  destruct (scanEntries _ _ _ _ _ _) as [[st' d'] b].
  cbn [truncated discovered stack]. rewrite Ht. exact Hs.
Qed.

Lemma discoverLoop_count readdirSync matchFileName maxAgents :
  forall fuel s s',
    discoverLoop fuel readdirSync matchFileName maxAgents s = Returned s' ->
    countsTo maxAgents s -> countsTo maxAgents s'.
Proof.
  induction fuel as [|fuel IH]; intros s s' H Hc; simpl in H.
  - destruct (stack s); [injection H as <-; exact Hc | discriminate H].
  - destruct (stack s) as [|currentDir popped] eqn:Hstack; [injection H as <-; exact Hc|].
    eapply IH; [exact H|]. apply visit_count; assumption.
Qed.

Lemma visit_covers readdirSync matchFileName root maxAgents currentDir popped s :
  stack s = currentDir :: popped ->
  let s' := visit readdirSync matchFileName maxAgents currentDir popped s in
  truncated s' = false ->
  covers readdirSync matchFileName root s ->
  covers readdirSync matchFileName root s'.
Proof.
  intros Hstack. unfold visit, covers.
  destruct (bool_decide_reflect (currentDir ∈ visitedDirs s)) as [Hvis|Hnew];
    cbn [truncated discovered stack visitedDirs].
  { intros _ (Hroot & Hsub & Hmatch). rewrite Hstack in *. repeat split; auto.
    - destruct Hroot as [?|Hr]; [auto|].
      apply elem_of_cons in Hr as [->|Hr]; auto.
    - intros d sub Hd Hc. destruct (Hsub d sub Hd Hc) as [?|Hr]; [auto|].
      apply elem_of_cons in Hr as [->|Hr]; auto. }
  destruct (readdirSync currentDir) as [entries|] eqn:Hread;
    cbn [truncated discovered stack visitedDirs].
  - pose proof (scanEntries_complete matchFileName maxAgents currentDir entries popped
                  (discovered s)) as Hs.
    destruct (scanEntries _ _ _ _ _ _) as [[st' d'] b].
    cbn [truncated discovered stack visitedDirs].
    intros Ht (Hroot & Hsub & Hmatch). apply orb_false_iff in Ht as (Ht & Hb).
    destruct (Hs Hb) as (H1 & H2 & H3 & H4). rewrite Hstack in *.
    repeat split.
    + destruct Hroot as [Hr|Hr]; [left; set_solver|].
      apply elem_of_cons in Hr as [->|Hr]; [left; set_solver | right; auto].
    + intros d sub Hd Hc. apply elem_of_union in Hd as [Hd|Hd].
      * apply elem_of_singleton in Hd as ->.
        destruct Hc as (all & entry & Hall & Hin & Hig & Hdir & ->).
        rewrite Hread in Hall. injection Hall as <-. right. apply H3; auto.
      * destruct (Hsub d sub Hd Hc) as [Hr|Hr]; [left; set_solver|].
        apply elem_of_cons in Hr as [->|Hr]; [left; set_solver | right; auto].
    + intros d f Hd Hm. apply elem_of_union in Hd as [Hd|Hd].
      * apply elem_of_singleton in Hd as ->.
        destruct Hm as (all & entry & Hall & Hin & Hig & Hfile & Hname & ->).
        rewrite Hread in Hall. injection Hall as <-. apply H4; auto.
      * apply H2. eapply Hmatch; eauto.
  - intros Ht (Hroot & Hsub & Hmatch). rewrite Hstack in *. repeat split.
    + destruct Hroot as [Hr|Hr]; [left; set_solver|].
      apply elem_of_cons in Hr as [->|Hr]; [left; set_solver | right; auto].
    + intros d sub Hd Hc. apply elem_of_union in Hd as [Hd|Hd].
      * apply elem_of_singleton in Hd as ->.
        destruct Hc as (all & entry & Hall & _). congruence.
      * destruct (Hsub d sub Hd Hc) as [Hr|Hr]; [left; set_solver|].
        apply elem_of_cons in Hr as [->|Hr]; [left; set_solver | right; auto].
    + intros d f Hd Hm. apply elem_of_union in Hd as [Hd|Hd].
      * apply elem_of_singleton in Hd as ->.
        destruct Hm as (all & entry & Hall & _). congruence.
      * eapply Hmatch; eauto.
Qed.

Lemma visit_truncated readdirSync matchFileName maxAgents currentDir popped s :
  truncated (visit readdirSync matchFileName maxAgents currentDir popped s) = false ->
  truncated s = false.
Proof.
  unfold visit. destruct (bool_decide _); [auto|].
  destruct (readdirSync currentDir); [|auto].
  destruct (scanEntries _ _ _ _ _ _) as [[st' d'] b]. cbn [truncated].
  intros H. apply orb_false_iff in H as (H & _). exact H.
Qed.

Lemma discoverLoop_truncated readdirSync matchFileName maxAgents :
  forall fuel s s',
    discoverLoop fuel readdirSync matchFileName maxAgents s = Returned s' ->
    truncated s' = false -> truncated s = false.
Proof.
  induction fuel as [|fuel IH]; intros s s' H Ht; simpl in H.
  - destruct (stack s); [injection H as <-; exact Ht | discriminate H].
  - destruct (stack s) as [|currentDir popped] eqn:Hstack; [injection H as <-; exact Ht|].
    eapply visit_truncated, IH; eauto.
Qed.

Lemma discoverLoop_covers readdirSync matchFileName root maxAgents :
  forall fuel s s',
    discoverLoop fuel readdirSync matchFileName maxAgents s = Returned s' ->
    truncated s' = false ->
    covers readdirSync matchFileName root s ->
    covers readdirSync matchFileName root s' /\ stack s' = [].
Proof.
  induction fuel as [|fuel IH]; intros s s' H Ht Hc; simpl in H.
  - destruct (stack s) eqn:Hstack; [injection H as <-; auto | discriminate H].
  - destruct (stack s) as [|currentDir popped] eqn:Hstack; [injection H as <-; auto|].
    eapply IH; [exact H | exact Ht |].
    apply visit_covers; auto.
    eapply discoverLoop_truncated; eauto.
Qed.

Lemma covers_reachable readdirSync matchFileName root s :
  covers readdirSync matchFileName root s -> stack s = [] ->
  forall dir, reachable readdirSync root dir -> dir ∈ visitedDirs s.
Proof.
  intros (Hroot & Hsub & _) Hstack dir Hreach. rewrite Hstack in *.
  unfold reachable in Hreach. revert dir Hreach.
  apply (rtc_ind_r (fun dir => dir ∈ visitedDirs s) root).
  - destruct Hroot as [?|Habs]; [auto | inversion Habs].
  - intros d2 d3 Hrest Hc IH.
    destruct (Hsub d2 d3 IH Hc) as [?|Habs]; [auto | inversion Habs].
Qed.

(** *** The loop ends on a finite tree *)

Lemma remaining_mono readdirSync dirs (V V' : gset string) :
  V ⊆ V' -> (remaining readdirSync dirs V' <= remaining readdirSync dirs V)%nat.
Proof.
  intros Hsub. unfold remaining.
  induction dirs as [|x dirs IH]; simpl; [lia|].
  destruct (bool_decide_reflect (x ∈ V')) as [Hx'|Hx'];
    destruct (bool_decide_reflect (x ∈ V)) as [Hx|Hx]; simpl; try lia.
  exfalso. apply Hx', Hsub, Hx.
Qed.

Lemma remaining_visit readdirSync dirs (V : gset string) d :
  d ∈ dirs -> d ∉ V ->
  (remaining readdirSync dirs ({[d]} ∪ V) + cost readdirSync d
   <= remaining readdirSync dirs V)%nat.
Proof.
  intros Hin Hd.
  induction dirs as [|x dirs IH]; [inversion Hin|].
  pose proof (remaining_mono readdirSync dirs V ({[d]} ∪ V)) as Hmono.
  unfold remaining in *. simpl.
  destruct (bool_decide_reflect (x ∈ {[d]} ∪ V)) as [Hx'|Hx'];
    destruct (bool_decide_reflect (x ∈ V)) as [Hx|Hx]; simpl.
  - apply elem_of_cons in Hin as [->|Hin]; [contradiction|]. apply IH, Hin.
  - assert (x = d) as -> by set_solver.
    assert (V ⊆ {[d]} ∪ V) as Hs by set_solver. specialize (Hmono Hs). lia.
  - exfalso. apply Hx'. set_solver.
  - apply elem_of_cons in Hin as [->|Hin]; [exfalso; apply Hx'; set_solver|].
    specialize (IH Hin). lia.
Qed.

Lemma discoverLoop_returns readdirSync matchFileName root maxAgents dirs :
  (forall d, reachable readdirSync root d -> d ∈ dirs) ->
  forall fuel s,
    Forall (reachable readdirSync root) (stack s) ->
    Forall (found readdirSync matchFileName root) (discovered s) ->
    (length (stack s) + remaining readdirSync dirs (visitedDirs s) <= fuel)%nat ->
    exists s', discoverLoop fuel readdirSync matchFileName maxAgents s = Returned s'.
Proof.
  intros Hfin. induction fuel as [|fuel IH]; intros s Hst Hdisc Hfuel; simpl.
  - destruct (stack s); [eauto | simpl in Hfuel; lia].
  - destruct (stack s) as [|currentDir popped] eqn:Hstack; [eauto|].
    destruct (visit_sound readdirSync matchFileName root maxAgents currentDir popped s
                Hst Hdisc) as (H1 & H2).
    apply IH; auto.
    apply Forall_cons in Hst as (Hcur & _). cbn [length] in Hfuel.
    unfold visit. destruct (bool_decide_reflect (currentDir ∈ visitedDirs s)) as [Hv|Hv];
      cbn [stack visitedDirs]; [lia|].
    pose proof (remaining_visit readdirSync dirs (visitedDirs s) currentDir
                  (Hfin _ Hcur) Hv) as Hrem.
    unfold cost in Hrem.
    destruct (readdirSync currentDir) as [entries|]; cbn [stack visitedDirs]; [|lia].
    pose proof (scanEntries_pushes matchFileName maxAgents currentDir entries popped
                  (discovered s)) as Hpush.
    destruct (scanEntries _ _ _ _ _ _) as [[st' d'] b]. cbn [stack visitedDirs]. lia.
Qed.

(** *** [sort] *)

Lemma insertSorted_elem x l y : y ∈ insertSorted x l <-> y = x \/ y ∈ l.
Proof.
  induction l as [|z rest IH]; simpl.
  - rewrite list_elem_of_singleton. split; [auto|]. intros [->|H]; [reflexivity|inversion H].
  - destruct (String.leb x z); rewrite !elem_of_cons, ?IH; tauto.
Qed.

Lemma sort_elem l y : y ∈ Tree.sort l <-> y ∈ l.
Proof.
  induction l as [|x l IH]; simpl; [reflexivity|].
  rewrite insertSorted_elem, elem_of_cons, IH. reflexivity.
Qed.

Lemma insertSorted_length x l : length (insertSorted x l) = S (length l).
Proof.
  induction l as [|z rest IH]; simpl; [reflexivity|].
  destruct (String.leb x z); simpl; [reflexivity|]. rewrite IH. reflexivity.
Qed.

Lemma sort_length l : length (Tree.sort l) = length l.
Proof.
  induction l as [|x l IH]; simpl; [reflexivity|].
  rewrite insertSorted_length, IH. reflexivity.
Qed.

Lemma insertSorted_ascending x l : ascending l -> ascending (insertSorted x l).
Proof.
  unfold ascending. induction l as [|z rest IH]; simpl; intros H.
  - constructor; constructor.
  - destruct (String.leb x z) eqn:Hxz.
    + constructor; [exact H|]. constructor. exact Hxz.
    + apply Sorted_inv in H as (Hrest & Hhd).
      constructor; [apply IH, Hrest|].
      assert (Hzx : String.leb z x = true).
      { destruct (String.leb_total x z) as [Habs|?]; [congruence | assumption]. }
      destruct rest as [|w rest']; simpl; [constructor; exact Hzx|].
      destruct (String.leb x w); constructor; [exact Hzx|].
      inversion Hhd. assumption.
Qed.

Lemma sort_ascending l : ascending (Tree.sort l).
Proof.
  induction l as [|x l IH]; simpl; [constructor|].
  apply insertSorted_ascending, IH.
Qed.

(** *** [discoverConventionFiles] *)

Lemma discover_inv fuel readdirSync cwd rootDir matchFileName maxAgents r :
  discoverConventionFiles fuel readdirSync cwd rootDir matchFileName maxAgents
    = Returned r ->
  exists s,
    discoverLoop fuel readdirSync matchFileName maxAgents
      {| stack := [NodePath.resolve cwd [rootDir]]; visitedDirs := ∅;
         discovered := []; truncated := false |} = Returned s
    /\ r = {| Discovery.files := Tree.sort (discovered s);
              Discovery.truncated := truncated s |}.
Proof.
  unfold discoverConventionFiles. intros H.
  destruct (discoverLoop _ _ _ _ _) as [s| |]; try discriminate H.
  injection H as <-. eauto.
Qed.

(** Every file [discoverConventionFiles] returns is an entry with the
    name looked for, listed as a file in a directory that is reached
    from the root through directories other than [.git] and
    [node_modules]; the files come in ascending order. *)
Theorem discovered_files_are_matches fuel readdirSync cwd rootDir matchFileName
    maxAgents r
  (H : discoverConventionFiles fuel readdirSync cwd rootDir matchFileName maxAgents
       = Returned r) :
  Forall (found readdirSync matchFileName (NodePath.resolve cwd [rootDir]))
         (Discovery.files r)
  /\ ascending (Discovery.files r).
Proof.
  apply discover_inv in H as (s & H & ->). cbn [Discovery.files].
  split; [|apply sort_ascending].
  eapply discoverLoop_sound in H; cbn [stack discovered].
  - apply List.Forall_forall. intros f Hf.
    rewrite List.Forall_forall in H. apply H.
    apply list_elem_of_In, (proj1 (sort_elem _ _)), list_elem_of_In, Hf.
  - constructor; [apply rtc_refl | constructor].
  - constructor.
Qed.

(** The number of files returned is at most the limit (at least one),
    and [truncated] is set exactly when that number is reached, whether
    or not a file was left out. *)
Theorem truncated_iff_limit_reached fuel readdirSync cwd rootDir matchFileName
    maxAgents r
  (H : discoverConventionFiles fuel readdirSync cwd rootDir matchFileName maxAgents
       = Returned r) :
  Z.of_nat (length (Discovery.files r)) <= Z.max 1 maxAgents
  /\ (Discovery.truncated r = true
      <-> Z.of_nat (length (Discovery.files r)) = Z.max 1 maxAgents).
Proof.
  apply discover_inv in H as (s & H & ->). cbn [Discovery.files Discovery.truncated].
  rewrite sort_length.
  apply discoverLoop_count in H; [|unfold countsTo; cbn; lia].
  unfold countsTo in H. destruct (truncated s).
  - destruct H as (_ & H). split; [lia|]. split; auto.
  - split; [lia|]. split; [discriminate | lia].
Qed.

(** Without truncation nothing is left out: every match in a directory
    reached from the root is among the files returned. *)
Theorem untruncated_discovery_is_complete fuel readdirSync cwd rootDir matchFileName
    maxAgents r
  (H : discoverConventionFiles fuel readdirSync cwd rootDir matchFileName maxAgents
       = Returned r)
  (Hall : Discovery.truncated r = false) :
  forall file, found readdirSync matchFileName (NodePath.resolve cwd [rootDir]) file ->
    file ∈ Discovery.files r.
Proof.
  apply discover_inv in H as (s & H & ->). cbn [Discovery.files Discovery.truncated] in *.
  intros file (dir & Hreach & Hmatch). apply sort_elem.
  eapply discoverLoop_covers in H as (Hc & Hstack); [|exact Hall|].
  - pose proof (covers_reachable _ _ _ _ Hc Hstack dir Hreach) as Hvis.
    destruct Hc as (_ & _ & Hm). eapply Hm; eauto.
  - unfold covers. cbn [stack visitedDirs discovered]. repeat split.
    + right. left.
    + intros d sub Hd. set_solver.
    + intros d f Hd. set_solver.
Qed.

(** On a tree with finitely many directories the discovery returns:
    one iteration more than the entries those directories list is
    enough. *)
Theorem discovery_ends_on_a_finite_tree readdirSync cwd rootDir matchFileName
    maxAgents dirs fuel
  (Hfin : forall d, reachable readdirSync (NodePath.resolve cwd [rootDir]) d -> d ∈ dirs)
  (Hfuel : (budget readdirSync dirs <= fuel)%nat) :
  exists r,
    discoverConventionFiles fuel readdirSync cwd rootDir matchFileName maxAgents
    = Returned r.
Proof.
  unfold discoverConventionFiles.
  destruct (discoverLoop_returns readdirSync matchFileName (NodePath.resolve cwd [rootDir])
              maxAgents dirs Hfin fuel
              {| stack := [NodePath.resolve cwd [rootDir]]; visitedDirs := ∅;
                 discovered := []; truncated := false |}) as (s & Hs).
  - constructor; [apply rtc_refl | constructor].
  - constructor.
  - cbn [stack visitedDirs length]. unfold budget in Hfuel. lia.
  - rewrite Hs. eauto.
Qed.

(** *** The discovery on a concrete tree *)

Lemma listing_closed d :
  reachable TreeExamples.listing "/r" d -> d ∈ TreeExamples.listingDirs.
Proof.
  unfold reachable. revert d.
  apply (rtc_ind_r (fun d => d ∈ TreeExamples.listingDirs) "/r").
  - left.
  - intros d sub _ (entries & entry & Hread & Hin & Hig & Hdir & ->) Hd.
    unfold TreeExamples.listingDirs in Hd.
    repeat (apply elem_of_cons in Hd as [->|Hd]);
      try (inversion Hd; fail);
      vm_compute in Hread; try discriminate Hread;
      injection Hread as <-;
      repeat (apply elem_of_cons in Hin as [->|Hin]);
      try (inversion Hin; fail);
      try (vm_compute in Hig; discriminate Hig);
      try (vm_compute in Hdir; discriminate Hdir);
      apply (bool_decide_unpack _); vm_compute; exact I.
Qed.

Lemma discovered_files_witness :
  match discoverConventionFiles 10 TreeExamples.listing "/r" "." "AGENTS.md" 200 with
  | Returned r => ascending (Discovery.files r)
  | _ => False
  end.
Proof.
  destruct (discoverConventionFiles 10 TreeExamples.listing "/r" "." "AGENTS.md" 200)
    as [r| |] eqn:H; try (vm_compute in H; discriminate H).
  apply discovered_files_are_matches in H as (_ & H). exact H.
Defined.

Lemma truncated_witness :
  match discoverConventionFiles 10 TreeExamples.listing "/r" "." "AGENTS.md" 1 with
  | Returned r =>
      Discovery.truncated r = true <-> Z.of_nat (length (Discovery.files r)) = Z.max 1 1
  | _ => False
  end.
Proof.
  destruct (discoverConventionFiles 10 TreeExamples.listing "/r" "." "AGENTS.md" 1)
    as [r| |] eqn:H; try (vm_compute in H; discriminate H).
  apply truncated_iff_limit_reached in H as (_ & H). exact H.
Defined.

Lemma nested_file_is_found :
  found TreeExamples.listing "AGENTS.md" (NodePath.resolve "/r" ["."]) "/r/a/b/AGENTS.md".
Proof.
  change (NodePath.resolve "/r" ["."]) with "/r".
  exists "/r/a/b". split.
  - apply (rtc_l _ _ "/r/a").
    + eexists _, (TreeExamples.entry "a" Dirent.IsDirectory).
      split; [reflexivity|]. split; [right; right; left|]. repeat split.
    + apply rtc_once.
      eexists _, (TreeExamples.entry "b" Dirent.IsDirectory).
      split; [reflexivity|]. split; [left|]. repeat split.
  - eexists _, (TreeExamples.entry "AGENTS.md" Dirent.IsFile).
    split; [reflexivity|]. split; [left|]. repeat split.
Qed.

Lemma untruncated_witness :
  match discoverConventionFiles 10 TreeExamples.listing "/r" "." "AGENTS.md" 200 with
  | Returned r => "/r/a/b/AGENTS.md" ∈ Discovery.files r
  | _ => False
  end.
Proof.
  destruct (discoverConventionFiles 10 TreeExamples.listing "/r" "." "AGENTS.md" 200)
    as [r| |] eqn:H; try (vm_compute in H; discriminate H).
  apply (untruncated_discovery_is_complete _ _ _ _ _ _ _ H).
  - vm_compute in H. injection H as <-. reflexivity.
  - exact nested_file_is_found.
Defined.

Lemma discovery_ends_witness :
  exists r,
    discoverConventionFiles 10 TreeExamples.listing "/r" "." "AGENTS.md" 200 = Returned r.
Proof.
  apply (discovery_ends_on_a_finite_tree TreeExamples.listing "/r" "." "AGENTS.md" 200
           TreeExamples.listingDirs 10).
  - change (NodePath.resolve "/r" ["."]) with "/r". apply listing_closed.
  - vm_compute. lia.
Defined.

(** ** [main] *)

Import Main.

Lemma follow_normalize e segs :
  forall acc n,
    follow e acc segs = Some n ->
    files e !! ("/" ++ NodePath.joinSegments (NodePath.normalizeSegments acc segs))%string
    = Some n.
Proof.
  induction segs as [|s rest IH]; intros acc n H; cbn [follow] in H; simpl.
  - exact H.
  - destruct (files e !! _) as [[c| |]|]; try discriminate H.
    destruct (String.eqb s "" || String.eqb s "."); [apply IH, H|].
    destruct (String.eqb s ".."); apply IH, H.
Qed.

(** A path that a system call can follow leads to the node that its
    resolved form names. *)
Lemma lookup_resolve e p n :
  lookup e p = Some n -> files e !! normalizeAbsolutePath e p = Some n.
Proof.
  unfold lookup, normalizeAbsolutePath, NodePath.resolve.
  destruct (String.eqb p ""); [discriminate|].
  intros H. apply follow_normalize in H. exact H.
Qed.

Lemma analyzeWithLinks_directory e o filePath d st :
  NodePath.resolve (cwd e) [filePath] ∉ TraversalState.visited st ->
  NodePath.resolve (cwd e) [filePath] ∉ TraversalState.analyzing st ->
  (size (TraversalState.visited st) < Options.maxCount o)%nat ->
  files e !! NodePath.resolve (cwd e) [filePath] = Some Directory ->
  analyzeWithLinks e o filePath d st = Threw (NodePath.resolve (cwd e) [filePath]).
Proof.
  intros Hv Ha Hc Hdir. apply analyzeWithLinks_unreadable; auto. left. exact Hdir.
Qed.

Lemma begin_options args o p : Cli.begin args = Cli.Proceed o p -> o = Cli.parseOptions args.
Proof.
  unfold Cli.begin. destruct (existsb Cli.isHelp args); [discriminate|].
  destruct args as [|a rest]; [discriminate|].
  destruct (Cli.filePath _) as [q|]; [|discriminate].
  destruct (String.eqb q ""); [discriminate|]. intros [= <- _]. reflexivity.
Qed.

Lemma begin_limits args o p :
  Cli.begin args = Cli.Proceed o p ->
  1 <= Cli.maxAgents o /\ 1 <= Cli.linkMaxDepth o /\ 1 <= Cli.linkMaxCount o.
Proof.
  intros H. apply begin_options in H as ->.
  apply (parseArgs_limits args Cli.initial false). cbn. lia.
Qed.

(** [process.exit(0)] is the help screen and nothing else. *)
Lemma exits_zero_iff_help fuel readdirSync e args :
  main fuel readdirSync e args = Exited 0 <-> ("--help" ∈ args \/ "-h" ∈ args).
Proof.
  unfold main, Cli.begin.
  destruct (existsb Cli.isHelp args) eqn:Hhelp.
  - split; [intros _|reflexivity].
    apply List.existsb_exists in Hhelp as (a & Hin & Ha).
    apply list_elem_of_In in Hin. unfold Cli.isHelp in Ha.
    apply orb_true_iff in Ha as [Ha|Ha]; apply String.eqb_eq in Ha; subst; auto.
  - split.
    + intros H. exfalso.
      destruct args as [|a rest]; [discriminate H|].
      destruct (Cli.filePath _) as [q|]; [|discriminate H].
      destruct (String.eqb q ""); [discriminate H|].
      destruct (lookup e q); [|discriminate H].
      destruct (analyze _ _ _ _ _); discriminate H.
    + intros Hin. exfalso.
      assert (existsb Cli.isHelp args = true); [|congruence].
      apply List.existsb_exists.
      destruct Hin as [Hin|Hin]; eexists; (split; [apply list_elem_of_In, Hin | reflexivity]).
Qed.

(** The process ends with code 0 in two cases only, the help screen and
    a printed result; [process.exit] is called with 0 for the help
    screen only and with 1 in every other case. *)
Theorem exit_code_zero_is_help_or_result fuel readdirSync e args :
  let x := main fuel readdirSync e args in
  (x = Exited 0 <-> ("--help" ∈ args \/ "-h" ∈ args))
  /\ (forall code, x = Exited code -> code = 0 \/ code = 1)
  /\ (exitCode x = Some 0
      <-> ("--help" ∈ args \/ "-h" ∈ args) \/ exists r, x = Printed r).
Proof.
  cbv zeta.
  assert (Hhelp : main fuel readdirSync e args = Exited 0
                  <-> ("--help" ∈ args \/ "-h" ∈ args)) by apply exits_zero_iff_help.
  assert (Hcodes : forall code, main fuel readdirSync e args = Exited code ->
                                code = 0 \/ code = 1).
  { intros code. unfold main, Cli.begin.
    destruct (existsb Cli.isHelp args); [intros [= <-]; left; reflexivity|].
    destruct args as [|a rest]; [intros [= <-]; right; reflexivity|].
    destruct (Cli.filePath _) as [q|]; [|intros [= <-]; right; reflexivity].
    destruct (String.eqb q ""); [intros [= <-]; right; reflexivity|].
    destruct (lookup e q); [|intros [= <-]; right; reflexivity].
    destruct (analyze _ _ _ _ _); intros H; try discriminate H;
      injection H as <-; right; reflexivity. }
  split; [exact Hhelp|]. split; [exact Hcodes|].
  split.
  - destruct (main fuel readdirSync e args) as [r|code|] eqn:Hx; simpl; intros H.
    + right. exists r. reflexivity.
    + injection H as ->. left. apply Hhelp. reflexivity.
    + discriminate H.
  - intros [H|(r & H)].
    + apply Hhelp in H. rewrite H. reflexivity.
    + rewrite H. reflexivity.
Qed.

(** A directory is analyzed in tree scope only: in the other modes
    [main] prints nothing for it and exits with code 1. *)
Theorem directory_needs_tree_scope fuel readdirSync e args o p
  (Hargs : Cli.begin args = Cli.Proceed o p)
  (Hdir : lookup e p = Some Directory)
  (Hscope : Cli.scope o <> "tree") :
  main fuel readdirSync e args = Exited 1.
Proof.
  pose proof (begin_limits _ _ _ Hargs) as (_ & _ & Hcount).
  pose proof (lookup_resolve _ _ _ Hdir) as Hres.
  unfold main. rewrite Hargs, Hdir. unfold analyze.
  destruct (String.eqb_spec (Cli.scope o) "tree") as [|_]; [contradiction|].
  destruct (Cli.includeLinks o).
  - unfold run. rewrite analyzeWithLinks_directory; auto.
    + cbn. set_solver.
    + cbn. set_solver.
    + change (TraversalState.visited TraversalState.fresh) with (∅ : gset string).
      rewrite size_empty. cbn. lia.
  - unfold analyzeDocumentAt, analyzeDocument, readFileSync. rewrite Hdir, Hres. reflexivity.
Qed.

Lemma directory_needs_tree_scope_witness :
  main 0 TreeExamples.listing MoreExamples.withDirectoryLink ["--include-links"; "docs"]
  = Exited 1.
Proof.
  apply (directory_needs_tree_scope 0 TreeExamples.listing MoreExamples.withDirectoryLink
           ["--include-links"; "docs"]
           (Cli.parseOptions ["--include-links"; "docs"]) "docs").
  - reflexivity.
  - vm_compute. reflexivity.
  - vm_compute. discriminate.
Defined.

(** With [--include-links], whatever the arguments say, the analysis
    that [main] prints holds at most [--max-count] documents, none
    deeper than [--max-depth], the limits being those the option loop
    has read. *)
Theorem printed_links_respect_the_limits fuel readdirSync e args file linkedAnalysis
  (H : main fuel readdirSync e args = Printed (LinkedResult file linkedAnalysis)) :
  let o := Cli.parseOptions args in
  Z.of_nat (length (Result.analyzed linkedAnalysis)) <= Cli.linkMaxCount o
  /\ Forall (fun f => Z.of_nat (FileResult.depth f) <= Cli.linkMaxDepth o)
            (Result.analyzed linkedAnalysis).
Proof.
  unfold main in H.
  destruct (Cli.begin args) as [code|o p] eqn:Hargs; [discriminate H|].
  pose proof (begin_limits _ _ _ Hargs) as (_ & Hdepth & Hcount).
  apply begin_options in Hargs as <-. cbv zeta.
  destruct (lookup e p); [|discriminate H].
  unfold analyze in H.
  destruct (String.eqb (Cli.scope o) "tree").
  { destruct (discoverConventionFiles _ _ _ _ _ _); try discriminate H.
    destruct (describeAll _ _ _ _ _); discriminate H. }
  destruct (Cli.includeLinks o).
  - destruct (run e (Cli.linkOptions o) p) as [r| |] eqn:Hrun; try discriminate H.
    injection H as _ <-.
    apply run_Returned in Hrun as (st' & Hrun).
    apply analyzeWithLinks_grows in Hrun as (_ & Hsize & Hmax & Hall).
    change (TraversalState.visited TraversalState.fresh) with (∅ : gset string) in *.
    rewrite size_empty in *. cbn [Cli.linkOptions Options.maxCount Options.maxDepth] in *.
    split; [lia|].
    eapply Forall_impl; [exact Hall|]. cbn beta. intros f (_ & Hd & _). lia.
  - destruct (analyzeDocumentAt e p); discriminate H.
Qed.

Lemma printed_links_witness :
  match main 0 TreeExamples.listing Examples.diamond
          ["a.md"; "--include-links"; "--max-depth"; "2"; "--max-count"; "2"] with
  | Printed (LinkedResult file linkedAnalysis) =>
      Z.of_nat (length (Result.analyzed linkedAnalysis)) <= 2
  | _ => False
  end.
Proof.
  destruct (main 0 TreeExamples.listing Examples.diamond
              ["a.md"; "--include-links"; "--max-depth"; "2"; "--max-count"; "2"])
    as [[target scope documents|file linkedAnalysis|file metrics evaluation]|code|] eqn:H;
    try (vm_compute in H; discriminate H).
  apply printed_links_respect_the_limits in H as (H & _). exact H.
Defined.

Lemma describeAll_length e o rootDir set :
  forall conventionFiles analyses,
    describeAll e o rootDir set conventionFiles = Returned analyses ->
    length analyses = length conventionFiles.
Proof.
  induction conventionFiles as [|f rest IH]; intros analyses H; simpl in H.
  - injection H as <-. reflexivity.
  - destruct (describe e o rootDir set f) as [d| |]; try discriminate H.
    destruct (describeAll e o rootDir set rest) as [ds| |]; try discriminate H.
    injection H as <-. simpl. rewrite (IH ds); reflexivity.
Qed.

Lemma describeAll_readable e o rootDir set :
  forall conventionFiles analyses,
    describeAll e o rootDir set conventionFiles = Returned analyses ->
    Forall (fun f => exists content,
              files e !! normalizeAbsolutePath e f = Some (File content))
           conventionFiles.
Proof.
  induction conventionFiles as [|f rest IH]; intros analyses H; simpl in H; [constructor|].
  destruct (describe e o rootDir set f) as [d| |] eqn:Hd; try discriminate H.
  destruct (describeAll e o rootDir set rest) as [ds| |]; try discriminate H.
  constructor; [|eapply IH; reflexivity].
  unfold describe, analyzeDocumentAt, analyzeDocument in Hd.
  destruct (lookup e f); [|discriminate Hd].
  destruct (readFileSync e (normalizeAbsolutePath e f)) as [c| |] eqn:Hread;
    try discriminate Hd.
  apply readFileSync_Returned in Hread. eauto.
Qed.

(** In tree scope the documents that [main] prints are at most
    [--max-agents] many, [scope.truncated] is set exactly when that
    number is reached, and a result is printed only if every file
    found could be read. *)
Theorem printed_tree_respects_the_limit fuel readdirSync e args target scope documents
  (H : main fuel readdirSync e args = Printed (TreeResult target scope documents)) :
  let o := Cli.parseOptions args in
  TreeScope.maxAgents scope = Cli.maxAgents o
  /\ Z.of_nat (length documents) <= Cli.maxAgents o
  /\ (TreeScope.truncated scope = true
      <-> Z.of_nat (length documents) = Cli.maxAgents o)
  /\ exists found,
       discoverConventionFiles fuel readdirSync (cwd e) (TreeScope.rootDir scope)
         (Cli.matchFileName o) (Cli.maxAgents o) = Returned found
       /\ length documents = length (Discovery.files found)
       /\ Forall (fun f => exists content,
                    files e !! normalizeAbsolutePath e f = Some (File content))
                 (Discovery.files found).
Proof.
  unfold main in H.
  destruct (Cli.begin args) as [code|o p] eqn:Hargs; [discriminate H|].
  pose proof (begin_limits _ _ _ Hargs) as (Hagents & _ & _).
  apply begin_options in Hargs as <-. cbv zeta.
  destruct (lookup e p); [|discriminate H].
  unfold analyze in H.
  destruct (String.eqb (Cli.scope o) "tree").
  - destruct (discoverConventionFiles _ _ _ _ _ _) as [found| |] eqn:Hfound;
      try discriminate H.
    destruct (describeAll _ _ _ _ _) as [analyses| |] eqn:Hall; try discriminate H.
    injection H as _ <- <-. cbn [TreeScope.maxAgents TreeScope.truncated TreeScope.rootDir].
    pose proof (describeAll_length _ _ _ _ _ _ Hall) as Hlen.
    pose proof (describeAll_readable _ _ _ _ _ _ Hall) as Hread.
    pose proof Hfound as Hinv. apply discover_inv in Hinv as (s & Hloop & ->).
    cbn [Discovery.files Discovery.truncated] in *.
    rewrite sort_length in Hlen.
    apply discoverLoop_count in Hloop; [|unfold countsTo; cbn; lia].
    unfold countsTo in Hloop. rewrite Hlen.
    split; [reflexivity|].
    assert (Hlim : Z.of_nat (length (discovered s)) <= Cli.maxAgents o
                   /\ (truncated s = true
                       <-> Z.of_nat (length (discovered s)) = Cli.maxAgents o)).
    { destruct (truncated s).
      - destruct Hloop as (_ & Hloop). split; [lia|]. split; [lia | reflexivity].
      - split; [lia|]. split; [discriminate | lia]. }
    destruct Hlim as (H1 & H2). split; [exact H1|]. split; [exact H2|].
    eexists. split; [exact Hfound|]. cbn [Discovery.files].
    split; [rewrite sort_length; reflexivity | exact Hread].
  - destruct (Cli.includeLinks o).
    + destruct (run _ _ _); discriminate H.
    + destruct (analyzeDocumentAt e p); discriminate H.
Qed.

Lemma printed_tree_witness :
  match main 10 TreeExamples.listing MainExamples.tree
          ["--scope"; "tree"; "."; "--max-agents"; "2"] with
  | Printed (TreeResult target scope documents) =>
      TreeScope.truncated scope = true <-> Z.of_nat (length documents) = 2
  | _ => False
  end.
Proof.
  destruct (main 10 TreeExamples.listing MainExamples.tree
              ["--scope"; "tree"; "."; "--max-agents"; "2"])
    as [[target scope documents|file linkedAnalysis|file metrics evaluation]|code|] eqn:H;
    try (vm_compute in H; discriminate H).
  apply printed_tree_respects_the_limit in H as (_ & _ & H & _). exact H.
Defined.

(** Outside tree scope [main] always ends, whatever bound the model is
    given: it prints a result or it exits. *)
Lemma main_ends_outside_tree_scope fuel readdirSync e args
  (Hscope : Cli.scope (Cli.parseOptions args) <> "tree") :
  (exists r, main fuel readdirSync e args = Printed r)
  \/ (exists code, main fuel readdirSync e args = Exited code).
Proof.
  unfold main.
  destruct (Cli.begin args) as [code|o p] eqn:Hargs; [eauto|].
  apply begin_options in Hargs. subst o.
  destruct (lookup e p) eqn:Hlook; [|eauto].
  unfold analyze.
  destruct (String.eqb_spec (Cli.scope (Cli.parseOptions args)) "tree") as [|_];
    [contradiction|].
  destruct (Cli.includeLinks _).
  - unfold run.
    pose proof (analyzeWithLinks_fuelled e (Cli.linkOptions (Cli.parseOptions args)) p 0
                  TraversalState.fresh) as Hf.
    destruct (analyzeWithLinks _ _ _ _ _) as [[r st']| |]; [eauto | eauto |].
    contradiction.
  - unfold analyzeDocumentAt, analyzeDocument, readFileSync. rewrite Hlook.
    destruct (files e !! _) as [[c| |]|]; eauto.
Qed.
